(** * Weather tracker: a shallow embedding of [city_weather_info.py] and
      [city_weather_forecast.py]

    The two scripts are the same pipeline in two variants: the user types
    [city[,country]] segments separated by [;], each segment is resolved to
    coordinates by the geocoding service, the weather of every resolved
    city is fetched, both lists are written as JSON files and a chart is
    drawn.

    The embedding keeps Python's dynamic values: every value that crosses
    a function boundary in the scripts is a JSON value ([json]), [None] is
    [JNull], and an operation applied to a value of the wrong shape raises
    the exception Python raises.  Effects (console, HTTP, sleeping, files,
    matplotlib) are recorded as events; a computation is an [outcome]
    together with the events it caused.

    Text is modelled by [string]; a character is read as the code point of
    its byte, so that a text is a sequence of code points below 256.  The
    blank and case tests of [str.strip], [str.title] and [str.upper] are
    those of Python on these code points.  Three letters have an upper
    case that is not such a text of the same length, the micro sign, the
    sharp s and the y with diaeresis (181, 223, 255): [to_upper] leaves
    them as they are, so that [upper] and [title] are those of Python on
    every text without these three letters. *)

From Stdlib Require Import String Ascii List ZArith NArith Bool Lia.
From Stdlib Require DecimalString DecimalFacts DecimalPos DecimalN DecimalZ.
Import ListNotations.
Local Open Scope string_scope.
Local Open Scope Z_scope.

(* ===================================================================== *)
(** * Part I. Definitions                                                 *)
(* ===================================================================== *)

(** ** Characters and the [str] methods the scripts call *)

Module PyStr.

Definition code (c : ascii) : N := N_of_ascii c.

Definition dquote : ascii := "034"%char.
Definition backslash : ascii := "092"%char.
Definition newline : ascii := "010"%char.
Definition tab : ascii := "009"%char.

Definition in_range (lo hi : N) (c : ascii) : bool :=
  ((lo <=? code c) && (code c <=? hi))%N.

(** The letters with a lower case: A to Z, and the capital letters from
    192 to 222 but the multiplication sign (215). *)
Definition is_upper (c : ascii) : bool :=
  in_range 65 90 c || in_range 192 214 c || in_range 216 222 c.

(** The letters with an upper case below 256: a to z, and the small
    letters from 224 to 254 but the division sign (247). *)
Definition is_lower (c : ascii) : bool :=
  in_range 97 122 c || in_range 224 246 c || in_range 248 254 c.

Definition is_digit : ascii -> bool := in_range 48 57.

(** The cased characters: the letters above, the two ordinal indicators
    (170, 186) and the three small letters whose upper case is not below
    256 or is not one character (181, 223, 255). *)
Definition is_cased (c : ascii) : bool :=
  is_upper c || is_lower c
  || Ascii.eqb c "170" || Ascii.eqb c "186"
  || Ascii.eqb c "181" || Ascii.eqb c "223" || Ascii.eqb c "255".

(** [str.isspace] below 256: TAB, LF, VT, FF, CR, the four separators FS,
    GS, RS, US, the blank, NEL (133) and the no-break space (160). *)
Definition is_space (c : ascii) : bool :=
  in_range 9 13 c || in_range 28 32 c || Ascii.eqb c "133" || Ascii.eqb c "160".

Definition to_upper (c : ascii) : ascii :=
  if is_lower c then ascii_of_N (code c - 32) else c.
Definition to_lower (c : ascii) : ascii :=
  if is_upper c then ascii_of_N (code c + 32) else c.

Fixpoint upper (s : string) : string :=
  match s with
  | EmptyString => EmptyString
  | String c r => String (to_upper c) (upper r)
  end.

(** [str.title]: a cased character is upper-cased when the previous
    character is not cased and lower-cased when it is. *)
Fixpoint title_from (previous_is_cased : bool) (s : string) : string :=
  match s with
  | EmptyString => EmptyString
  | String c r =>
      if is_cased c
      then String (if previous_is_cased then to_lower c else to_upper c)
                  (title_from true r)
      else String c (title_from false r)
  end.
Definition title : string -> string := title_from false.

Fixpoint lstrip (s : string) : string :=
  match s with
  | EmptyString => EmptyString
  | String c r => if is_space c then lstrip r else s
  end.

Fixpoint rstrip (s : string) : string :=
  match s with
  | EmptyString => EmptyString
  | String c r =>
      match rstrip r with
      | EmptyString => if is_space c then EmptyString else String c EmptyString
      | r' => String c r'
      end
  end.

Definition strip (s : string) : string := rstrip (lstrip s).

(** [s.split(sep)] for a one-character separator: every occurrence cuts,
    so the result has one more element than [s] has separators. *)
Fixpoint split (sep : ascii) (s : string) : list string :=
  match s with
  | EmptyString => [EmptyString]
  | String c r =>
      if Ascii.eqb c sep then EmptyString :: split sep r
      else match split sep r with
           | [] => [String c EmptyString]
           | p :: ps => String c p :: ps
           end
  end.

(** [sep.join(parts)]. *)
Fixpoint join (sep : ascii) (parts : list string) : string :=
  match parts with
  | [] => EmptyString
  | [p] => p
  | p :: ps => p ++ String sep (join sep ps)
  end.

Fixpoint contains (c : ascii) (s : string) : bool :=
  match s with
  | EmptyString => false
  | String d r => Ascii.eqb d c || contains c r
  end.

Fixpoint all_chars (p : ascii -> bool) (s : string) : bool :=
  match s with
  | EmptyString => true
  | String c r => p c && all_chars p r
  end.

End PyStr.

(** ** JSON values: what [response.json()] returns and [json.dumps] takes *)

(** A Python [int] is a [JInt]; a finite [float] is represented by its
    [repr], the decimal literal that reads back to it; a [dict] is the
    list of its items in insertion order (its keys are distinct); [None]
    is [JNull]. *)
#[warnings="-register-all"]
Inductive json : Type :=
| JNull
| JBool (b : bool)
| JInt (z : Z)
| JFloat (literal : string)
| JStr (s : string)
| JArr (items : list json)
| JObj (members : list (string * json)).

(** Structural induction through the lists of [JArr] and [JObj]. *)
Fixpoint json_nested_ind (P : json -> Prop)
    (HNull : P JNull) (HBool : forall b, P (JBool b))
    (HInt : forall z, P (JInt z)) (HFloat : forall l, P (JFloat l))
    (HStr : forall s, P (JStr s))
    (HArr : forall xs, Forall P xs -> P (JArr xs))
    (HObj : forall kvs, Forall (fun kv => P (snd kv)) kvs -> P (JObj kvs))
    (v : json) {struct v} : P v :=
  let rec := json_nested_ind P HNull HBool HInt HFloat HStr HArr HObj in
  match v with
  | JNull => HNull
  | JBool b => HBool b
  | JInt z => HInt z
  | JFloat l => HFloat l
  | JStr s => HStr s
  | JArr xs =>
      HArr xs ((fix go (l : list json) : Forall P l :=
                  match l with
                  | [] => Forall_nil _
                  | x :: r => Forall_cons x (rec x) (go r)
                  end) xs)
  | JObj kvs =>
      HObj kvs ((fix go (l : list (string * json))
                   : Forall (fun kv => P (snd kv)) l :=
                   match l with
                   | [] => Forall_nil _
                   | kv :: r => Forall_cons kv (rec (snd kv)) (go r)
                   end) kvs)
  end.

Module Py.
Import PyStr.

(** The mantissa of a float literal has no digit but [0]. *)
Fixpoint float_is_zero (literal : string) : bool :=
  match literal with
  | EmptyString => true
  | String c r =>
      if Ascii.eqb c "e" || Ascii.eqb c "E" then true
      else negb (in_range 49 57 c) && float_is_zero r
  end.

(** Python's truth value of an object ([if data:]). *)
Definition truthy (v : json) : bool :=
  match v with
  | JNull => false
  | JBool b => b
  | JInt z => negb (z =? 0)
  | JFloat l => negb (float_is_zero l)
  | JStr s => negb (s =? EmptyString)%string
  | JArr xs => match xs with [] => false | _ => true end
  | JObj kvs => match kvs with [] => false | _ => true end
  end.

(** [d.get(key)] on the items of a dict: [None] when the key is absent. *)
Fixpoint lookup (key : string) (kvs : list (string * json)) : option json :=
  match kvs with
  | [] => None
  | (k, v) :: r => if (k =? key)%string then Some v else lookup key r
  end.

(** [d[key] = v]: an existing key keeps its place. *)
Fixpoint dict_set (kvs : list (string * json)) (key : string) (v : json)
  : list (string * json) :=
  match kvs with
  | [] => [(key, v)]
  | (k, x) :: r =>
      if (k =? key)%string then (k, v) :: r else (k, x) :: dict_set r key v
  end.

(** [dict(pairs)]. *)
Definition dict_of_pairs (pairs : list (string * json)) : list (string * json) :=
  fold_left (fun d kv => dict_set d (fst kv) (snd kv)) pairs [].

Definition keys (kvs : list (string * json)) : list string := map fst kvs.

(** [needle in s] for two strings. *)
Fixpoint is_substring (needle s : string) : bool :=
  String.prefix needle s ||
  match s with
  | EmptyString => false
  | String _ r => is_substring needle r
  end.

End Py.

(** ** [json.dumps(data, indent=4)] and [json.loads] *)

Module Json.
Import PyStr Py.

(** *** Encoder *)

Definition hex_digit (n : N) : ascii :=
  if (n <? 10)%N then ascii_of_N (48 + n) else ascii_of_N (87 + n).

(** ['\\u{0:04x}'.format(n)] *)
Definition u_escape (n : N) : string :=
  String backslash (String "u"
    (String (hex_digit ((n / 4096) mod 16))
      (String (hex_digit ((n / 256) mod 16))
        (String (hex_digit ((n / 16) mod 16))
          (String (hex_digit (n mod 16)) EmptyString))))).

(** One character of [encode_basestring_ascii]: the two-character escapes
    of [ESCAPE_DCT], the printable ASCII characters as they are, every
    other character as a [\u] escape. *)
Definition escape_char (c : ascii) : string :=
  if Ascii.eqb c dquote then String backslash (String dquote EmptyString)
  else if Ascii.eqb c backslash then String backslash (String backslash EmptyString)
  else if Ascii.eqb c newline then String backslash "n"
  else if Ascii.eqb c "013" then String backslash "r"
  else if Ascii.eqb c tab then String backslash "t"
  else if Ascii.eqb c "008" then String backslash "b"
  else if Ascii.eqb c "012" then String backslash "f"
  else if in_range 32 126 c then String c EmptyString
  else u_escape (code c).

Fixpoint escape (s : string) : string :=
  match s with
  | EmptyString => EmptyString
  | String c r => escape_char c ++ escape r
  end.

Definition encode_basestring_ascii (s : string) : string :=
  String dquote (escape s ++ String dquote EmptyString).

(** [int.__repr__] *)
Definition int_repr (z : Z) : string := DecimalString.NilZero.string_of_int (Z.to_int z).

Fixpoint spaces (n : nat) : string :=
  match n with
  | O => EmptyString
  | S k => String " " (spaces k)
  end.

(** ['\n' + ' ' * (4 * level)] *)
Definition newline_indent (level : nat) : string :=
  String newline (spaces (4 * level)).

(** [_iterencode] at a given indentation level: an empty container is
    [[]] or [{}]; the items of a non-empty one are put on lines of their
    own, one level deeper, separated by [,], and the closing bracket
    returns to the level of the container. *)
Fixpoint encode (level : nat) (v : json) {struct v} : string :=
  match v with
  | JNull => "null"
  | JBool true => "true"
  | JBool false => "false"
  | JInt z => int_repr z
  | JFloat l => l
  | JStr s => encode_basestring_ascii s
  | JArr [] => "[]"
  | JArr (x :: xs) =>
      "[" ++ newline_indent (S level) ++ encode (S level) x
      ++ (fix rest (l : list json) : string :=
            match l with
            | [] => newline_indent level ++ "]"
            | y :: r =>
                "," ++ newline_indent (S level) ++ encode (S level) y ++ rest r
            end) xs
  | JObj [] => "{}"
  | JObj ((k, x) :: kvs) =>
      "{" ++ newline_indent (S level)
      ++ encode_basestring_ascii k ++ ": " ++ encode (S level) x
      ++ (fix rest (l : list (string * json)) : string :=
            match l with
            | [] => newline_indent level ++ "}"
            | (k', y) :: r =>
                "," ++ newline_indent (S level)
                ++ encode_basestring_ascii k' ++ ": " ++ encode (S level) y
                ++ rest r
            end) kvs
  end.

(** What follows the first item of a non-empty list, and the first
    member of a non-empty dict. *)
Fixpoint items_tail (level : nat) (l : list json) : string :=
  match l with
  | [] => newline_indent level ++ "]"
  | y :: r =>
      "," ++ newline_indent (S level) ++ encode (S level) y ++ items_tail level r
  end.

Fixpoint members_tail (level : nat) (l : list (string * json)) : string :=
  match l with
  | [] => newline_indent level ++ "}"
  | (k, y) :: r =>
      "," ++ newline_indent (S level)
      ++ encode_basestring_ascii k ++ ": " ++ encode (S level) y
      ++ members_tail level r
  end.

Definition dumps (v : json) : string := encode 0 v.

(** *** Decoder *)

(** The characters of [WHITESPACE]. *)
Definition is_ws (c : ascii) : bool :=
  Ascii.eqb c " " || Ascii.eqb c tab || Ascii.eqb c newline || Ascii.eqb c "013".

Fixpoint skip_ws (s : string) : string :=
  match s with
  | EmptyString => EmptyString
  | String c r => if is_ws c then skip_ws r else s
  end.

Definition hex_value (c : ascii) : option N :=
  if is_digit c then Some (code c - 48)%N
  else if in_range 97 102 c then Some (code c - 87)%N
  else if in_range 65 70 c then Some (code c - 55)%N
  else None.

Definition decode_uXXXX (h1 h2 h3 h4 : ascii) : option N :=
  match hex_value h1, hex_value h2, hex_value h3, hex_value h4 with
  | Some a, Some b, Some c, Some d => Some (((a * 16 + b) * 16 + c) * 16 + d)%N
  | _, _, _, _ => None
  end.

(** The table [BACKSLASH]. *)
Definition unescape (e : ascii) : option ascii :=
  if Ascii.eqb e dquote then Some dquote
  else if Ascii.eqb e backslash then Some backslash
  else if Ascii.eqb e "/" then Some "/"%char
  else if Ascii.eqb e "b" then Some "008"%char
  else if Ascii.eqb e "f" then Some "012"%char
  else if Ascii.eqb e "n" then Some newline
  else if Ascii.eqb e "r" then Some "013"%char
  else if Ascii.eqb e "t" then Some tab
  else None.

Definition cons_to {A} (c : ascii) (r : option (string * A)) : option (string * A) :=
  match r with
  | Some (s, a) => Some (String c s, a)
  | None => None
  end.

(** [scanstring], from the character after the opening quote: the
    decoded text and what follows the closing quote.  A control character
    in the text is refused (strict mode); a [\u] escape above U+00FF has
    no character in this model and is refused too. *)
Fixpoint scanstring (s : string) : option (string * string) :=
  match s with
  | EmptyString => None
  | String c r =>
      if Ascii.eqb c dquote then Some (EmptyString, r)
      else if Ascii.eqb c backslash then
        match r with
        | EmptyString => None
        | String e r1 =>
            if Ascii.eqb e "u" then
              match r1 with
              | String h1 (String h2 (String h3 (String h4 r2))) =>
                  match decode_uXXXX h1 h2 h3 h4 with
                  | Some n =>
                      if (n <? 256)%N
                      then cons_to (ascii_of_N n) (scanstring r2)
                      else None
                  | None => None
                  end
              | _ => None
              end
            else
              match unescape e with
              | Some d => cons_to d (scanstring r1)
              | None => None
              end
        end
      else if (code c <? 32)%N then None
      else cons_to c (scanstring r)
  end.

(** The longest prefix of digits and the rest. *)
Fixpoint span_digits (s : string) : string * string :=
  match s with
  | EmptyString => (EmptyString, EmptyString)
  | String c r =>
      if is_digit c
      then let (d, t) := span_digits r in (String c d, t)
      else (EmptyString, s)
  end.

(** The three groups of [NUMBER_RE]: the integer (an optional minus sign,
    then a single zero or a digit from 1 to 9 followed by digits), the
    fraction (a point and at least one digit) and the exponent (e or E, an
    optional sign and at least one digit); the last two are optional. *)
Definition scan_unsigned (s : string) : option (string * string) :=
  match s with
  | EmptyString => None
  | String c r =>
      if Ascii.eqb c "0" then Some ("0", r)
      else if is_digit c
      then let (d, t) := span_digits r in Some (String c d, t)
      else None
  end.

Definition scan_integer (s : string) : option (string * string) :=
  match s with
  | EmptyString => None
  | String c r =>
      if Ascii.eqb c "-" then
        match scan_unsigned r with
        | Some (d, t) => Some (String "-" d, t)
        | None => None
        end
      else scan_unsigned s
  end.

Definition scan_frac (s : string) : string * string :=
  match s with
  | EmptyString => (EmptyString, s)
  | String c r =>
      if Ascii.eqb c "." then
        match span_digits r with
        | (EmptyString, _) => (EmptyString, s)
        | (d, t) => (String "." d, t)
        end
      else (EmptyString, s)
  end.

Definition scan_sign (s : string) : string * string :=
  match s with
  | EmptyString => (EmptyString, s)
  | String c r =>
      if Ascii.eqb c "+" || Ascii.eqb c "-"
      then (String c EmptyString, r)
      else (EmptyString, s)
  end.

Definition scan_exp (s : string) : string * string :=
  match s with
  | EmptyString => (EmptyString, s)
  | String e r =>
      if Ascii.eqb e "e" || Ascii.eqb e "E" then
        let (sg, r1) := scan_sign r in
        match span_digits r1 with
        | (EmptyString, _) => (EmptyString, s)
        | (d, t) => (String e (sg ++ d), t)
        end
      else (EmptyString, s)
  end.

(** [int(text)] for the text of the first group. *)
Definition parse_int (text : string) : Z :=
  match DecimalString.NilZero.int_of_string text with
  | Some d => Z.of_int d
  | None => 0
  end.

(** [match_number]: without fraction and exponent the number is an
    [int], otherwise the [float] that the literal denotes.  The float is
    kept as the literal that was read: this is its [repr] for the
    literals that [json.dumps] writes, and for them only (Python reads
    [1.50] and [1e2] as the floats it prints as [1.5] and [100.0]). *)
Definition match_number (s : string) : option (json * string) :=
  match scan_integer s with
  | None => None
  | Some (i, s1) =>
      let (f, s2) := scan_frac s1 in
      let (e, s3) := scan_exp s2 in
      match f, e with
      | EmptyString, EmptyString => Some (JInt (parse_int i), s3)
      | _, _ => Some (JFloat (i ++ f ++ e), s3)
      end
  end.

(** A literal that [match_number] reads whole, as a float. *)
Definition is_float_literal (l : string) : bool :=
  match scan_integer l with
  | None => false
  | Some (i, s1) =>
      let (f, s2) := scan_frac s1 in
      let (e, s3) := scan_exp s2 in
      (s3 =? EmptyString)%string && negb ((f =? EmptyString)%string && (e =? EmptyString)%string)
  end.

(** [string[idx:idx + n] == word], and what follows the word. *)
Fixpoint expect (word : string) (v : json) (s : string) : option (json * string) :=
  match word with
  | EmptyString => Some (v, s)
  | String w word' =>
      match s with
      | EmptyString => None
      | String c r => if Ascii.eqb c w then expect word' v r else None
      end
  end.

(** [scan_once], [JSONArray] and [JSONObject].  The three functions call
    each other on what is left of the text; [fuel] bounds the number of
    nested calls.  The constants [NaN], [Infinity] and [-Infinity], which
    are not floats of this model, are not read. *)
Fixpoint scan_once (fuel : nat) (s : string) {struct fuel}
  : option (json * string) :=
  match fuel with
  | O => None
  | S n =>
      match s with
      | EmptyString => None
      | String c r =>
          if Ascii.eqb c dquote then
            match scanstring r with
            | Some (t, r1) => Some (JStr t, r1)
            | None => None
            end
          else if Ascii.eqb c "{" then
            match skip_ws r with
            | EmptyString => None
            | String c1 r1 =>
                if Ascii.eqb c1 "}" then Some (JObj [], r1)
                else
                  match JSONObject n (String c1 r1) with
                  | Some (pairs, r2) => Some (JObj (dict_of_pairs pairs), r2)
                  | None => None
                  end
            end
          else if Ascii.eqb c "[" then
            match skip_ws r with
            | EmptyString => None
            | String c1 r1 =>
                if Ascii.eqb c1 "]" then Some (JArr [], r1)
                else
                  match JSONArray n (String c1 r1) with
                  | Some (values, r2) => Some (JArr values, r2)
                  | None => None
                  end
            end
          else if Ascii.eqb c "n" then expect "null" JNull s
          else if Ascii.eqb c "t" then expect "true" (JBool true) s
          else if Ascii.eqb c "f" then expect "false" (JBool false) s
          else match_number s
      end
  end

(** The values of an array, from the first character of a value. *)
with JSONArray (fuel : nat) (s : string) {struct fuel}
  : option (list json * string) :=
  match fuel with
  | O => None
  | S n =>
      match scan_once n s with
      | None => None
      | Some (v, r) =>
          match skip_ws r with
          | EmptyString => None
          | String c r1 =>
              if Ascii.eqb c "]" then Some ([v], r1)
              else if Ascii.eqb c "," then
                match JSONArray n (skip_ws r1) with
                | Some (vs, r2) => Some (v :: vs, r2)
                | None => None
                end
              else None
          end
      end
  end

(** The pairs of an object, from the opening quote of a key. *)
with JSONObject (fuel : nat) (s : string) {struct fuel}
  : option (list (string * json) * string) :=
  match fuel with
  | O => None
  | S n =>
      match s with
      | EmptyString => None
      | String c r =>
          if Ascii.eqb c dquote then
            match scanstring r with
            | None => None
            | Some (k, r1) =>
                match skip_ws r1 with
                | EmptyString => None
                | String c2 r2 =>
                    if Ascii.eqb c2 ":" then
                      match scan_once n (skip_ws r2) with
                      | None => None
                      | Some (v, r3) =>
                          match skip_ws r3 with
                          | EmptyString => None
                          | String c4 r4 =>
                              if Ascii.eqb c4 "}" then Some ([(k, v)], r4)
                              else if Ascii.eqb c4 "," then
                                match JSONObject n (skip_ws r4) with
                                | Some (kvs, r5) => Some ((k, v) :: kvs, r5)
                                | None => None
                                end
                              else None
                          end
                      end
                    else None
                end
            end
          else None
      end
  end.

(** [json.loads]: one value between blanks, and nothing after it. *)
Definition loads (s : string) : option json :=
  match scan_once (S (String.length s)) (skip_ws s) with
  | Some (v, r) =>
      match skip_ws r with
      | EmptyString => Some v
      | _ => None
      end
  | None => None
  end.

(** *** What can be written and read back *)

Fixpoint distinct (l : list string) : bool :=
  match l with
  | [] => true
  | x :: r => negb (existsb (String.eqb x) r) && distinct r
  end.

(** The values of the JSON data model: the floats are literals that the
    decoder reads as floats, the keys of a dict are distinct. *)
Fixpoint serializable (v : json) : bool :=
  match v with
  | JFloat l => is_float_literal l
  | JArr xs => forallb serializable xs
  | JObj kvs =>
      distinct (keys kvs) && forallb (fun kv => serializable (snd kv)) kvs
  | _ => true
  end.

(** The number of nested calls that decoding a value takes. *)
Fixpoint size (v : json) : nat :=
  match v with
  | JArr xs => S (fold_right (fun x n => S (size x + n)) O xs)
  | JObj kvs => S (fold_right (fun kv n => S (size (snd kv) + n)) O kvs)
  | _ => 1
  end.

End Json.

(** ** The world the scripts run in *)

Module Runtime.
Import PyStr Py.

(** The exceptions that can reach the [try] statements of the scripts.
    The first four are subclasses of [requests.exceptions.RequestException];
    [RequestsJSONDecodeError] (what [response.json()] raises since
    requests 2.27) is also a [json.JSONDecodeError]. *)
Inductive exn : Type :=
| ConnectionError
| Timeout
| HTTPError (status : Z)
| RequestsJSONDecodeError
| JSONDecodeError
| OSError
| KeyError
| IndexError
| TypeError
| AttributeError
| ValueError
| EOFError.

Definition is_RequestException (e : exn) : bool :=
  match e with
  | ConnectionError | Timeout | HTTPError _ | RequestsJSONDecodeError => true
  | _ => false
  end.

Definition is_JSONDecodeError (e : exn) : bool :=
  match e with
  | RequestsJSONDecodeError | JSONDecodeError => true
  | _ => false
  end.

(** [IOError] is an alias of [OSError]. *)
Definition is_IOError (e : exn) : bool :=
  match e with
  | OSError => true
  | _ => false
  end.

Record request : Type := { url : string; params : list (string * json) }.

(** What the service does with a request: the connection fails, the peer
    accepts the connection and never sends anything, or it answers with
    a status code and a body; [body] is what [response.json()] decodes,
    [None] when the body is not JSON.  The timeout of [requests] bounds
    the wait for the next piece of the answer, not the call: a peer that
    keeps sending, a piece at a time, for ever, would block a call with
    a timeout too, and is not one of the behaviours considered here. *)
Inductive net_behaviour : Type :=
| ConnectionFails
| Stalls
| Responds (status : Z) (body : option json).

Record response : Type := { status_code : Z; payload : option json }.

(** The calls of matplotlib that the scripts make. *)
Inductive plot_call : Type :=
| Subplots
| AxPlot (dates : list string) (temps : list json) (label : json)
| AxSetTitle (title : string) (fontsize : Z)
| AxSetXLabel (label : string) (fontsize : Z)
| AxSetYLabel (label : string) (fontsize : Z)
| FigAutofmtXDate
| AxLegend
| StyleUse (style : string)
| Bar (group_offset : nat) (heights : list json) (color label : string)
| PltTitle (title : string)
| PltXLabel (label : string)
| PltYLabel (label : string)
| XTicks (labels : list json) (rotation : Z) (ha : string)
| PltLegend
| TightLayout
| Show.

(** What the scripts read from their surroundings: the credential (the
    scripts exit at once when it is not set, so that it is set when
    [main] runs), the services, which exception [response.json()]
    raises, the paths whose write fails and what a failed write leaves
    ([None]: the file cannot be opened and keeps its content; [Some n]:
    the file is opened, hence emptied, and the write fails after [n]
    characters), the timestamps that [datetime.strptime] accepts with
    the format of the forecast service, and the exception that a call of
    matplotlib raises, if it raises one.  Throughout a run a request is
    answered the same way, a write to a path fails the same way and a
    drawing call with the same arguments ends the same way. *)
Record env : Type := {
  API_KEY : string;
  net : request -> net_behaviour;
  legacy_json_error : bool;
  write_fails : string -> bool;
  write_cut : string -> option nat;
  strptime_ok : string -> bool;
  plt_raises : plot_call -> option exn
}.

(** A piece of an f-string: literal text, [str(v)] of a value, or the text
    of an exception. *)
Inductive piece : Type :=
| Lit (s : string)
| Fmt (v : json)
| FmtExn (e : exn).

(** What a run does, as seen from outside. [WriteText path content]: the
    file at [path] is replaced and holds [content] afterwards;
    [WriteRefused path]: the file could not be opened for writing. *)
Inductive event : Type :=
| Input (prompt : string)
| Print (message : list piece)
| HttpGet (r : request) (timeout : option Z)
| Sleep (seconds : Z)
| WriteText (path content : string)
| WriteRefused (path : string)
| Plt (call : plot_call).

(** A call returns a value, raises an exception, or never returns. *)
Inductive outcome (A : Type) : Type :=
| Ret (a : A)
| Raise (e : exn)
| Hang.
Arguments Ret {A} a.
Arguments Raise {A} e.
Arguments Hang {A}.

(** The scripts never read back what they did: a computation is its
    outcome together with the events it caused, oldest first. *)
Definition M (A : Type) : Type := (outcome A * list event)%type.

Definition result {A} (c : M A) : outcome A := fst c.
Definition trace {A} (c : M A) : list event := snd c.

Definition ret {A} (a : A) : M A := (Ret a, []).
Definition raise {A} (e : exn) : M A := (Raise e, []).
Definition hang {A} : M A := (Hang, []).

Definition bind {A B} (c : M A) (k : A -> M B) : M B :=
  match fst c with
  | Ret a => (fst (k a), (snd c ++ snd (k a))%list)
  | Raise e => (Raise e, snd c)
  | Hang => (Hang, snd c)
  end.

Declare Scope py_scope.
Delimit Scope py_scope with py.
Notation "x <- c ;; k" := (bind c (fun x => k))
  (at level 61, c at next level, right associativity) : py_scope.
Notation "c ;; k" := (bind c (fun _ => k))
  (at level 61, right associativity) : py_scope.
Local Open Scope py_scope.

Definition emit (e : event) : M unit := (Ret tt, [e]).

Definition print (message : list piece) : M unit := emit (Print message).
Definition sleep (seconds : Z) : M unit := emit (Sleep seconds).

(** [try: body except ...: handler]: [handler e] is [None] when no clause
    matches [e]. *)
Definition try_except {A} (body : M A) (handler : exn -> option (M A)) : M A :=
  match fst body with
  | Raise e =>
      match handler e with
      | Some h => (fst h, (snd body ++ snd h)%list)
      | None => body
      end
  | _ => body
  end.

(** [try: body finally: final]: [final] runs whenever [body] returns or
    raises, and the outcome of [body] stands afterwards. *)
Definition try_finally {A} (body : M A) (final : M unit) : M A :=
  match fst body with
  | Hang => body
  | r =>
      match fst final with
      | Ret _ => (r, (snd body ++ snd final)%list)
      | Raise e => (Raise e, (snd body ++ snd final)%list)
      | Hang => (Hang, (snd body ++ snd final)%list)
      end
  end.

(** The files on disk after a run: the last text written to each path. *)
Definition disk : Type := string -> option string.

Definition apply_event (d : disk) (e : event) : disk :=
  match e with
  | WriteText path content =>
      fun p => if (p =? path)%string then Some content else d p
  | _ => d
  end.

Definition disk_after (t : list event) (d : disk) : disk :=
  fold_left apply_event t d.

Definition read_text (path : string) (d : disk) : option string := d path.

(** [[f(x) for x in xs]] *)
Fixpoint comprehension {A B} (f : A -> M B) (xs : list A) : M (list B) :=
  match xs with
  | [] => ret []
  | x :: r => y <- f x ;; ys <- comprehension f r ;; ret (y :: ys)
  end.

(** [for x in xs: body], with the variables the body updates as [s]. *)
Fixpoint for_each {A S} (xs : list A) (body : A -> S -> M S) (s : S) : M S :=
  match xs with
  | [] => ret s
  | x :: r => s' <- body x s ;; for_each r body s'
  end.

(** *** Operations on dynamic values *)

(** [v[key]] for a string key. *)
Definition getitem (v : json) (key : string) : M json :=
  match v with
  | JObj kvs =>
      match lookup key kvs with
      | Some x => ret x
      | None => raise KeyError
      end
  | _ => raise TypeError
  end.

(** [v[0]] *)
Definition getitem0 (v : json) : M json :=
  match v with
  | JArr (x :: _) => ret x
  | JArr [] => raise IndexError
  | JStr (String c _) => ret (JStr (String c EmptyString))
  | JStr EmptyString => raise IndexError
  | JObj _ => raise KeyError
  | _ => raise TypeError
  end.

(** [v.get(key)] *)
Definition get_method (v : json) (key : string) : M json :=
  match v with
  | JObj kvs =>
      match lookup key kvs with
      | Some x => ret x
      | None => ret JNull
      end
  | _ => raise AttributeError
  end.

Fixpoint chars (s : string) : list json :=
  match s with
  | EmptyString => []
  | String c r => JStr (String c EmptyString) :: chars r
  end.

(** The elements a [for] loop visits. *)
Definition iterate (v : json) : M (list json) :=
  match v with
  | JArr xs => ret xs
  | JObj kvs => ret (map JStr (keys kvs))
  | JStr s => ret (chars s)
  | _ => raise TypeError
  end.

(** [key in v] for a string key. *)
Definition contains_key (key : string) (v : json) : M bool :=
  match v with
  | JObj kvs => ret (match lookup key kvs with Some _ => true | None => false end)
  | JArr xs =>
      ret (existsb (fun x => match x with
                             | JStr s => (s =? key)%string
                             | _ => false
                             end) xs)
  | JStr s => ret (is_substring key s)
  | _ => raise TypeError
  end.

(** *** The libraries *)

Section WithEnv.
Variable E : env.

(** [requests.get(url, headers=HEADERS, params=params[, timeout=t])]:
    without a timeout the call waits for the answer however long it takes. *)
Definition requests_get (u : string) (ps : list (string * json))
    (timeout : option Z) : M response :=
  let r := {| url := u; params := ps |} in
  emit (HttpGet r timeout) ;;
  match net E r with
  | ConnectionFails => raise ConnectionError
  | Stalls =>
      match timeout with
      | Some _ => raise Timeout
      | None => hang
      end
  | Responds status body => ret {| status_code := status; payload := body |}
  end.

(** [response.raise_for_status()] *)
Definition raise_for_status (r : response) : M unit :=
  if (400 <=? status_code r) && (status_code r <? 600)
  then raise (HTTPError (status_code r))
  else ret tt.

(** [response.json()] *)
Definition response_json (r : response) : M json :=
  match payload r with
  | Some v => ret v
  | None =>
      raise (if legacy_json_error E then JSONDecodeError
             else RequestsJSONDecodeError)
  end.

(** [Path(filename).write_text(text)]: the file is opened for writing,
    which empties it, and the text is written.  A write that fails
    raises [OSError]: either the file could not be opened, or it is left
    with the characters written before the failure. *)
Definition write_text (path text : string) : M unit :=
  if write_fails E path then
    match write_cut E path with
    | None => emit (WriteRefused path) ;; raise OSError
    | Some n => emit (WriteText path (substring 0 n text)) ;; raise OSError
    end
  else emit (WriteText path text).

(** A call of matplotlib: the event records that the call was made; when
    the call raises, what it has drawn before is not known. *)
Definition plt (call : plot_call) : M unit :=
  match plt_raises E call with
  | Some e => emit (Plt call) ;; raise e
  | None => emit (Plt call)
  end.

(** [datetime.strptime(date, "%Y-%m-%d %H:%M:%S")] *)
Definition strptime (date : json) : M string :=
  match date with
  | JStr s => if strptime_ok E s then ret s else raise ValueError
  | _ => raise TypeError
  end.

End WithEnv.

End Runtime.

(** ** What the two scripts share *)

Module Common.
Import PyStr Py Json Runtime.
Local Open Scope py_scope.

(** The first lines of [get_coordinates]:
    [parts = [part.strip().title() for part in location.split(',')]],
    [city = parts[0]],
    [country_code = parts[1].upper() if len(parts) > 1 else None]. *)
Definition location_parts (location : string) : list string :=
  map (fun part => title (strip part)) (split "," location).

Definition parse_location (location : string) : string * option string :=
  let parts := location_parts location in
  (hd EmptyString parts,
   match parts with
   | _ :: p1 :: _ => Some (upper p1)
   | _ => None
   end).

(** [[location.strip() for location in user_input.split(';')]] *)
Definition user_locations (user_input : string) : list string :=
  map strip (split ";" user_input).

(** [country_code or ''] *)
Definition or_empty (country_code : option string) : string :=
  match country_code with
  | Some c => c
  | None => EmptyString
  end.

(** The value of the parameter [q]: [city], followed by a comma and
    [country_code] when there is a country code. *)
Definition query_text (city : string) (country_code : option string) : string :=
  match country_code with
  | Some (String c r) => city ++ String "," (String c r)
  | _ => city
  end.

Definition geo_params (E : env) (location : string) : list (string * json) :=
  let (city, country_code) := parse_location location in
  [("q", JStr (query_text city country_code));
   ("appid", JStr (API_KEY E));
   ("limit", JInt 1)].

Definition weather_params (E : env) (lat lon : json) : list (string * json) :=
  [("lat", lat); ("lon", lon); ("appid", JStr (API_KEY E)); ("units", JStr "metric")].

(** The dict that [get_coordinates] builds from one candidate. *)
Definition extract_info (city_data : json) : M json :=
  name <- get_method city_data "name" ;;
  lat <- get_method city_data "lat" ;;
  lon <- get_method city_data "lon" ;;
  country <- get_method city_data "country" ;;
  state <- get_method city_data "state" ;;
  ret (JObj [("name", name); ("latitude", lat); ("longitude", lon);
             ("country", country); ("state", state)]).

Definition COORDINATES_FILE : string := "city_coordinates.json".
Definition geo_url : string := "https://api.openweathermap.org/geo/1.0/direct".

(** [save_json], the same in both scripts. *)
Definition save_json (E : env) (data : json) (filename : string) : M unit :=
  try_except
    (write_text E filename (dumps data) ;;
     print [Lit (String newline "Data saved to "); Fmt (JStr filename)])
    (fun e =>
       if is_IOError e
       then Some (print [Lit "Error writing to "; Fmt (JStr filename);
                         Lit ": "; FmtExn e])
       else None).

End Common.

(** ** [city_weather_info.py] *)

Module Info.
Import PyStr Py Json Runtime Common.
Local Open Scope py_scope.

Definition REQUEST_TIMEOUT : Z := 10.
Definition RATE_LIMIT_DELAY : Z := 1.
Definition WEATHER_DATA_FILE : string := "city_weather_data.json".
Definition PROMPT : string :=
  "Please enter city and optional country code (separated by comma), e.g., (London,GB) or (Abuja)."
  ++ String newline
  "Separate different city/country pairs by semicolon ';', e.g., (London,GB;Abuja): ".
Definition weather_url : string := "https://api.openweathermap.org/data/2.5/weather".
Definition TITLE : string := "Temperatures of Different Cities".
Definition X_LABEL : string := "Cities".
(** The label has a capital A with circumflex (194) before the degree
    sign (176). *)
Definition Y_LABEL : string :=
  "Temperatures (" ++ String "194" (String "176" "C)").

Section WithEnv.
Variable E : env.

Definition get_coordinates (location : string) : M json :=
  let (city, country_code) := parse_location location in
  print [Lit "Fetching coordinates for "; Fmt (JStr city); Lit ", ";
         Fmt (JStr (or_empty country_code)); Lit "..."] ;;
  try_finally
    (try_except
       (response <- requests_get E geo_url (geo_params E location)
                      (Some REQUEST_TIMEOUT) ;;
        raise_for_status response ;;
        data <- response_json E response ;;
        if truthy data then
          city_data <- getitem0 data ;;
          extract_info city_data
        else
          print [Lit "No results found for "; Fmt (JStr city); Lit ", ";
                 Fmt (JStr (or_empty country_code))] ;;
          ret JNull)
       (fun e =>
          if is_RequestException e then
            Some (print [Lit "Error fetching coordinates for "; Fmt (JStr city);
                         Lit ", "; Fmt (JStr (or_empty country_code));
                         Lit ": "; FmtExn e] ;;
                  ret JNull)
          else if is_JSONDecodeError e then
            Some (print [Lit "Error decoding JSON response for "; Fmt (JStr city);
                         Lit ", "; Fmt (JStr (or_empty country_code));
                         Lit ": "; FmtExn e] ;;
                  ret JNull)
          else None))
    (sleep RATE_LIMIT_DELAY).

Definition get_weather_data (city_info : json) : M json :=
  lat <- getitem city_info "latitude" ;;
  lon <- getitem city_info "longitude" ;;
  name <- getitem city_info "name" ;;
  print [Lit "Fetching weather data for "; Fmt name; Lit "..."] ;;
  try_finally
    (try_except
       (response <- requests_get E weather_url (weather_params E lat lon)
                      (Some REQUEST_TIMEOUT) ;;
        raise_for_status response ;;
        response_json E response)
       (fun e =>
          if is_RequestException e then
            Some (print [Lit "Error fetching weather data for "; Fmt name;
                         Lit ": "; FmtExn e] ;;
                  ret JNull)
          else if is_JSONDecodeError e then
            Some (print [Lit "Error decoding JSON response for "; Fmt name;
                         Lit ": "; FmtExn e] ;;
                  ret JNull)
          else None))
    (sleep RATE_LIMIT_DELAY).

Definition main_temp (field : string) (city : json) : M json :=
  m <- getitem city "main" ;; getitem m field.

Definition plot_temperatures (city_weather_data : list json) : M unit :=
  match city_weather_data with
  | [] => print [Lit "No weather data to plot."]
  | _ =>
      names <- comprehension (fun city => getitem city "name") city_weather_data ;;
      temps <- comprehension (main_temp "temp") city_weather_data ;;
      min_temps <- comprehension (main_temp "temp_min") city_weather_data ;;
      max_temps <- comprehension (main_temp "temp_max") city_weather_data ;;
      plt E (StyleUse "dark_background") ;;
      plt E (Bar 0 temps "violet" "Current Temperature") ;;
      plt E (Bar 1 min_temps "red" "Minimum Temperature") ;;
      plt E (Bar 2 max_temps "blue" "Maximum Temperature") ;;
      plt E (PltTitle TITLE) ;;
      plt E (PltXLabel X_LABEL) ;;
      plt E (PltYLabel Y_LABEL) ;;
      plt E (XTicks names 45 "right") ;;
      plt E PltLegend ;;
      plt E TightLayout ;;
      plt E Show
  end.

(** The body of the [for location in user_locations] loop. *)
Definition resolve_step (location : string) (extracted_data : list json)
  : M (list json) :=
  city_info <- get_coordinates location ;;
  ret (if truthy city_info then (extracted_data ++ [city_info])%list
       else extracted_data).

(** The body of the [for city_info in extracted_data] loop. *)
Definition retrieve_step (city_info : json) (city_weather_data : list json)
  : M (list json) :=
  weather_data <- get_weather_data city_info ;;
  ret (if truthy weather_data then (city_weather_data ++ [weather_data])%list
       else city_weather_data).

(** One turn of the [while True] loop of [main], after the two tests on
    [user_input]. *)
Definition process_batch (user_input : string) : M unit :=
  extracted_data <- for_each (user_locations user_input) resolve_step [] ;;
  save_json E (JArr extracted_data) COORDINATES_FILE ;;
  city_weather_data <- for_each extracted_data retrieve_step [] ;;
  save_json E (JArr city_weather_data) WEATHER_DATA_FILE ;;
  plot_temperatures city_weather_data.

(** [main]; [stdin] holds the lines the user types. *)
Fixpoint main (stdin : list string) : M unit :=
  emit (Input PROMPT) ;;
  match stdin with
  | [] => raise EOFError
  | user_input :: rest =>
      if (user_input =? "quit")%string then
        print [Lit "Exiting the session..."]
      else if (user_input =? EmptyString)%string then
        print [Lit "Enter a valid city and/or country"] ;;
        main rest
      else
        process_batch user_input ;;
        main rest
  end.

End WithEnv.
End Info.

(** ** [city_weather_forecast.py] *)

Module Forecast.
Import PyStr Py Json Runtime Common.
Local Open Scope py_scope.

Definition FORECAST_FILE : string := "city_weather_forecast.json".
Definition TITLE : string := "Temperature Forecast for the next five days.".
Definition PROMPT : string :=
  "Please enter city and optional country code (separated by comma), e.g., (London,GB) or (Abuja)."
  ++ String newline
  "Separate different city/country pairs by semicolon ';', e.g., (London,GB;Abuja)."
  ++ String newline "Enter 'quit' when you want to exit. ".
Definition forecast_url : string := "https://api.openweathermap.org/data/2.5/forecast".
Definition X_LABEL : string := "Dates".
(** The label has the degree sign (176). *)
Definition Y_LABEL : string := "Temperature (" ++ String "176" "C)".

Section WithEnv.
Variable E : env.

(** [country_code if country_code else alt] *)
Definition if_country (country_code : option string) (alt : json) : json :=
  match country_code with
  | Some (String c r) => JStr (String c r)
  | _ => alt
  end.

(** The loop [for city_data in geo_response_dict: extracted_info = {...}]
    followed by [return extracted_info]: every element is mapped, each
    mapping replaces the previous one. *)
Definition extract_loop (candidates : list json) : M json :=
  for_each candidates (fun city_data _ => extract_info city_data) JNull.

Definition get_coordinates (location : string) : M json :=
  let (city, country_code) := parse_location location in
  print [Lit "Fetching coordinates for "; Fmt (JStr city); Lit ",";
         Fmt (if_country country_code (JStr EmptyString)); Lit "..."] ;;
  try_finally
    (try_except
       (geo_response <- requests_get E geo_url (geo_params E location) None ;;
        raise_for_status geo_response ;;
        geo_response_dict <- response_json E geo_response ;;
        print [Lit "Name: "; Fmt (JStr city); Lit (String tab "Country: ");
               Fmt (if_country country_code JNull);
               Lit (String tab "Status Code: ");
               Fmt (JInt (status_code geo_response))] ;;
        if truthy geo_response_dict then
          candidates <- iterate geo_response_dict ;;
          extract_loop candidates
        else
          print [Lit "No coordinates found for "; Fmt (JStr city); Lit ", ";
                 Fmt (if_country country_code (JStr EmptyString))] ;;
          ret JNull)
       (fun e =>
          if is_RequestException e then
            Some (print [Lit "Error fetching coordinates for "; Fmt (JStr city);
                         Lit ", "; Fmt (if_country country_code (JStr EmptyString));
                         Lit ": "; FmtExn e] ;;
                  ret JNull)
          else if is_JSONDecodeError e then
            Some (print [Lit "Error decoding JSON response for coordinates of ";
                         Fmt (JStr city); Lit ", ";
                         Fmt (if_country country_code (JStr EmptyString));
                         Lit ": "; FmtExn e] ;;
                  ret JNull)
          else None))
    (sleep 1).

Definition get_weather_forecast (city_info : json) : M json :=
  lat <- getitem city_info "latitude" ;;
  lon <- getitem city_info "longitude" ;;
  name <- getitem city_info "name" ;;
  print [Lit "Fetching weather forecast for "; Fmt name] ;;
  try_except
    (forecast_response <- requests_get E forecast_url (weather_params E lat lon) None ;;
     raise_for_status forecast_response ;;
     forecast_response_dict <- response_json E forecast_response ;;
     print [Lit "City name: "; Fmt name; Lit (String tab "Status Code: ");
            Fmt (JInt (status_code forecast_response))] ;;
     ret forecast_response_dict)
    (fun e =>
       if is_RequestException e then
         Some (print [Lit "Error fetching weather for "; Fmt name;
                      Lit ": "; FmtExn e] ;;
               ret JNull)
       else if is_JSONDecodeError e then
         Some (print [Lit "Error decoding JSON response for weather in "; Fmt name;
                      Lit ": "; FmtExn e] ;;
               ret JNull)
       else None).

(** [forecast_data and 'list' in forecast_data and forecast_data['list']] *)
Definition has_forecast_list (forecast_data : json) : M bool :=
  if truthy forecast_data then
    present <- contains_key "list" forecast_data ;;
    if (present : bool) then
      l <- getitem forecast_data "list" ;;
      ret (truthy l)
    else ret false
  else ret false.

Definition plot_forecast (forecast_data city_name : json) : M unit :=
  go <- has_forecast_list forecast_data ;;
  if (go : bool) then
    l <- getitem forecast_data "list" ;;
    items <- iterate l ;;
    dates_strings <- comprehension (fun item => getitem item "dt_txt") items ;;
    dates <- comprehension (strptime E) dates_strings ;;
    l' <- getitem forecast_data "list" ;;
    items' <- iterate l' ;;
    temps <- comprehension
               (fun item => m <- getitem item "main" ;; getitem m "temp") items' ;;
    print [Lit "Plotting forecast for "; Fmt city_name] ;;
    plt E (AxPlot dates temps city_name)
  else
    print [Lit "No forecast data available for "; Fmt city_name; Lit "."].

(** The body of the [for location in user_locations] loop. *)
Definition resolve_step (location : string) (extracted_data : list json)
  : M (list json) :=
  city_info <- get_coordinates location ;;
  ret (if truthy city_info then (extracted_data ++ [city_info])%list
       else extracted_data).

(** The body of the [for city_info in extracted_data] loop. *)
Definition retrieve_step (city_info : json) (city_forecasts : list json)
  : M (list json) :=
  forecast_data <- get_weather_forecast city_info ;;
  if truthy forecast_data then
    let city_forecasts' := (city_forecasts ++ [forecast_data])%list in
    name <- getitem city_info "name" ;;
    plot_forecast forecast_data name ;;
    ret city_forecasts'
  else ret city_forecasts.

(** One turn of the [while True] loop of [main], after the two tests on
    [user_input], up to the [break]. *)
Definition process_batch (extracted_data city_forecasts : list json)
    (user_input : string) : M unit :=
  extracted_data' <- for_each (user_locations user_input) resolve_step
                       extracted_data ;;
  save_json E (JArr extracted_data') COORDINATES_FILE ;;
  plt E Subplots ;;
  city_forecasts' <- for_each extracted_data' retrieve_step city_forecasts ;;
  plt E (AxSetTitle TITLE 24) ;;
  plt E (AxSetXLabel X_LABEL 14) ;;
  plt E (AxSetYLabel Y_LABEL 14) ;;
  plt E FigAutofmtXDate ;;
  plt E AxLegend ;;
  plt E Show ;;
  save_json E (JArr city_forecasts') FORECAST_FILE.

Fixpoint main_loop (extracted_data city_forecasts : list json)
    (stdin : list string) : M unit :=
  emit (Input PROMPT) ;;
  match stdin with
  | [] => raise EOFError
  | user_input :: rest =>
      if (user_input =? "quit")%string then
        print [Lit "Exiting session..."]
      else if (user_input =? EmptyString)%string then
        print [Lit "Please enter a valid city and/or country code."] ;;
        main_loop extracted_data city_forecasts rest
      else
        process_batch extracted_data city_forecasts user_input
  end.

Definition main (stdin : list string) : M unit := main_loop [] [] stdin.

End WithEnv.
End Forecast.

(** ** Vocabulary of the properties *)

Module Claims.
Import PyStr Py Json Runtime Common.

(** *** Reading back what [json.dumps] wrote *)

(** What follows a value in the output of [json.dumps]: nothing, a comma
    or a new line. *)
Definition terminated (rest : string) : Prop :=
  match rest with
  | EmptyString => True
  | String c _ => c = ","%char \/ c = newline
  end.

(** The nested calls that the items of a list take. *)
Definition items_size (xs : list json) : nat :=
  fold_right (fun x n => S (size x + n)) O xs.

Definition members_size (kvs : list (string * json)) : nat :=
  fold_right (fun kv n => S (size (snd kv) + n)) O kvs.

(** The decoder reads the value back from its encoding at any level of
    indentation, with enough fuel, whatever follows it. *)
Definition decodes_back (v : json) : Prop :=
  forall level fuel rest,
    (size v <= fuel)%nat -> terminated rest ->
    scan_once fuel (encode level v ++ rest) = Some (v, rest).

(** *** From the input line to the queries *)

(** A line that starts a batch: neither [quit] nor empty, the two tests
    of [main]. *)
Definition starts_batch (line : string) : bool :=
  negb (line =? "quit")%string && negb (line =? EmptyString)%string.

(** What the scripts make of an input line: [main] turns [quit] and the
    empty line away, cuts any other line at the semicolons and trims the
    segments, and [get_coordinates] turns each segment into a city and a
    country code. *)
Definition parse (raw : string) : option (list (string * option string)) :=
  if starts_batch raw then Some (map parse_location (user_locations raw))
  else None.

(** The query of the parts of a segment: the city from the first part,
    the country code from the second one if there is one. *)
Definition query_of_parts (parts : list string) : string * option string :=
  (title (strip (hd EmptyString parts)),
   match parts with
   | _ :: p :: _ => Some (upper (strip p))
   | _ => None
   end).




(** The request that [get_coordinates] sends for a location. *)
Definition geo_request (E : env) (location : string) : request :=
  {| url := geo_url; params := geo_params E location |}.

(** [d.get(key)] as a value. *)
Definition get (members : list (string * json)) (key : string) : json :=
  match lookup key members with
  | Some x => x
  | None => JNull
  end.

(** The Location of a candidate of the geocoding response. *)
Definition location_of (candidate : list (string * json)) : json :=
  JObj [("name", get candidate "name"); ("latitude", get candidate "lat");
        ("longitude", get candidate "lon"); ("country", get candidate "country");
        ("state", get candidate "state")].

(** A status that [raise_for_status] lets through. *)
Definition status_passes (status : Z) : bool :=
  negb ((400 <=? status) && (status <? 600)).

(** The request is not answered with a decodable body: the connection
    fails, the peer never answers, the status is an error, or the body
    is not JSON. *)
Definition request_fails (b : net_behaviour) : Prop :=
  match b with
  | ConnectionFails | Stalls => True
  | Responds status body => status_passes status = false \/ body = None
  end.

(** An error message about [subject]: a printed line with the subject and
    the text of an exception. *)
Definition error_message (subject : json) (e : event) : Prop :=
  exists message x, e = Print message /\ In (Fmt subject) message /\ In (FmtExn x) message.

(** A forecast response, a JSON object, without a [list] or with an
    empty one. *)
Definition list_missing_or_empty (forecast_data : json) : Prop :=
  exists members,
    forecast_data = JObj members /\
    (lookup "list" members = None \/ lookup "list" members = Some (JArr [])).

Definition is_plot (e : event) : bool :=
  match e with
  | Plt (AxPlot _ _ _) => true
  | Plt (Bar _ _ _ _) => true
  | _ => false
  end.

Definition is_http (e : event) : bool :=
  match e with
  | HttpGet _ _ => true
  | _ => false
  end.

(** *** The artifacts of a batch *)

(** What a call adds to the list of its loop: its value when it returns a
    true one ([if city_info:], [if weather_data:]). *)
Definition appended (c : M json) : list json :=
  match result c with
  | Ret v => if truthy v then [v] else []
  | _ => []
  end.

Definition info_locations (E : env) (locations : list string) : list json :=
  flat_map (fun q => appended (Info.get_coordinates E q)) locations.

Definition info_records (E : env) (cities : list json) : list json :=
  flat_map (fun c => appended (Info.get_weather_data E c)) cities.

Definition forecast_locations (E : env) (locations : list string) : list json :=
  flat_map (fun q => appended (Forecast.get_coordinates E q)) locations.

Definition forecast_records (E : env) (cities : list json) : list json :=
  flat_map (fun c => appended (Forecast.get_weather_forecast E c)) cities.

Definition requests_of (t : list event) : list request :=
  flat_map (fun e => match e with HttpGet r _ => [r] | _ => [] end) t.

(** The request for the weather of a Location. *)
Definition weather_request (E : env) (u : string) (city_info : json) : request :=
  match city_info with
  | JObj members =>
      {| url := u;
         params := weather_params E (get members "latitude") (get members "longitude") |}
  | _ => {| url := u; params := [] |}
  end.

(** The wire contract of the geocoding service: a body that is served
    with a passing status and decodes is an array of objects. *)
Definition geocoding_contract (b : net_behaviour) : Prop :=
  match b with
  | Responds status (Some d) =>
      status_passes status = true -> exists candidates, d = JArr (map JObj candidates)
  | _ => True
  end.

Definition no_files : disk := fun _ => None.

(** The two artifacts on disk after a run, and the requests it sent. *)
Definition batch_artifacts (t : list event) (before : disk) (weather_file : string)
    (locations records : list json) (requests : list request) : Prop :=
  read_text COORDINATES_FILE (disk_after t before) = Some (dumps (JArr locations)) /\
  read_text weather_file (disk_after t before) = Some (dumps (JArr records)) /\
  requests_of t = requests.

(** The geocoding service keeps to its contract for the queries of a
    batch. *)
Definition info_batch_contract (E : env) (locations : list string) : Prop :=
  forall q, In q locations -> geocoding_contract (net E (geo_request E q)).

(** What the forecast script does for one Location: the retrieval and,
    when the forecast is a true value, its drawing at once. *)
Definition forecast_turn (E : env) (city_info : json) : list event :=
  (trace (Forecast.get_weather_forecast E city_info)
   ++ match result (Forecast.get_weather_forecast E city_info) with
      | Ret forecast_data =>
          if truthy forecast_data
          then match result (getitem city_info "name") with
               | Ret name => trace (Forecast.plot_forecast E forecast_data name)
               | _ => []
               end
          else []
      | _ => []
      end)%list.

(** *** The order of the effects of a batch *)

(** A schedule gives a stage to the events it orders; a trace follows it
    when the stages of its events never decrease. *)
Definition schedule : Type := event -> option nat.

Definition stages (sched : schedule) (t : list event) : list nat :=
  flat_map (fun e => match sched e with Some n => [n] | None => [] end) t.

Fixpoint nondecreasing_from (n : nat) (l : list nat) : bool :=
  match l with
  | [] => true
  | x :: r => (n <=? x)%nat && nondecreasing_from x r
  end.

Definition follows (sched : schedule) (t : list event) : bool :=
  nondecreasing_from 0 (stages sched t).

Definition is_coordinates_file (path : string) : bool :=
  (path =? COORDINATES_FILE)%string.

Definition is_geo (r : request) : bool := (url r =? geo_url)%string.

(** The order as stated: every request, then the Locations file, then
    the weather file, then the records handed to the chart. *)
Definition stated_schedule : schedule :=
  fun e =>
    match e with
    | HttpGet _ _ => Some 0%nat
    | WriteText p _ | WriteRefused p =>
        if is_coordinates_file p then Some 1%nat else Some 2%nat
    | Plt (AxPlot _ _ _) | Plt (Bar _ _ _ _) => Some 3%nat
    | _ => None
    end.

(** The order of [city_weather_info.py]: the geocoding requests, the
    Locations file, the weather requests, the weather file, the chart. *)
Definition info_schedule : schedule :=
  fun e =>
    match e with
    | HttpGet r _ => if is_geo r then Some 0%nat else Some 2%nat
    | WriteText p _ | WriteRefused p =>
        if is_coordinates_file p then Some 1%nat else Some 3%nat
    | Plt _ => Some 4%nat
    | _ => None
    end.

(** The order of [city_weather_forecast.py]: the geocoding requests, the
    Locations file, the forecast requests with the series of each
    forecast drawn as it arrives, the chart shown, the forecasts file. *)
Definition forecast_schedule : schedule :=
  fun e =>
    match e with
    | HttpGet r _ => if is_geo r then Some 0%nat else Some 2%nat
    | WriteText p _ | WriteRefused p =>
        if is_coordinates_file p then Some 1%nat else Some 4%nat
    | Plt Subplots | Plt (AxPlot _ _ _) => Some 2%nat
    | Plt _ => Some 3%nat
    | _ => None
    end.

(** *** Properties of a computation *)

(** The call returns a value. *)
Definition returns {A} (c : M A) : Prop := exists a, result c = Ret a.

(** Computations that cannot hang. *)
Definition returns_or_raises {A} (c : M A) : Prop := result c <> Hang.

(** Every event of the computation has the property. *)
Definition every (P : event -> Prop) {A} (c : M A) : Prop := Forall P (trace c).

(** The event is not ordered by the schedule, or is at stage [n]. *)
Definition staged (sched : schedule) (n : nat) (e : event) : Prop :=
  sched e = None \/ sched e = Some n.

Definition is_write (e : event) : bool :=
  match e with
  | WriteText _ _ => true
  | _ => false
  end.

(** What a call did, seen from the batch: the requests it sent, and that
    it wrote no file. *)
Definition sends {A} (c : M A) (rs : list request) : Prop :=
  requests_of (trace c) = rs /\ Forall (fun e => is_write e = false) (trace c).

(** The events of the chart between the retrieval loop and the write of
    the forecasts. *)
Definition chart_events : list event :=
  [Plt (AxSetTitle Forecast.TITLE 24); Plt (AxSetXLabel Forecast.X_LABEL 14);
   Plt (AxSetYLabel Forecast.Y_LABEL 14); Plt FigAutofmtXDate; Plt AxLegend;
   Plt Show].

(** *** The events of a batch *)

(** [t] is an initial part of [full]. *)
Definition begins (t full : list event) : Prop :=
  exists rest, full = (t ++ rest)%list.

(** The computation goes through [full]: what it does is an initial part
    of [full], and the whole of it when it returns. *)
Definition runs_through {A} (c : M A) (full : list event) : Prop :=
  begins (trace c) full /\ forall a, result c = Ret a -> trace c = full.

(** The events of a batch of [city_weather_info.py], statement by
    statement: the resolution of every query, the write of the Locations
    that were kept, the retrieval for every one of these Locations, the
    write of the records that were kept, the chart of these records. *)
Definition info_batch_events (E : env) (user_input : string) : list event :=
  let locations := info_locations E (user_locations user_input) in
  let records := info_records E locations in
  (flat_map (fun q => trace (Info.get_coordinates E q)) (user_locations user_input)
   ++ trace (save_json E (JArr locations) COORDINATES_FILE)
   ++ flat_map (fun c => trace (Info.get_weather_data E c)) locations
   ++ trace (save_json E (JArr records) Info.WEATHER_DATA_FILE)
   ++ trace (Info.plot_temperatures E records))%list.

(** The events of the batch of [city_weather_forecast.py]: the
    resolution of every query, the write of the Locations that were kept,
    the figure, the turn of every one of these Locations (its retrieval
    and, at once, its drawing), the rest of the chart, the write of the
    forecasts that were kept. *)
Definition forecast_batch_events (E : env) (user_input : string) : list event :=
  let locations := forecast_locations E (user_locations user_input) in
  let records := forecast_records E locations in
  (flat_map (fun q => trace (Forecast.get_coordinates E q)) (user_locations user_input)
   ++ trace (save_json E (JArr locations) COORDINATES_FILE)
   ++ [Plt Subplots]
   ++ flat_map (forecast_turn E) locations
   ++ chart_events
   ++ trace (save_json E (JArr records) Forecast.FORECAST_FILE))%list.

End Claims.

(** ** Example surroundings *)

Module Examples.
Import PyStr Py Json Runtime Common Claims.

Definition candidate (name country state lat lon : string) : json :=
  JObj [("name", JStr name); ("lat", JFloat lat); ("lon", JFloat lon);
        ("country", JStr country); ("state", JStr state)].

Definition springfield_illinois : json :=
  candidate "Springfield" "US" "Illinois" "39.7990175" "-89.6439575".
Definition springfield_missouri : json :=
  candidate "Springfield" "US" "Missouri" "37.2081729" "-93.2922715".

Definition quiet (answer : request -> net_behaviour) : env :=
  {| API_KEY := "0123456789abcdef";
     net := answer;
     legacy_json_error := false;
     write_fails := fun _ => false;
     write_cut := fun _ => None;
     strptime_ok := fun _ => true;
     plt_raises := fun _ => None |}.

(** The geocoding service answers with two candidates. *)
Definition env_two_candidates : env :=
  quiet (fun _ => Responds 200 (Some (JArr [springfield_illinois; springfield_missouri]))).

(** The services accept the connection and never answer. *)
Definition env_stalls : env := quiet (fun _ => Stalls).

(** London resolves and its weather is served, in both formats at once. *)
Definition london : json :=
  candidate "London" "GB" "England" "51.5073219" "-0.1276474".

Definition london_weather : json :=
  JObj [("name", JStr "London");
        ("main", JObj [("temp", JFloat "11.3"); ("temp_min", JFloat "9.8");
                       ("temp_max", JFloat "12.4")]);
        ("list", JArr [JObj [("dt_txt", JStr "2024-05-01 12:00:00");
                             ("main", JObj [("temp", JFloat "11.3")])]])].

Definition env_london : env :=
  quiet (fun r => if is_geo r then Responds 200 (Some (JArr [london]))
                  else Responds 200 (Some london_weather)).

Definition paris : json :=
  candidate "Paris" "FR" "Ile-de-France" "48.8588897" "2.3200410".

Definition paris_weather : json :=
  JObj [("name", JStr "Paris");
        ("main", JObj [("temp", JFloat "14.1"); ("temp_min", JFloat "12.9");
                       ("temp_max", JFloat "15.0")]);
        ("list", JArr [JObj [("dt_txt", JStr "2024-05-01 12:00:00");
                             ("main", JObj [("temp", JFloat "14.1")])]])].

Definition param (key : string) (r : request) : json := get (params r) key.

Definition is_text (s : string) (v : json) : bool :=
  match v with
  | JStr t => (t =? s)%string
  | JFloat t => (t =? s)%string
  | _ => false
  end.

(** London and Paris resolve, nothing else does; the weather of Paris is
    served, the weather of London is answered with status 503. *)
Definition env_london_fails : env :=
  quiet (fun r =>
           if is_geo r then
             if is_text "London" (param "q" r) then Responds 200 (Some (JArr [london]))
             else if is_text "Paris,FR" (param "q" r) then Responds 200 (Some (JArr [paris]))
             else Responds 200 (Some (JArr []))
           else if is_text "48.8588897" (param "lat" r)
                then Responds 200 (Some paris_weather)
                else Responds 503 None).

(** London resolves; its forecast is served as an empty object. *)
Definition env_empty_forecast : env :=
  quiet (fun r => if is_geo r then Responds 200 (Some (JArr [london]))
                  else Responds 200 (Some (JObj []))).

(** London resolves; its forecast is served without a [list]. *)
Definition forecast_without_list : json :=
  JObj [("cod", JStr "200"); ("message", JInt 0); ("cnt", JInt 0)].

Definition env_forecast_without_list : env :=
  quiet (fun r => if is_geo r then Responds 200 (Some (JArr [london]))
                  else Responds 200 (Some forecast_without_list)).

(** London and Paris resolve and their weather is served; any other
    query is answered with status 200 and an error object. *)
Definition error_body : json :=
  JObj [("cod", JInt 429); ("message", JStr "Too many requests")].

Definition env_two_cities : env :=
  quiet (fun r =>
           if is_geo r then
             if is_text "London" (param "q" r) then Responds 200 (Some (JArr [london]))
             else if is_text "Paris,FR" (param "q" r) then Responds 200 (Some (JArr [paris]))
             else Responds 200 (Some error_body)
           else if is_text "48.8588897" (param "lat" r)
                then Responds 200 (Some paris_weather)
                else Responds 200 (Some london_weather)).

(** London resolves; its forecast is served as the number 42. *)
Definition env_number_forecast : env :=
  quiet (fun r => if is_geo r then Responds 200 (Some (JArr [london]))
                  else Responds 200 (Some (JInt 42))).

(** London and Paris resolve; the weather of Paris is served, the request
    for the weather of London is never answered. *)
Definition env_silent_london : env :=
  quiet (fun r =>
           if is_geo r then
             if is_text "London" (param "q" r) then Responds 200 (Some (JArr [london]))
             else if is_text "Paris,FR" (param "q" r) then Responds 200 (Some (JArr [paris]))
             else Responds 200 (Some (JArr []))
           else if is_text "48.8588897" (param "lat" r)
                then Responds 200 (Some paris_weather)
                else Stalls).

(** A number, as matplotlib takes it. *)
Definition is_number (v : json) : bool :=
  match v with
  | JInt _ | JFloat _ | JBool _ => true
  | _ => false
  end.

(** The services of [env_london], with a chart that refuses a series
    that holds something else than numbers. *)
Definition env_strict_chart : env :=
  {| API_KEY := "0123456789abcdef";
     net := fun r => if is_geo r then Responds 200 (Some (JArr [london]))
                     else Responds 200 (Some london_weather);
     legacy_json_error := false;
     write_fails := fun _ => false;
     write_cut := fun _ => None;
     strptime_ok := fun _ => true;
     plt_raises := fun call =>
                     match call with
                     | Bar _ heights _ _ | AxPlot _ heights _ =>
                         if forallb is_number heights then None else Some TypeError
                     | _ => None
                     end |}.

Definition london_info : json :=
  JObj [("name", JStr "London"); ("latitude", JFloat "51.5073219");
        ("longitude", JFloat "-0.1276474"); ("country", JStr "GB");
        ("state", JStr "England")].

End Examples.

(** ** Vocabulary of the further properties *)

Module Behaviour.
Import PyStr Py Json Runtime Common Claims Examples.

Definition is_sleep (e : event) : bool :=
  match e with
  | Sleep _ => true
  | _ => false
  end.

Definition is_input (e : event) : bool :=
  match e with
  | Input _ => true
  | _ => false
  end.

Definition not_a_dict (v : json) : bool :=
  match v with
  | JObj _ => false
  | _ => true
  end.

(** *** The lines that [get_coordinates] prints *)

(** [print(f"Fetching coordinates for {city}, {country_code or ''}...")] *)
Definition info_announcement (location : string) : event :=
  let (city, country_code) := parse_location location in
  Print [Lit "Fetching coordinates for "; Fmt (JStr city); Lit ", ";
         Fmt (JStr (or_empty country_code)); Lit "..."].

(** [print(f"No results found for {city}, {country_code or ''}")] *)
Definition info_no_results (location : string) : event :=
  let (city, country_code) := parse_location location in
  Print [Lit "No results found for "; Fmt (JStr city); Lit ", ";
         Fmt (JStr (or_empty country_code))].

(** [print(f"Fetching coordinates for {city},"
          f"{country_code if country_code else ''}...")] *)
Definition forecast_announcement (location : string) : event :=
  let (city, country_code) := parse_location location in
  Print [Lit "Fetching coordinates for "; Fmt (JStr city); Lit ",";
         Fmt (Forecast.if_country country_code (JStr EmptyString)); Lit "..."].

(** [print(f"Name: {city}\tCountry: "
          f"{country_code if country_code else None}\tStatus Code: "
          f"{geo_response.status_code}")] *)
Definition forecast_status_line (location : string) (status : Z) : event :=
  let (city, country_code) := parse_location location in
  Print [Lit "Name: "; Fmt (JStr city); Lit (String tab "Country: ");
         Fmt (Forecast.if_country country_code JNull);
         Lit (String tab "Status Code: "); Fmt (JInt status)].

(** [print(f"No coordinates found for {city}, "
          f"{country_code if country_code else ''}")] *)
Definition forecast_no_results (location : string) : event :=
  let (city, country_code) := parse_location location in
  Print [Lit "No coordinates found for "; Fmt (JStr city); Lit ", ";
         Fmt (Forecast.if_country country_code (JStr EmptyString))].

(** [print(f"Error writing to {filename}: {e}")] *)
Definition write_error (filename : string) : event :=
  Print [Lit "Error writing to "; Fmt (JStr filename); Lit ": "; FmtExn OSError].

(** *** The rows of the charts *)

(** What [plot_temperatures] reads of a snapshot: [city['name']] and the
    three temperatures under [city['main']]. *)
Record snapshot_row : Type := {
  row_name : json;
  row_temp : json;
  row_temp_min : json;
  row_temp_max : json
}.

Definition snapshot_has (city : json) (row : snapshot_row) : Prop :=
  exists members main,
    city = JObj members /\
    lookup "name" members = Some (row_name row) /\
    lookup "main" members = Some (JObj main) /\
    lookup "temp" main = Some (row_temp row) /\
    lookup "temp_min" main = Some (row_temp_min row) /\
    lookup "temp_max" main = Some (row_temp_max row).

(** The calls of [plot_temperatures] once the four lists are built. *)
Definition bar_chart (names temps min_temps max_temps : list json) : list plot_call :=
  [StyleUse "dark_background";
   Bar 0 temps "violet" "Current Temperature";
   Bar 1 min_temps "red" "Minimum Temperature";
   Bar 2 max_temps "blue" "Maximum Temperature";
   PltTitle Info.TITLE;
   PltXLabel Info.X_LABEL;
   PltYLabel Info.Y_LABEL;
   XTicks names 45 "right";
   PltLegend;
   TightLayout;
   Show].

(** [c] makes the drawing calls [calls] in order up to the first one that
    raises, and ends with its exception; it returns when none raises. *)
Definition draws (E : env) (c : M unit) (calls : list plot_call) : Prop :=
  (Forall (fun call => plt_raises E call = None) calls /\
   c = (Ret tt, map Plt calls)) \/
  (exists done call rest e,
      calls = (done ++ call :: rest)%list /\
      Forall (fun call' => plt_raises E call' = None) done /\
      plt_raises E call = Some e /\
      c = (Raise e, map Plt (done ++ [call]))).

(** How a drawing call ends. *)
Definition drawn (E : env) (call : plot_call) : outcome unit :=
  match plt_raises E call with
  | Some e => Raise e
  | None => Ret tt
  end.

(** The two lines of [plot_forecast]. *)
Definition plotting_line (city_name : json) : event :=
  Print [Lit "Plotting forecast for "; Fmt city_name].

Definition no_forecast_line (city_name : json) : event :=
  Print [Lit "No forecast data available for "; Fmt city_name; Lit "."].

(** What [plot_forecast] reads of an entry of the [list]: the timestamp
    [item['dt_txt']], which [strptime] accepts, and [item['main']['temp']]. *)
Definition entry_has (E : env) (item : json) (row : string * json) : Prop :=
  exists members main,
    item = JObj members /\
    lookup "dt_txt" members = Some (JStr (fst row)) /\
    strptime_ok E (fst row) = true /\
    lookup "main" members = Some (JObj main) /\
    lookup "temp" main = Some (snd row).

(** The exceptions of a subscript on a value of the wrong shape or
    without the key, and those of [plot_forecast], where [strptime] adds
    [ValueError]. *)
Definition lookup_error (e : exn) : bool :=
  match e with
  | KeyError | TypeError => true
  | _ => false
  end.

Definition forecast_error (e : exn) : bool :=
  match e with
  | KeyError | TypeError | ValueError => true
  | _ => false
  end.

(** The call raises one of the exceptions and has done nothing before. *)
Definition fails_at_once {A} (allowed : exn -> bool) (c : M A) : Prop :=
  exists e, c = (Raise e, []) /\ allowed e = true.

(** The call does nothing but compute a value, or fails at once. *)
Definition computes {A} (allowed : exn -> bool) (c : M A) : Prop :=
  (exists a, c = (Ret a, [])) \/ fails_at_once allowed c.

(** *** The session *)

(** [n] empty lines typed at the prompt. *)
Definition blank_lines (n : nat) : list string := repeat EmptyString n.

(** What the snapshot script does with an empty line. *)
Definition info_blank_turn : list event :=
  [Input Info.PROMPT; Print [Lit "Enter a valid city and/or country"]].

Definition forecast_blank_turn : list event :=
  [Input Forecast.PROMPT; Print [Lit "Please enter a valid city and/or country code."]].

Definition turns (turn : list event) (n : nat) : list event :=
  concat (repeat turn n).

(** *** What a session may do *)

(** The events of the snapshot script: a request goes to one of its two
    endpoints with the key and the timeout, a write goes to one of its two
    files, a sleep lasts one second. *)
Definition info_event (E : env) (e : event) : Prop :=
  match e with
  | HttpGet r timeout =>
      timeout = Some 10 /\
      (url r = geo_url \/ url r = Info.weather_url) /\
      lookup "appid" (params r) = Some (JStr (API_KEY E))
  | WriteText path _ | WriteRefused path =>
      path = COORDINATES_FILE \/ path = Info.WEATHER_DATA_FILE
  | Sleep seconds => seconds = 1
  | Input prompt => prompt = Info.PROMPT
  | _ => True
  end.

(** The events of the forecast script: no request has a timeout. *)
Definition forecast_event (E : env) (e : event) : Prop :=
  match e with
  | HttpGet r timeout =>
      timeout = None /\
      (url r = geo_url \/ url r = Forecast.forecast_url) /\
      lookup "appid" (params r) = Some (JStr (API_KEY E))
  | WriteText path _ | WriteRefused path =>
      path = COORDINATES_FILE \/ path = Forecast.FORECAST_FILE
  | Sleep seconds => seconds = 1
  | Input prompt => prompt = Forecast.PROMPT
  | _ => True
  end.

(** Reading a trace with the rate limit in mind. [pending] says that a
    request has been sent and that no sleep has followed it yet; a request
    sent while another one is pending breaks the limit, and the reading
    stops with [None]. Otherwise the reading ends with the last value of
    [pending]. *)
Fixpoint paced (pending : bool) (t : list event) : option bool :=
  match t with
  | [] => Some pending
  | HttpGet _ _ :: r => if pending then None else paced true r
  | Sleep _ :: r => paced false r
  | _ :: r => paced pending r
  end.

(** No request of the computation follows another one without a sleep in
    between, and a sleep follows its last request. *)
Definition settled {A} (c : M A) : Prop := paced false (trace c) = Some false.

(** *** Text *)

Definition count_char (c : ascii) (s : string) : nat :=
  List.length (filter (Ascii.eqb c) (list_ascii_of_string s)).

(** The characters that [json.dumps] emits with [ensure_ascii]: the
    printable ASCII characters and the new line of the indentation. *)
Definition is_plain (c : ascii) : bool := in_range 32 126 c || Ascii.eqb c newline.

(** A value whose floats are written with such characters, as the [repr]
    of every float is. *)
Fixpoint plain_floats (v : json) : bool :=
  match v with
  | JFloat l => all_chars is_plain l
  | JArr xs => forallb plain_floats xs
  | JObj kvs => forallb (fun kv => plain_floats (snd kv)) kvs
  | _ => true
  end.

(** *** Example surroundings *)

(** The geocoding service answers every query with an error object and
    status 200. *)
Definition error_object : json := error_body.

Definition env_error_object : env :=
  quiet (fun _ => Responds 200 (Some error_object)).

(** The same surroundings with other files: [fails] says which writes
    fail and [cut] what they leave. *)
Definition with_files (E : env) (fails : string -> bool)
    (cut : string -> option nat) : env :=
  {| API_KEY := API_KEY E;
     net := net E;
     legacy_json_error := legacy_json_error E;
     write_fails := fails;
     write_cut := cut;
     strptime_ok := strptime_ok E;
     plt_raises := plt_raises E |}.

(** The requests and the drawing calls of a run. *)
Definition is_request_or_drawing (e : event) : bool :=
  match e with
  | HttpGet _ _ | Plt _ => true
  | _ => false
  end.

(** Nothing can be written. *)
Definition read_only (E : env) : env :=
  {| API_KEY := API_KEY E;
     net := net E;
     legacy_json_error := legacy_json_error E;
     write_fails := fun _ => true;
     write_cut := write_cut E;
     strptime_ok := strptime_ok E;
     plt_raises := plt_raises E |}.

End Behaviour.

(* ===================================================================== *)
(** * Part II. Properties                                                 *)
(* ===================================================================== *)

Import PyStr Py Json Runtime Common Claims Examples Behaviour.
Local Open Scope py_scope.

(** ** Outcomes and traces of composed computations *)

Lemma result_bind_ret {A B} (c : M A) (k : A -> M B) a :
  result c = Ret a -> result (bind c k) = result (k a).
Proof. unfold result, bind. intros ->. reflexivity. Qed.

Lemma trace_bind_ret {A B} (c : M A) (k : A -> M B) a :
  result c = Ret a -> trace (bind c k) = (trace c ++ trace (k a))%list.
Proof. unfold result, trace, bind. intros ->. reflexivity. Qed.

Lemma bind_emit {B} e (k : unit -> M B) :
  bind (emit e) k = (result (k tt), e :: trace (k tt)).
Proof. reflexivity. Qed.

Lemma trace_bind_prefix {A B} (c : M A) (k : A -> M B) :
  exists t, trace (bind c k) = (trace c ++ t)%list.
Proof.
  unfold trace, bind. destruct c as [[a | e | ] t]; simpl.
  - eexists; reflexivity.
  - exists []. now rewrite app_nil_r.
  - exists []. now rewrite app_nil_r.
Qed.

Lemma trace_try_except_prefix {A} (body : M A) handler :
  exists t, trace (try_except body handler) = (trace body ++ t)%list.
Proof.
  unfold trace, try_except. destruct body as [[a | e | ] t]; simpl.
  - exists []. now rewrite app_nil_r.
  - destruct (handler e); simpl.
    + eexists; reflexivity.
    + exists []. now rewrite app_nil_r.
  - exists []. now rewrite app_nil_r.
Qed.

(** A [finally] clause that only emits an event: the event ends the trace
    whenever the body returns or raises, and the outcome is the body's. *)
Lemma try_finally_emit {A} (body : M A) e :
  result body <> Hang ->
  try_finally body (emit e) = (result body, (trace body ++ [e])%list).
Proof.
  unfold try_finally, result, trace.
  destruct body as [[a | x | ] t]; simpl; intros H; try reflexivity.
  contradiction.
Qed.

Lemma try_finally_hang {A} (body : M A) final :
  result body = Hang -> try_finally body final = body.
Proof. unfold try_finally, result. intros ->. reflexivity. Qed.

Lemma no_hang_ret {A} (a : A) : returns_or_raises (ret a).
Proof. discriminate. Qed.

Lemma no_hang_raise {A} e : returns_or_raises (@raise A e).
Proof. discriminate. Qed.

Lemma no_hang_emit e : returns_or_raises (emit e).
Proof. discriminate. Qed.

Lemma no_hang_bind {A B} (c : M A) (k : A -> M B) :
  returns_or_raises c -> (forall a, returns_or_raises (k a)) ->
  returns_or_raises (bind c k).
Proof.
  unfold returns_or_raises, result, bind.
  destruct c as [[a | e | ] t]; simpl; intros Hc Hk; auto. discriminate.
Qed.

Lemma no_hang_try_except {A} (body : M A) handler :
  returns_or_raises body ->
  (forall e h, handler e = Some h -> returns_or_raises h) ->
  returns_or_raises (try_except body handler).
Proof.
  unfold returns_or_raises, result, try_except.
  destruct body as [[a | e | ] t]; simpl; intros Hb Hh; auto.
  destruct (handler e) eqn:He; simpl; auto. exact (Hh e m He).
Qed.

Lemma no_hang_try_finally {A} (body : M A) final :
  returns_or_raises body -> returns_or_raises final ->
  returns_or_raises (try_finally body final).
Proof.
  unfold returns_or_raises, result, try_finally.
  destruct body as [[a | e | ] t], final as [[[] | e' | ] t'];
    simpl; intros; auto; discriminate.
Qed.

Lemma no_hang_for_each {A S} (xs : list A) (body : A -> S -> M S) s :
  (forall x s', returns_or_raises (body x s')) ->
  returns_or_raises (for_each xs body s).
Proof.
  intros Hb. revert s. induction xs as [| x r IH]; intros s; simpl.
  - apply no_hang_ret.
  - apply no_hang_bind; auto.
Qed.

Lemma no_hang_comprehension {A B} (f : A -> M B) xs :
  (forall x, returns_or_raises (f x)) -> returns_or_raises (comprehension f xs).
Proof.
  intros Hf. induction xs as [| x r IH]; simpl.
  - apply no_hang_ret.
  - apply no_hang_bind; auto. intros y. apply no_hang_bind; auto.
    intros ys. apply no_hang_ret.
Qed.

Lemma no_hang_requests_get_timeout E u ps t :
  returns_or_raises (requests_get E u ps (Some t)).
Proof.
  unfold returns_or_raises, requests_get, result, bind; simpl.
  destruct (net E _); simpl; discriminate.
Qed.

Lemma no_hang_raise_for_status r : returns_or_raises (raise_for_status r).
Proof. unfold raise_for_status. destruct (_ && _); discriminate. Qed.

Lemma no_hang_response_json E r : returns_or_raises (response_json E r).
Proof. unfold response_json. destruct (payload r); discriminate. Qed.

Lemma no_hang_getitem v k : returns_or_raises (getitem v k).
Proof.
  unfold getitem. destruct v; try discriminate. destruct (lookup k members); discriminate.
Qed.

Lemma no_hang_getitem0 v : returns_or_raises (getitem0 v).
Proof. destruct v as [ | | | | [] | [] | ]; discriminate. Qed.

Lemma no_hang_get_method v k : returns_or_raises (get_method v k).
Proof.
  unfold get_method. destruct v; try discriminate. destruct (lookup k members); discriminate.
Qed.

Lemma no_hang_iterate v : returns_or_raises (iterate v).
Proof. destruct v; discriminate. Qed.

Lemma no_hang_contains_key k v : returns_or_raises (contains_key k v).
Proof. destruct v; discriminate. Qed.

Lemma no_hang_strptime E d : returns_or_raises (strptime E d).
Proof. unfold strptime. destruct d; try discriminate. destruct (strptime_ok E s); discriminate. Qed.

Lemma no_hang_write_text E p t : returns_or_raises (write_text E p t).
Proof.
  unfold write_text. destruct (write_fails E p); [destruct (write_cut E p) |];
    discriminate.
Qed.

Lemma no_hang_plt E call : returns_or_raises (plt E call).
Proof. unfold plt. destruct (plt_raises E call); discriminate. Qed.

Create HintDb no_hang.
#[global] Hint Resolve no_hang_ret no_hang_raise no_hang_emit no_hang_bind
  no_hang_try_except no_hang_try_finally no_hang_for_each no_hang_comprehension
  no_hang_requests_get_timeout no_hang_raise_for_status no_hang_response_json
  no_hang_getitem no_hang_getitem0 no_hang_get_method no_hang_iterate
  no_hang_contains_key no_hang_strptime no_hang_write_text no_hang_plt : no_hang.

(** Handlers given by a chain of tests on the exception. *)
Ltac no_hang_handler :=
  let e := fresh "e" in
  let h := fresh "h" in
  let H := fresh "H" in
  intros e h H;
  repeat match type of H with
         | (if ?b then _ else _) = Some _ => destruct b
         end;
  try discriminate; injection H as <-.

Ltac no_hang :=
  unfold print, sleep;
  repeat first
    [ apply no_hang_bind; [ | intro ]
    | apply no_hang_try_finally
    | apply no_hang_try_except; [ | no_hang_handler ]
    | match goal with
      | |- returns_or_raises (if ?b then _ else _) => destruct b
      | |- returns_or_raises (match ?x with _ => _ end) => destruct x
      end
    | solve [ auto with no_hang ] ].

Lemma no_hang_extract_info v : returns_or_raises (extract_info v).
Proof. unfold extract_info. no_hang. Qed.

Lemma no_hang_info_get_coordinates E location :
  returns_or_raises (Info.get_coordinates E location).
Proof.
  unfold Info.get_coordinates. destruct (parse_location location) as [city cc].
  pose proof no_hang_extract_info. no_hang.
Qed.

(** ** Membership in the trace of a composed computation *)

Lemma in_trace_bind_l {A B} (c : M A) (k : A -> M B) x :
  In x (trace c) -> In x (trace (bind c k)).
Proof.
  intros H. destruct (trace_bind_prefix c k) as [t ->].
  apply in_or_app; now left.
Qed.

Lemma in_trace_bind_r {A B} (c : M A) (k : A -> M B) a x :
  result c = Ret a -> In x (trace (k a)) -> In x (trace (bind c k)).
Proof.
  intros Hc H. rewrite (trace_bind_ret c k a Hc). apply in_or_app; now right.
Qed.

Lemma in_trace_try_except {A} (body : M A) handler x :
  In x (trace body) -> In x (trace (try_except body handler)).
Proof.
  intros H. destruct (trace_try_except_prefix body handler) as [t ->].
  apply in_or_app; now left.
Qed.

Lemma in_trace_try_finally {A} (body : M A) final x :
  In x (trace body) -> In x (trace (try_finally body final)).
Proof.
  unfold trace, try_finally.
  destruct body as [[a | e | ] t], final as [[[] | e' | ] t']; simpl; intros H;
    auto; apply in_or_app; now left.
Qed.

Lemma trace_requests_get E u ps timeout :
  trace (requests_get E u ps timeout)
  = [HttpGet {| url := u; params := ps |} timeout].
Proof.
  unfold requests_get. rewrite bind_emit.
  destruct (net E _) as [ | | status body]; try reflexivity.
  destruct timeout; reflexivity.
Qed.

(** ** The resolver *)

(** The two variants of [get_coordinates] have the same shape: a message,
    then the guarded request, then the delay of the [finally] clause. *)
Lemma info_get_coordinates_trace E location :
  exists t,
    trace (Info.get_coordinates E location)
    = (t ++ [Sleep Info.RATE_LIMIT_DELAY])%list /\
    In (HttpGet (geo_request E location) (Some Info.REQUEST_TIMEOUT)) t.
Proof.
  pose proof (no_hang_info_get_coordinates E location) as Hret.
  unfold returns_or_raises in Hret. revert Hret.
  unfold Info.get_coordinates. destruct (parse_location location) as [city cc].
  unfold print at 1, sleep. rewrite bind_emit.
  match goal with
  | |- context [try_finally ?b _] => set (body := b)
  end.
  intros Hret. unfold result at 1 in Hret. simpl fst in Hret.
  assert (Hb : result body <> Hang).
  { intros Hh. apply Hret. now rewrite (try_finally_hang body _ Hh). }
  rewrite (try_finally_emit body _ Hb). unfold trace at 1. simpl snd.
  eexists (_ :: trace body). split; [reflexivity |].
  right. unfold body. apply in_trace_try_except, in_trace_bind_l.
  rewrite trace_requests_get. now left.
Qed.

Lemma forecast_get_coordinates_trace E location :
  returns_or_raises (Forecast.get_coordinates E location) ->
  exists t,
    trace (Forecast.get_coordinates E location) = (t ++ [Sleep 1])%list /\
    In (HttpGet (geo_request E location) None) t.
Proof.
  unfold returns_or_raises.
  unfold Forecast.get_coordinates. destruct (parse_location location) as [city cc].
  unfold print at 1, sleep. rewrite bind_emit.
  match goal with
  | |- context [try_finally ?b _] => set (body := b)
  end.
  intros Hret. unfold result at 1 in Hret. simpl fst in Hret.
  assert (Hb : result body <> Hang).
  { intros Hh. apply Hret. now rewrite (try_finally_hang body _ Hh). }
  rewrite (try_finally_emit body _ Hb). unfold trace at 1. simpl snd.
  eexists (_ :: trace body). split; [reflexivity |].
  right. unfold body. apply in_trace_try_except, in_trace_bind_l.
  rewrite trace_requests_get. now left.
Qed.

(** C3. Every call of [get_coordinates] that hands control back to its
    caller, by returning a Location, by returning [None] after an empty
    result, a transport error or a decode error, or by raising, has sent
    its request and then slept for the rate-limit delay as its last
    action.  The snapshot script always hands control back; the forecast
    script does so whenever the request is answered or fails. *)
Theorem rate_limit_delay_runs_on_every_path (E : env) (location : string) :
  (returns_or_raises (Info.get_coordinates E location) /\
   exists t,
     trace (Info.get_coordinates E location)
     = (t ++ [Sleep Info.RATE_LIMIT_DELAY])%list /\
     In (HttpGet (geo_request E location) (Some Info.REQUEST_TIMEOUT)) t)
  /\
  (returns_or_raises (Forecast.get_coordinates E location) ->
   exists t,
     trace (Forecast.get_coordinates E location) = (t ++ [Sleep 1])%list /\
     In (HttpGet (geo_request E location) None) t).
Proof.
  split; [split |].
  - apply no_hang_info_get_coordinates.
  - apply info_get_coordinates_trace.
  - apply forecast_get_coordinates_trace.
Qed.

Lemma rate_limit_delay_witness :
  exists t,
    trace (Forecast.get_coordinates env_two_candidates "Springfield")
    = (t ++ [Sleep 1])%list /\
    In (HttpGet (geo_request env_two_candidates "Springfield") None) t.
Proof.
  apply (proj2 (rate_limit_delay_runs_on_every_path env_two_candidates "Springfield")).
  unfold returns_or_raises. vm_compute. discriminate.
Defined.

(** The four endings the resolver distinguishes, each closed by the delay. *)
Example delay_after_success :
  Info.get_coordinates env_two_candidates "springfield"
  = (Ret (location_of [("name", JStr "Springfield"); ("lat", JFloat "39.7990175");
                       ("lon", JFloat "-89.6439575"); ("country", JStr "US");
                       ("state", JStr "Illinois")]),
     [Print [Lit "Fetching coordinates for "; Fmt (JStr "Springfield"); Lit ", ";
             Fmt (JStr EmptyString); Lit "..."];
      HttpGet (geo_request env_two_candidates "springfield") (Some 10);
      Sleep 1]).
Proof. reflexivity. Qed.

Example delay_after_empty_result :
  Info.get_coordinates (quiet (fun _ => Responds 200 (Some (JArr [])))) "Nowhereville"
  = (Ret JNull,
     [Print [Lit "Fetching coordinates for "; Fmt (JStr "Nowhereville"); Lit ", ";
             Fmt (JStr EmptyString); Lit "..."];
      HttpGet (geo_request (quiet (fun _ => Responds 200 (Some (JArr [])))) "Nowhereville")
              (Some 10);
      Print [Lit "No results found for "; Fmt (JStr "Nowhereville"); Lit ", ";
             Fmt (JStr EmptyString)];
      Sleep 1]).
Proof. reflexivity. Qed.

Example delay_after_transport_error :
  Info.get_coordinates (quiet (fun _ => Responds 503 None)) "Oslo,no"
  = (Ret JNull,
     [Print [Lit "Fetching coordinates for "; Fmt (JStr "Oslo"); Lit ", ";
             Fmt (JStr "NO"); Lit "..."];
      HttpGet (geo_request (quiet (fun _ => Responds 503 None)) "Oslo,no") (Some 10);
      Print [Lit "Error fetching coordinates for "; Fmt (JStr "Oslo"); Lit ", ";
             Fmt (JStr "NO"); Lit ": "; FmtExn (HTTPError 503)];
      Sleep 1]).
Proof. reflexivity. Qed.

Example delay_after_decode_error :
  Forecast.get_coordinates (quiet (fun _ => Responds 200 None)) "Oslo"
  = (Ret JNull,
     [Print [Lit "Fetching coordinates for "; Fmt (JStr "Oslo"); Lit ",";
             Fmt (JStr EmptyString); Lit "..."];
      HttpGet (geo_request (quiet (fun _ => Responds 200 None)) "Oslo") None;
      Print [Lit "Error fetching coordinates for "; Fmt (JStr "Oslo"); Lit ", ";
             Fmt (JStr EmptyString); Lit ": "; FmtExn RequestsJSONDecodeError];
      Sleep 1]).
Proof. reflexivity. Qed.

Example delay_after_uncaught_exception :
  Info.get_coordinates (quiet (fun _ => Responds 200 (Some (JObj [("cod", JInt 200)])))) "Oslo"
  = (Raise KeyError,
     [Print [Lit "Fetching coordinates for "; Fmt (JStr "Oslo"); Lit ", ";
             Fmt (JStr EmptyString); Lit "..."];
      HttpGet (geo_request (quiet (fun _ => Responds 200 (Some (JObj [("cod", JInt 200)])))) "Oslo")
              (Some 10);
      Sleep 1]).
Proof. reflexivity. Qed.

(** *** Which candidate becomes the Location *)

Lemma extract_info_object members :
  extract_info (JObj members) = (Ret (location_of members), []).
Proof.
  unfold extract_info, location_of, get, get_method.
  destruct (lookup "name" members), (lookup "lat" members),
    (lookup "lon" members), (lookup "country" members),
    (lookup "state" members); reflexivity.
Qed.

Lemma raise_for_status_passes r :
  status_passes (status_code r) = true -> raise_for_status r = (Ret tt, []).
Proof.
  unfold status_passes, raise_for_status. destruct (_ && _); [discriminate | reflexivity].
Qed.

(** The snapshot script maps the first element of a non-empty array. *)
Lemma info_get_coordinates_first_candidate E location status first rest :
  net E (geo_request E location)
  = Responds status (Some (JArr (JObj first :: rest))) ->
  status_passes status = true ->
  result (Info.get_coordinates E location) = Ret (location_of first).
Proof.
  intros Hnet Hst. unfold Info.get_coordinates.
  destruct (parse_location location) as [city cc].
  unfold requests_get. fold (geo_request E location). rewrite Hnet.
  unfold print, sleep. cbn.
  rewrite (raise_for_status_passes {| status_code := status; payload := _ |} Hst).
  cbn. rewrite extract_info_object. reflexivity.
Qed.

Lemma info_first_candidate_witness :
  result (Info.get_coordinates env_two_candidates "Springfield")
  = Ret (location_of [("name", JStr "Springfield"); ("lat", JFloat "39.7990175");
                      ("lon", JFloat "-89.6439575"); ("country", JStr "US");
                      ("state", JStr "Illinois")]).
Proof.
  apply (info_get_coordinates_first_candidate env_two_candidates "Springfield" 200
           _ [springfield_missouri]); reflexivity.
Defined.

(** The loop of the forecast script maps every element and keeps the
    mapping of the last one. *)
Lemma extract_loop_last candidates last acc :
  for_each (map JObj (candidates ++ [last]))
    (fun city_data _ => extract_info city_data) acc
  = (Ret (location_of last), []).
Proof.
  revert acc. induction candidates as [| c r IH]; intros acc; simpl.
  - rewrite extract_info_object. reflexivity.
  - rewrite extract_info_object. unfold bind. cbn [fst snd app].
    fold (for_each (map JObj (r ++ [last]))
            (fun city_data _ => extract_info city_data) (location_of c)).
    rewrite IH. reflexivity.
Qed.

Lemma forecast_get_coordinates_last_candidate E location status candidates last :
  net E (geo_request E location)
  = Responds status (Some (JArr (map JObj (candidates ++ [last])))) ->
  status_passes status = true ->
  result (Forecast.get_coordinates E location) = Ret (location_of last).
Proof.
  intros Hnet Hst. unfold Forecast.get_coordinates.
  destruct (parse_location location) as [city cc].
  unfold requests_get. fold (geo_request E location). rewrite Hnet.
  assert (Ht : truthy (JArr (map JObj (candidates ++ [last]))) = true).
  { destruct candidates; reflexivity. }
  unfold print, sleep. cbn -[truthy].
  rewrite (raise_for_status_passes {| status_code := status; payload := _ |} Hst).
  cbn -[truthy]. rewrite Ht. cbn.
  unfold Forecast.extract_loop. rewrite extract_loop_last. reflexivity.
Qed.

Lemma forecast_last_candidate_witness :
  result (Forecast.get_coordinates env_two_candidates "Springfield")
  = Ret (location_of [("name", JStr "Springfield"); ("lat", JFloat "37.2081729");
                      ("lon", JFloat "-93.2922715"); ("country", JStr "US");
                      ("state", JStr "Missouri")]).
Proof.
  apply (forecast_get_coordinates_last_candidate env_two_candidates "Springfield" 200
           [[("name", JStr "Springfield"); ("lat", JFloat "39.7990175");
             ("lon", JFloat "-89.6439575"); ("country", JStr "US");
             ("state", JStr "Illinois")]]); reflexivity.
Defined.

(** C2. On a geocoding response with two candidates the snapshot script
    returns the Location of the first one, with the fields of the
    candidate, and the forecast script, whose loop is commented "Assume
    first result is best", returns the Location of the second one. *)
Theorem forecast_get_coordinates_returns_last_candidate :
  result (Info.get_coordinates env_two_candidates "Springfield")
  = Ret (JObj [("name", JStr "Springfield"); ("latitude", JFloat "39.7990175");
               ("longitude", JFloat "-89.6439575"); ("country", JStr "US");
               ("state", JStr "Illinois")])
  /\
  result (Forecast.get_coordinates env_two_candidates "Springfield")
  = Ret (JObj [("name", JStr "Springfield"); ("latitude", JFloat "37.2081729");
               ("longitude", JFloat "-93.2922715"); ("country", JStr "US");
               ("state", JStr "Missouri")]).
Proof. split; reflexivity. Qed.

(** A field that the candidate does not have is [None] in the Location. *)
Example absent_state_is_none :
  result (Info.get_coordinates
            (quiet (fun _ => Responds 200
                      (Some (JArr [JObj [("name", JStr "Abuja"); ("lat", JFloat "9.0643305");
                                         ("lon", JFloat "7.4892974"); ("country", JStr "NG")]]))))
            "abuja")
  = Ret (JObj [("name", JStr "Abuja"); ("latitude", JFloat "9.0643305");
               ("longitude", JFloat "7.4892974"); ("country", JStr "NG");
               ("state", JNull)]).
Proof. reflexivity. Qed.

(** ** Requests that are never answered *)

(** C4. When the service accepts the connection and never answers, the
    calls of the forecast script, which pass no timeout to
    [requests.get], never return: no absent result, no message.  The
    calls of the snapshot script, which pass [REQUEST_TIMEOUT], return
    [None] after a message that names the city. *)
Theorem forecast_requests_have_no_timeout :
  Forecast.get_weather_forecast env_stalls london_info
  = (Hang,
     [Print [Lit "Fetching weather forecast for "; Fmt (JStr "London")];
      HttpGet {| url := Forecast.forecast_url;
                 params := weather_params env_stalls (JFloat "51.5073219")
                             (JFloat "-0.1276474") |} None])
  /\
  Forecast.get_coordinates env_stalls "London"
  = (Hang,
     [Print [Lit "Fetching coordinates for "; Fmt (JStr "London"); Lit ",";
             Fmt (JStr EmptyString); Lit "..."];
      HttpGet (geo_request env_stalls "London") None])
  /\
  Info.get_weather_data env_stalls london_info
  = (Ret JNull,
     [Print [Lit "Fetching weather data for "; Fmt (JStr "London"); Lit "..."];
      HttpGet {| url := Info.weather_url;
                 params := weather_params env_stalls (JFloat "51.5073219")
                             (JFloat "-0.1276474") |} (Some 10);
      Print [Lit "Error fetching weather data for "; Fmt (JStr "London"); Lit ": ";
             FmtExn Timeout];
      Sleep 1]).
Proof. repeat split; reflexivity. Qed.

(** ** Blank input *)

Lemma user_locations_blank : user_locations "   " = [EmptyString].
Proof. reflexivity. Qed.

Lemma info_resolve_step_sends_request E location acc :
  In (HttpGet (geo_request E location) (Some Info.REQUEST_TIMEOUT))
     (trace (Info.resolve_step E location acc)).
Proof.
  unfold Info.resolve_step. apply in_trace_bind_l.
  destruct (info_get_coordinates_trace E location) as [t [-> Hin]].
  apply in_or_app; now left.
Qed.

Lemma forecast_get_coordinates_sends_request E location :
  In (HttpGet (geo_request E location) None)
     (trace (Forecast.get_coordinates E location)).
Proof.
  unfold Forecast.get_coordinates. destruct (parse_location location) as [city cc].
  unfold print at 1. rewrite bind_emit. unfold trace at 1. simpl snd. right.
  apply in_trace_try_finally, in_trace_try_except, in_trace_bind_l.
  rewrite trace_requests_get. now left.
Qed.

(** C6. The input of three blanks passes the test [if not user_input] of
    both scripts: the batch is started and a geocoding request with an
    empty query text is sent. *)
Theorem blank_input_reaches_the_network (E : env) (rest : list string) :
  In (HttpGet (geo_request E EmptyString) (Some Info.REQUEST_TIMEOUT))
     (trace (Info.main E ("   " :: rest)))
  /\
  In (HttpGet (geo_request E EmptyString) None)
     (trace (Forecast.main E ("   " :: rest))).
Proof.
  split.
  - change (Info.main E ("   " :: rest))
      with (emit (Input Info.PROMPT) ;; Info.process_batch E "   " ;; Info.main E rest).
    rewrite bind_emit. unfold trace at 1. simpl snd. right.
    apply in_trace_bind_l. unfold Info.process_batch.
    apply in_trace_bind_l. rewrite user_locations_blank. simpl for_each.
    apply in_trace_bind_l. apply info_resolve_step_sends_request.
  - change (Forecast.main E ("   " :: rest))
      with (emit (Input Forecast.PROMPT) ;; Forecast.process_batch E [] [] "   ").
    rewrite bind_emit. unfold trace at 1. simpl snd. right.
    unfold Forecast.process_batch.
    apply in_trace_bind_l. rewrite user_locations_blank. simpl for_each.
    apply in_trace_bind_l. unfold Forecast.resolve_step.
    apply in_trace_bind_l. apply forecast_get_coordinates_sends_request.
Qed.

(** The empty input is turned away before anything is sent. *)
Lemma empty_input_is_rejected E :
  Info.main E [EmptyString; "quit"]
  = (Ret tt,
     [Input Info.PROMPT; Print [Lit "Enter a valid city and/or country"];
      Input Info.PROMPT; Print [Lit "Exiting the session..."]])
  /\
  Forecast.main E [EmptyString; "quit"]
  = (Ret tt,
     [Input Forecast.PROMPT;
      Print [Lit "Please enter a valid city and/or country code."];
      Input Forecast.PROMPT; Print [Lit "Exiting session..."]]).
Proof. split; reflexivity. Qed.

(** ** Rendering nothing *)

Lemma plot_forecast_notice E forecast_data city_name :
  list_missing_or_empty forecast_data ->
  Forecast.plot_forecast E forecast_data city_name
  = (Ret tt,
     [Print [Lit "No forecast data available for "; Fmt city_name; Lit "."]]).
Proof.
  intros [members [-> Hlist]].
  unfold Forecast.plot_forecast, Forecast.has_forecast_list.
  destruct members as [| m ms].
  - reflexivity.
  - assert (Ht : truthy (JObj (m :: ms)) = true) by reflexivity.
    rewrite Ht. unfold contains_key, getitem.
    destruct Hlist as [-> | ->]; reflexivity.
Qed.

(** C9. For a forecast response without a [list] or with an empty one,
    [plot_forecast] returns after printing its notice and draws no
    series; [plot_temperatures] on an empty list of snapshots returns
    after printing its notice and draws nothing. *)
Theorem renderers_degrade_on_empty_input (E : env) :
  (forall forecast_data city_name,
      list_missing_or_empty forecast_data ->
      Forecast.plot_forecast E forecast_data city_name
      = (Ret tt,
         [Print [Lit "No forecast data available for "; Fmt city_name; Lit "."]]))
  /\
  Info.plot_temperatures E []
  = (Ret tt, [Print [Lit "No weather data to plot."]]).
Proof.
  split; [| reflexivity]. intros forecast_data city_name.
  apply plot_forecast_notice.
Qed.

Lemma renderers_degrade_witness :
  Forecast.plot_forecast env_stalls
    (JObj [("cod", JStr "200"); ("list", JArr [])]) (JStr "London")
  = (Ret tt,
     [Print [Lit "No forecast data available for "; Fmt (JStr "London"); Lit "."]]).
Proof.
  apply (proj1 (renderers_degrade_on_empty_input env_stalls)).
  exists [("cod", JStr "200"); ("list", JArr [])]. split; [reflexivity |].
  right. reflexivity.
Defined.

(** ** Properties of every event of a trace *)

Section Every.
Variable P : event -> Prop.

Lemma every_ret {A} (a : A) : every P (ret a).
Proof. constructor. Qed.

Lemma every_raise {A} e : every P (@raise A e).
Proof. constructor. Qed.

Lemma every_hang {A} : every P (@hang A).
Proof. constructor. Qed.

Lemma every_emit e : P e -> every P (emit e).
Proof. intros H. constructor; [exact H | constructor]. Qed.

Lemma every_bind {A B} (c : M A) (k : A -> M B) :
  every P c -> (forall a, every P (k a)) -> every P (bind c k).
Proof.
  unfold every, trace, bind. destruct c as [[a | e | ] t]; simpl; intros Hc Hk; auto.
  apply Forall_app; split; auto.
Qed.

Lemma every_try_except {A} (body : M A) handler :
  every P body -> (forall e h, handler e = Some h -> every P h) ->
  every P (try_except body handler).
Proof.
  unfold every, trace, try_except. destruct body as [[a | e | ] t]; simpl; intros Hb Hh; auto.
  destruct (handler e) eqn:He; simpl; auto.
  apply Forall_app; split; auto. exact (Hh e m He).
Qed.

Lemma every_try_finally {A} (body : M A) final :
  every P body -> every P final -> every P (try_finally body final).
Proof.
  unfold every, trace, try_finally.
  destruct body as [[a | e | ] t], final as [[[] | e' | ] t']; simpl; intros Hb Hf; auto;
    apply Forall_app; split; auto.
Qed.

Lemma every_for_each {A S} (xs : list A) (body : A -> S -> M S) s :
  (forall x s', every P (body x s')) -> every P (for_each xs body s).
Proof.
  intros Hb. revert s. induction xs as [| x r IH]; intros s; simpl.
  - apply every_ret.
  - apply every_bind; auto.
Qed.

Lemma every_comprehension {A B} (f : A -> M B) xs :
  (forall x, every P (f x)) -> every P (comprehension f xs).
Proof.
  intros Hf. induction xs as [| x r IH]; simpl.
  - apply every_ret.
  - apply every_bind; auto. intros y. apply every_bind; auto.
    intros ys. apply every_ret.
Qed.

Lemma every_raise_for_status r : every P (raise_for_status r).
Proof. unfold raise_for_status. destruct (_ && _); constructor. Qed.

Lemma every_response_json E r : every P (response_json E r).
Proof. unfold response_json. destruct (payload r); constructor. Qed.

Lemma every_getitem v k : every P (getitem v k).
Proof.
  unfold getitem. destruct v; try constructor. destruct (lookup k members); constructor.
Qed.

Lemma every_getitem0 v : every P (getitem0 v).
Proof. destruct v as [ | | | | [] | [] | ]; constructor. Qed.

Lemma every_get_method v k : every P (get_method v k).
Proof.
  unfold get_method. destruct v; try constructor. destruct (lookup k members); constructor.
Qed.

Lemma every_iterate v : every P (iterate v).
Proof. destruct v; constructor. Qed.

Lemma every_contains_key k v : every P (contains_key k v).
Proof. destruct v; constructor. Qed.

Lemma every_strptime E d : every P (strptime E d).
Proof. unfold strptime. destruct d; try constructor. destruct (strptime_ok E s); constructor. Qed.

Lemma every_requests_get E u ps timeout :
  P (HttpGet {| url := u; params := ps |} timeout) ->
  every P (requests_get E u ps timeout).
Proof.
  intros H. unfold every. rewrite trace_requests_get. constructor; [exact H | constructor].
Qed.

Lemma every_write_text E path text :
  (forall content, P (WriteText path content)) -> P (WriteRefused path) ->
  every P (write_text E path text).
Proof.
  intros Hw Hr. unfold write_text. destruct (write_fails E path).
  - destruct (write_cut E path) as [n |];
      (apply every_bind; [apply every_emit; auto | intros; apply every_raise]).
  - apply every_emit; apply Hw.
Qed.

Lemma every_plt E call : P (Plt call) -> every P (plt E call).
Proof.
  intros H. unfold plt. destruct (plt_raises E call).
  - apply every_bind; [apply every_emit; exact H | intros; apply every_raise].
  - apply every_emit; exact H.
Qed.

Lemma every_extract_info v : every P (extract_info v).
Proof.
  unfold extract_info.
  repeat (apply every_bind; [apply every_get_method | intro]). apply every_ret.
Qed.

End Every.

Create HintDb every.
#[global] Hint Resolve every_ret every_raise every_hang every_bind
  every_try_except every_try_finally every_for_each every_comprehension
  every_raise_for_status every_response_json every_getitem every_getitem0
  every_get_method every_iterate every_contains_key every_strptime
  every_extract_info : every.

(** Decomposes a computation down to its events, which [leaf] settles. *)
Ltac every_with leaf :=
  unfold print, sleep;
  repeat first
    [ apply every_bind; [ | intro ]
    | apply every_try_finally
    | apply every_try_except; [ | no_hang_handler ]
    | apply every_for_each; intros
    | apply every_comprehension; intros
    | apply every_emit; leaf
    | apply every_requests_get; leaf
    | apply every_write_text; [intro; leaf | leaf]
    | apply every_plt; leaf
    | match goal with
      | |- every _ (if ?b then _ else _) => destruct b
      | |- every _ (match ?x with _ => _ end) => destruct x
      end
    | solve [ auto with every ] ].

(** ** The order of the effects of a batch *)

Lemma stages_app sched t1 t2 :
  stages sched (t1 ++ t2) = (stages sched t1 ++ stages sched t2)%list.
Proof. unfold stages. apply flat_map_app. Qed.

Lemma stages_staged sched n t :
  Forall (staged sched n) t -> Forall (eq n) (stages sched t).
Proof.
  induction 1 as [| e t He _ IH]; simpl; [constructor |].
  destruct He as [-> | ->]; simpl; auto.
Qed.

Lemma nondecreasing_app_stage m n l1 l2 :
  (m <= n)%nat -> Forall (eq n) l1 ->
  nondecreasing_from n l2 = true ->
  nondecreasing_from m (l1 ++ l2) = true.
Proof.
  intros Hmn Hl1 Hl2. revert m Hmn.
  induction Hl1 as [| x l1 <- _ IH]; intros m Hmn; simpl.
  - destruct l2 as [| y r]; [reflexivity |]. simpl in *.
    apply andb_true_iff in Hl2 as [Hy Hr]. apply andb_true_iff; split; [| exact Hr].
    apply Nat.leb_le. apply Nat.leb_le in Hy. lia.
  - apply andb_true_iff; split; [now apply Nat.leb_le |]. now apply IH.
Qed.

Lemma nondecreasing_stage m n l :
  (m <= n)%nat -> Forall (eq n) l -> nondecreasing_from m l = true.
Proof.
  intros Hmn Hl. rewrite <- (List.app_nil_r l).
  now apply nondecreasing_app_stage with (n := n).
Qed.

(** A computation whose events are all at stage [n], followed by a
    continuation that is ordered from [n] on. *)
Lemma ordered_bind sched m n {A B} (c : M A) (k : A -> M B) :
  (m <= n)%nat ->
  every (staged sched n) c ->
  (forall a, nondecreasing_from n (stages sched (trace (k a))) = true) ->
  nondecreasing_from m (stages sched (trace (bind c k))) = true.
Proof.
  intros Hmn Hc Hk. apply stages_staged in Hc.
  unfold trace, bind in *. destruct c as [[a | e | ] t]; simpl in *.
  - rewrite stages_app. apply nondecreasing_app_stage with (n := n); auto.
  - now apply nondecreasing_stage with (n := n).
  - now apply nondecreasing_stage with (n := n).
Qed.

Lemma ordered_last sched m n {A} (c : M A) :
  (m <= n)%nat -> every (staged sched n) c ->
  nondecreasing_from m (stages sched (trace c)) = true.
Proof.
  intros Hmn Hc. apply stages_staged in Hc. now apply nondecreasing_stage with (n := n).
Qed.

Ltac staged_leaf := solve [ now left | now right ].

Lemma info_resolving_stage E locations acc :
  every (staged info_schedule 0) (for_each locations (Info.resolve_step E) acc).
Proof.
  apply every_for_each. intros location s. unfold Info.resolve_step, Info.get_coordinates.
  destruct (parse_location location) as [city cc]. every_with staged_leaf.
Qed.

Lemma info_retrieving_stage E cities acc :
  every (staged info_schedule 2) (for_each cities (Info.retrieve_step E) acc).
Proof.
  apply every_for_each. intros city_info s.
  unfold Info.retrieve_step, Info.get_weather_data. every_with staged_leaf.
Qed.

Lemma info_rendering_stage E records :
  every (staged info_schedule 4) (Info.plot_temperatures E records).
Proof.
  unfold Info.plot_temperatures, Info.main_temp. destruct records as [| r rs].
  - every_with staged_leaf.
  - every_with staged_leaf.
Qed.

Lemma save_coordinates_stage sched E data :
  (forall text, sched (WriteText COORDINATES_FILE text) = Some 1%nat) ->
  sched (WriteRefused COORDINATES_FILE) = Some 1%nat ->
  (forall m, sched (Print m) = None) ->
  every (staged sched 1) (save_json E data COORDINATES_FILE).
Proof.
  intros Hw Hr Hp. unfold save_json.
  every_with ltac:(first [ right; solve [ apply Hw | apply Hr ] | left; apply Hp ]).
Qed.

Lemma save_records_stage sched n E data path :
  (forall text, sched (WriteText path text) = Some n) ->
  sched (WriteRefused path) = Some n ->
  (forall m, sched (Print m) = None) ->
  every (staged sched n) (save_json E data path).
Proof.
  intros Hw Hr Hp. unfold save_json.
  every_with ltac:(first [ right; solve [ apply Hw | apply Hr ] | left; apply Hp ]).
Qed.

Lemma info_batch_order E user_input :
  follows info_schedule (trace (Info.process_batch E user_input)) = true.
Proof.
  unfold follows, Info.process_batch.
  apply ordered_bind with (n := 0%nat); [lia | apply info_resolving_stage |].
  intros extracted_data.
  apply ordered_bind with (n := 1%nat);
    [lia | apply save_records_stage; reflexivity |]. intros _.
  apply ordered_bind with (n := 2%nat); [lia | apply info_retrieving_stage |].
  intros city_weather_data.
  apply ordered_bind with (n := 3%nat);
    [lia | apply save_records_stage; reflexivity |]. intros _.
  apply ordered_last with (n := 4%nat); [lia | apply info_rendering_stage].
Qed.

Lemma forecast_resolving_stage E locations acc :
  every (staged forecast_schedule 0) (for_each locations (Forecast.resolve_step E) acc).
Proof.
  apply every_for_each. intros location s.
  unfold Forecast.resolve_step, Forecast.get_coordinates, Forecast.extract_loop.
  destruct (parse_location location) as [city cc]. every_with staged_leaf.
Qed.

Lemma forecast_retrieving_stage E cities acc :
  every (staged forecast_schedule 2) (for_each cities (Forecast.retrieve_step E) acc).
Proof.
  apply every_for_each. intros city_info s.
  unfold Forecast.retrieve_step, Forecast.get_weather_forecast,
    Forecast.plot_forecast, Forecast.has_forecast_list.
  every_with staged_leaf.
Qed.

Lemma forecast_batch_order E extracted_data city_forecasts user_input :
  follows forecast_schedule
    (trace (Forecast.process_batch E extracted_data city_forecasts user_input)) = true.
Proof.
  unfold follows, Forecast.process_batch.
  apply ordered_bind with (n := 0%nat); [lia | apply forecast_resolving_stage |].
  intros extracted_data'.
  apply ordered_bind with (n := 1%nat);
    [lia | apply save_records_stage; reflexivity |]. intros _.
  apply ordered_bind with (n := 2%nat);
    [lia | apply every_plt; now right |]. intros _.
  apply ordered_bind with (n := 2%nat); [lia | apply forecast_retrieving_stage |].
  intros city_forecasts'.
  do 6 (apply ordered_bind with (n := 3%nat);
        [lia | apply every_plt; now right |]; intros _).
  apply ordered_last with (n := 4%nat); [lia | apply save_records_stage; reflexivity].
Qed.

Lemma result_bind_inv {A B} (c : M A) (k : A -> M B) b :
  result (bind c k) = Ret b ->
  exists a, result c = Ret a /\ result (k a) = Ret b.
Proof.
  unfold result, bind. destruct c as [[a | e | ] t]; simpl; try discriminate.
  intros H. now exists a.
Qed.

(** C5, as stated, fails: in a batch of one city both scripts write the
    Locations file before they request the weather, and the forecast
    script draws the series before it writes the forecasts file. *)
Lemma stated_effect_order_fails :
  follows stated_schedule (trace (Info.process_batch env_london "London")) = false
  /\
  follows stated_schedule (trace (Forecast.process_batch env_london [] [] "London"))
  = false
  /\
  stages stated_schedule (trace (Info.process_batch env_london "London"))
  = [0; 1; 0; 2; 3; 3; 3]%nat
  /\
  stages stated_schedule (trace (Forecast.process_batch env_london [] [] "London"))
  = [0; 1; 0; 3; 2]%nat.
Proof. repeat split; vm_compute; reflexivity. Qed.

Example info_stages_of_a_batch :
  stages info_schedule (trace (Info.process_batch env_london "London"))
  = [0; 1; 2; 3; 4; 4; 4; 4; 4; 4; 4; 4; 4; 4; 4]%nat.
Proof. vm_compute. reflexivity. Qed.

Example forecast_stages_of_a_batch :
  stages forecast_schedule (trace (Forecast.process_batch env_london [] [] "London"))
  = [0; 1; 2; 2; 2; 3; 3; 3; 3; 3; 3; 4]%nat.
Proof. vm_compute. reflexivity. Qed.

(** ** The loops of a batch *)

Lemma requests_of_app t1 t2 :
  requests_of (t1 ++ t2) = (requests_of t1 ++ requests_of t2)%list.
Proof. unfold requests_of. apply flat_map_app. Qed.

Lemma disk_after_app t1 t2 d :
  disk_after (t1 ++ t2) d = disk_after t2 (disk_after t1 d).
Proof. unfold disk_after. apply fold_left_app. Qed.

Lemma disk_after_no_write t d :
  Forall (fun e => is_write e = false) t -> disk_after t d = d.
Proof.
  intros H. revert d. induction H as [| e t He _ IH]; intros d; simpl; [reflexivity |].
  destruct e; try discriminate; apply IH.
Qed.

(** A loop whose body calls [call x] and appends what it returns when it
    is true. Every call returns: the loop returns the list extended with
    the values kept, and its trace is the traces of the calls in order. *)
Lemma for_each_appending {A} (call : A -> M json) (step : A -> list json -> M (list json))
    (events : A -> list event) (xs : list A) (acc : list json) :
  (forall x s, In x xs ->
     step x s = (Ret (s ++ appended (call x))%list, events x)) ->
  for_each xs step acc
  = (Ret (acc ++ flat_map (fun x => appended (call x)) xs)%list,
     flat_map events xs).
Proof.
  revert acc. induction xs as [| x r IH]; intros acc Hstep; simpl.
  - now rewrite List.app_nil_r.
  - rewrite (Hstep x acc (or_introl eq_refl)). unfold bind. cbn [fst snd].
    rewrite IH by (intros; apply Hstep; now right).
    cbn [fst snd]. now rewrite <- List.app_assoc.
Qed.

Lemma appending_step (c : M json) (s : list json) v :
  result c = Ret v ->
  (v' <- c ;; ret (if truthy v' then (s ++ [v'])%list else s))
  = (Ret (s ++ appended c)%list, trace c).
Proof.
  intros H. unfold appended. rewrite H. unfold bind, result, trace in *. rewrite H.
  cbn [fst snd ret]. rewrite !List.app_nil_r.
  destruct (truthy v); [reflexivity | now rewrite List.app_nil_r].
Qed.

(** *** The resolver under the wire contract *)

Lemma info_get_coordinates_contract E q :
  geocoding_contract (net E (geo_request E q)) ->
  exists v,
    result (Info.get_coordinates E q) = Ret v /\
    (v = JNull \/ exists members, v = location_of members) /\
    sends (Info.get_coordinates E q) [geo_request E q].
Proof.
  unfold geocoding_contract, sends, Info.get_coordinates.
  destruct (parse_location q) as [city cc].
  unfold requests_get. fold (geo_request E q).
  destruct (net E (geo_request E q)) as [ | | status [d |]].
  - intros _. exists JNull. cbn. repeat split; auto; repeat constructor.
  - intros _. exists JNull. cbn. repeat split; auto; repeat constructor.
  - unfold status_passes, raise_for_status. cbn.
    destruct ((400 <=? status) && (status <? 600)).
    + intros _. exists JNull. cbn. repeat split; auto; repeat constructor.
    + intros H. destruct (H eq_refl) as [[| c r] ->].
      * exists JNull. cbn. repeat split; auto; repeat constructor.
      * exists (location_of c). cbn. rewrite extract_info_object. cbn.
        repeat split; eauto; repeat constructor.
  - unfold status_passes, raise_for_status. cbn.
    destruct ((400 <=? status) && (status <? 600)).
    + intros _. exists JNull. cbn. repeat split; auto; repeat constructor.
    + intros _. exists JNull. destruct (legacy_json_error E); cbn;
        repeat split; auto; repeat constructor.
Qed.

(** *** The retrievers *)

Lemma info_get_weather_data_returns E members :
  exists v,
    result (Info.get_weather_data E (location_of members)) = Ret v /\
    sends (Info.get_weather_data E (location_of members))
          [weather_request E Info.weather_url (location_of members)].
Proof.
  unfold sends, Info.get_weather_data, requests_get. cbn -[weather_params].
  destruct (net E _) as [ | | status [d |]].
  - exists JNull. cbn. repeat split; auto; repeat constructor.
  - exists JNull. cbn. repeat split; auto; repeat constructor.
  - unfold raise_for_status. cbn -[weather_params].
    destruct ((400 <=? status) && (status <? 600)).
    + exists JNull. cbn. repeat split; auto; repeat constructor.
    + exists d. cbn. repeat split; auto; repeat constructor.
  - unfold raise_for_status. cbn -[weather_params].
    destruct ((400 <=? status) && (status <? 600)).
    + exists JNull. cbn. repeat split; auto; repeat constructor.
    + exists JNull. destruct (legacy_json_error E); cbn;
        repeat split; auto; repeat constructor.
Qed.

Lemma getitem_some members key x :
  lookup key members = Some x -> getitem (JObj members) key = (Ret x, []).
Proof. intros H. unfold getitem. now rewrite H. Qed.


(** *** The batch of the snapshot script *)

Lemma save_json_returns E data path : result (save_json E data path) = Ret tt.
Proof.
  unfold save_json, write_text.
  destruct (write_fails E path); [destruct (write_cut E path) |]; reflexivity.
Qed.

Lemma save_json_written E data path :
  write_fails E path = false ->
  trace (save_json E data path)
  = [WriteText path (dumps data);
     Print [Lit (String newline "Data saved to "); Fmt (JStr path)]].
Proof. intros H. unfold save_json, write_text. rewrite H. reflexivity. Qed.

Lemma requests_of_none t :
  Forall (fun e => is_http e = false) t -> requests_of t = [].
Proof.
  induction 1 as [| e t He _ IH]; simpl; [reflexivity |].
  destruct e; try discriminate; exact IH.
Qed.

Lemma requests_of_calls {A} (call : A -> M json) (req : A -> request) xs :
  (forall x, In x xs -> sends (call x) [req x]) ->
  requests_of (flat_map (fun x => trace (call x)) xs) = map req xs.
Proof.
  induction xs as [| x r IH]; intros H; simpl; [reflexivity |].
  rewrite requests_of_app, (proj1 (H x (or_introl eq_refl))).
  simpl. f_equal. apply IH. intros; apply H; now right.
Qed.

Lemma no_write_calls {A} (events : A -> list event) xs :
  (forall x, In x xs -> Forall (fun e => is_write e = false) (events x)) ->
  Forall (fun e => is_write e = false) (flat_map events xs).
Proof.
  induction xs as [| x r IH]; intros H; simpl; [constructor |].
  apply Forall_app; split; [apply H; now left | apply IH; intros; apply H; now right].
Qed.

Lemma info_locations_are_locations E qs c :
  info_batch_contract E qs -> In c (info_locations E qs) ->
  exists members, c = location_of members.
Proof.
  intros Hc Hin. apply in_flat_map in Hin as [q [Hq Hin]].
  destruct (info_get_coordinates_contract E q (Hc q Hq)) as [v [Hv [[-> | Hm] _]]];
    unfold appended in Hin; rewrite Hv in Hin.
  - destruct Hin.
  - destruct Hm as [m ->]. destruct Hin as [<- | []]. now exists m.
Qed.

Lemma info_resolving E qs :
  info_batch_contract E qs ->
  for_each qs (Info.resolve_step E) []
  = (Ret (info_locations E qs), flat_map (fun q => trace (Info.get_coordinates E q)) qs).
Proof.
  intros Hc.
  apply (for_each_appending (Info.get_coordinates E) (Info.resolve_step E)
           (fun q => trace (Info.get_coordinates E q)) qs []).
  intros q s Hq.
  destruct (info_get_coordinates_contract E q (Hc q Hq)) as [v [Hv _]].
  unfold Info.resolve_step. now apply appending_step with (v := v).
Qed.

Lemma info_retrieving E cities :
  (forall c, In c cities -> exists members, c = location_of members) ->
  for_each cities (Info.retrieve_step E) []
  = (Ret (info_records E cities),
     flat_map (fun c => trace (Info.get_weather_data E c)) cities).
Proof.
  intros Hc.
  apply (for_each_appending (Info.get_weather_data E) (Info.retrieve_step E)
           (fun c => trace (Info.get_weather_data E c)) cities []).
  intros c s Hin. destruct (Hc c Hin) as [m ->].
  destruct (info_get_weather_data_returns E m) as [v [Hv _]].
  unfold Info.retrieve_step. now apply appending_step with (v := v).
Qed.

Lemma info_plot_temperatures_events E records :
  every (fun e => is_http e = false /\ is_write e = false)
        (Info.plot_temperatures E records).
Proof.
  unfold Info.plot_temperatures, Info.main_temp. destruct records as [| r rs].
  - every_with ltac:(now split).
  - every_with ltac:(now split).
Qed.

Lemma info_batch_trace E user_input :
  info_batch_contract E (user_locations user_input) ->
  let locations := info_locations E (user_locations user_input) in
  let records := info_records E locations in
  trace (Info.process_batch E user_input)
  = (flat_map (fun q => trace (Info.get_coordinates E q)) (user_locations user_input)
     ++ trace (save_json E (JArr locations) COORDINATES_FILE)
     ++ flat_map (fun c => trace (Info.get_weather_data E c)) locations
     ++ trace (save_json E (JArr records) Info.WEATHER_DATA_FILE)
     ++ trace (Info.plot_temperatures E records))%list.
Proof.
  intros Hc locations records. unfold Info.process_batch.
  pose proof (info_resolving E _ Hc) as H1.
  pose proof (info_retrieving E locations
                (fun c Hin => info_locations_are_locations E _ c Hc Hin)) as H2.
  rewrite (trace_bind_ret _ _ locations) by (unfold result; now rewrite H1).
  unfold trace at 1. rewrite H1. cbn [snd]. f_equal.
  rewrite (trace_bind_ret _ _ tt) by apply save_json_returns. f_equal.
  rewrite (trace_bind_ret _ _ records) by (unfold result; now rewrite H2).
  unfold trace at 1. rewrite H2. cbn [snd]. f_equal.
  rewrite (trace_bind_ret _ _ tt) by apply save_json_returns. reflexivity.
Qed.

Lemma forall_and_l {A} (P Q : A -> Prop) l :
  Forall (fun x => P x /\ Q x) l -> Forall P l.
Proof. apply Forall_impl. now intros x [H _]. Qed.

Lemma forall_and_r {A} (P Q : A -> Prop) l :
  Forall (fun x => P x /\ Q x) l -> Forall Q l.
Proof. apply Forall_impl. now intros x [_ H]. Qed.

Lemma info_batch_artifacts E user_input before :
  info_batch_contract E (user_locations user_input) ->
  write_fails E COORDINATES_FILE = false ->
  write_fails E Info.WEATHER_DATA_FILE = false ->
  let locations := info_locations E (user_locations user_input) in
  batch_artifacts (trace (Info.process_batch E user_input)) before
    Info.WEATHER_DATA_FILE locations (info_records E locations)
    (map (geo_request E) (user_locations user_input)
     ++ map (weather_request E Info.weather_url) locations).
Proof.
  intros Hc Hw1 Hw2 locations.
  assert (Hgeo : forall q, In q (user_locations user_input) ->
                   sends (Info.get_coordinates E q) [geo_request E q]).
  { intros q Hq. now destruct (info_get_coordinates_contract E q (Hc q Hq))
      as [v [_ [_ H]]]. }
  assert (Hwx : forall c, In c locations ->
                  sends (Info.get_weather_data E c) [weather_request E Info.weather_url c]).
  { intros c Hin. destruct (info_locations_are_locations E _ c Hc Hin) as [m ->].
    now destruct (info_get_weather_data_returns E m) as [v [_ H]]. }
  pose proof (info_plot_temperatures_events E (info_records E locations)) as Hplot.
  rewrite (info_batch_trace E user_input Hc). fold locations.
  rewrite (save_json_written E _ _ Hw1), (save_json_written E _ _ Hw2).
  unfold batch_artifacts, read_text. repeat split.
  - rewrite !disk_after_app.
    rewrite (disk_after_no_write (trace (Info.plot_temperatures E _)))
      by (exact (forall_and_r _ _ _ Hplot)).
    cbn [disk_after fold_left apply_event].
    rewrite (disk_after_no_write (flat_map _ locations))
      by (apply no_write_calls; intros c Hin; apply (Hwx c Hin)).
    reflexivity.
  - rewrite !disk_after_app.
    rewrite (disk_after_no_write (trace (Info.plot_temperatures E _)))
      by (exact (forall_and_r _ _ _ Hplot)).
    reflexivity.
  - rewrite !requests_of_app.
    rewrite (requests_of_calls _ _ _ Hgeo), (requests_of_calls _ _ _ Hwx).
    rewrite (requests_of_none (trace (Info.plot_temperatures E _)))
      by (exact (forall_and_l _ _ _ Hplot)).
    cbn [requests_of flat_map app]. now rewrite !List.app_nil_r.
Qed.

(** ** Composition *)

Lemma result_bind_emit {B} e (k : unit -> M B) :
  result (bind (emit e) k) = result (k tt).
Proof. reflexivity. Qed.

Lemma trace_bind_emit {B} e (k : unit -> M B) :
  trace (bind (emit e) k) = e :: trace (k tt).
Proof. reflexivity. Qed.

Lemma bind_assoc {A B C} (c : M A) (k : A -> M B) (h : B -> M C) :
  bind (bind c k) h = bind c (fun a => bind (k a) h).
Proof.
  destruct c as [[a | e | ] t]; unfold bind; cbn [fst snd]; try reflexivity.
  destruct (k a) as [[b | e | ] t']; cbn [fst snd]; try reflexivity.
  now rewrite List.app_assoc.
Qed.

Lemma bind_ret_l {A B} (a : A) (k : A -> M B) : bind (Ret a, []) k = k a.
Proof. unfold bind. cbn [fst snd app]. now destruct (k a). Qed.

Lemma for_each_app {A S} (xs ys : list A) (body : A -> S -> M S) s :
  for_each (xs ++ ys) body s = bind (for_each xs body s) (for_each ys body).
Proof.
  revert s. induction xs as [| x r IH]; intros s; cbn [for_each app].
  - unfold ret. now rewrite bind_ret_l.
  - rewrite bind_assoc. unfold bind at 1 3.
    destruct (body x s) as [[s' | e | ] t]; cbn [fst snd]; try reflexivity.
    now rewrite IH.
Qed.

Lemma bind_ret {A B} (a : A) (k : A -> M B) : bind (ret a) k = k a.
Proof. apply bind_ret_l. Qed.

Lemma bind_ret_l_traced {A B} (a : A) (t : list event) (k : A -> M B) :
  bind (Ret a, t) k = (result (k a), (t ++ trace (k a))%list).
Proof. reflexivity. Qed.

Lemma bind_raise {A B} (c : M A) (k : A -> M B) e :
  result c = Raise e -> bind c k = (Raise e, trace c).
Proof. unfold result, trace, bind. now intros ->. Qed.

(** A loop whose calls all return, as [for_each_appending], from the
    outcomes of the calls alone. *)
Lemma for_each_returning {A} (call : A -> M json) (xs : list A) (acc : list json) :
  Forall (fun x => returns (call x)) xs ->
  for_each xs
    (fun x s => v <- call x ;; ret (if truthy v then (s ++ [v])%list else s)) acc
  = (Ret (acc ++ flat_map (fun x => appended (call x)) xs)%list,
     flat_map (fun x => trace (call x)) xs).
Proof.
  intros H.
  apply (for_each_appending call _ (fun x => trace (call x)) xs acc).
  intros x s Hin. rewrite Forall_forall in H. destruct (H x Hin) as [v Hv].
  now apply appending_step with (v := v).
Qed.

(** ** The requests of a call *)

Lemma requests_of_bind_quiet {A B} (c : M A) (k : A -> M B) :
  (forall a, every (fun e => is_http e = false) (k a)) ->
  requests_of (trace (bind c k)) = requests_of (trace c).
Proof.
  intros Hk. unfold trace, bind. destruct c as [[a | e | ] t]; cbn [fst snd]; auto.
  rewrite requests_of_app, (requests_of_none (snd (k a)) (Hk a)). apply List.app_nil_r.
Qed.

Lemma requests_of_try_except_quiet {A} (body : M A) handler :
  (forall e h, handler e = Some h -> every (fun e => is_http e = false) h) ->
  requests_of (trace (try_except body handler)) = requests_of (trace body).
Proof.
  intros Hh. unfold trace, try_except. destruct body as [[a | e | ] t]; cbn [fst snd]; auto.
  destruct (handler e) as [h |] eqn:He; cbn [fst snd]; auto.
  rewrite requests_of_app, (requests_of_none (snd h) (Hh e h He)). apply List.app_nil_r.
Qed.

Lemma requests_of_try_finally_quiet {A} (body : M A) final :
  every (fun e => is_http e = false) final ->
  requests_of (trace (try_finally body final)) = requests_of (trace body).
Proof.
  intros Hf. apply requests_of_none in Hf. revert Hf. unfold trace, try_finally.
  destruct body as [[a | e | ] t], final as [[[] | e' | ] t']; cbn [fst snd]; auto;
    intros Hf; rewrite requests_of_app, Hf; apply List.app_nil_r.
Qed.

Lemma every_extract_loop P candidates : every P (Forecast.extract_loop candidates).
Proof. unfold Forecast.extract_loop. apply every_for_each. intros. apply every_extract_info. Qed.

Lemma requests_of_print message t :
  requests_of (Print message :: t) = requests_of t.
Proof. reflexivity. Qed.

Lemma info_get_coordinates_requests E location :
  requests_of (trace (Info.get_coordinates E location)) = [geo_request E location].
Proof.
  unfold Info.get_coordinates. destruct (parse_location location) as [city cc].
  unfold print at 1. rewrite trace_bind_emit, requests_of_print.
  rewrite requests_of_try_finally_quiet by (every_with ltac:(reflexivity)).
  rewrite requests_of_try_except_quiet by (no_hang_handler; every_with ltac:(reflexivity)).
  rewrite requests_of_bind_quiet by (intro; every_with ltac:(reflexivity)).
  now rewrite trace_requests_get.
Qed.

Lemma forecast_get_coordinates_requests E location :
  requests_of (trace (Forecast.get_coordinates E location)) = [geo_request E location].
Proof.
  unfold Forecast.get_coordinates. destruct (parse_location location) as [city cc].
  unfold print at 1. rewrite trace_bind_emit, requests_of_print.
  rewrite requests_of_try_finally_quiet by (every_with ltac:(reflexivity)).
  rewrite requests_of_try_except_quiet by (no_hang_handler; every_with ltac:(reflexivity)).
  rewrite requests_of_bind_quiet
    by (intro; pose proof (every_extract_loop (fun e => is_http e = false));
        every_with ltac:(reflexivity)).
  now rewrite trace_requests_get.
Qed.

Lemma info_get_coordinates_no_write E location :
  every (fun e => is_write e = false) (Info.get_coordinates E location).
Proof.
  unfold Info.get_coordinates. destruct (parse_location location) as [city cc].
  every_with ltac:(reflexivity).
Qed.

Lemma forecast_get_coordinates_no_write E location :
  every (fun e => is_write e = false) (Forecast.get_coordinates E location).
Proof.
  unfold Forecast.get_coordinates. destruct (parse_location location) as [city cc].
  pose proof (every_extract_loop (fun e => is_write e = false)).
  every_with ltac:(reflexivity).
Qed.

Lemma info_get_coordinates_sends E location :
  sends (Info.get_coordinates E location) [geo_request E location].
Proof.
  split; [apply info_get_coordinates_requests | apply info_get_coordinates_no_write].
Qed.

Lemma forecast_get_coordinates_sends E location :
  sends (Forecast.get_coordinates E location) [geo_request E location].
Proof.
  split; [apply forecast_get_coordinates_requests
         | apply forecast_get_coordinates_no_write].
Qed.

(** ** The loops of a batch, whatever the calls do *)

(** The resolution loop up to the first query whose call raises. *)
Lemma resolving_until_raise (call : string -> M json) before q after e acc :
  Forall (fun p => returns (call p)) before ->
  result (call q) = Raise e ->
  for_each (before ++ q :: after)
    (fun x s => v <- call x ;; ret (if truthy v then (s ++ [v])%list else s)) acc
  = (Raise e, flat_map (fun p => trace (call p)) (before ++ [q])).
Proof.
  intros Hbefore Hq. rewrite for_each_app, (for_each_returning call before acc Hbefore).
  rewrite bind_ret_l_traced. cbn [for_each].
  rewrite (bind_raise (call q) _ e Hq).
  rewrite (bind_raise (Raise e, trace (call q)) _ e eq_refl).
  unfold trace at 1 2. cbn [fst snd].
  rewrite flat_map_app. cbn [flat_map]. now rewrite List.app_nil_r.
Qed.


(** ** Runs that go through a sequence of events *)

Lemma begins_refl t : begins t t.
Proof. exists []. now rewrite List.app_nil_r. Qed.

Lemma runs_through_trace {A} (c : M A) : runs_through c (trace c).
Proof. split; [apply begins_refl | reflexivity]. Qed.

Lemma runs_through_bind {A B} (c : M A) (k : A -> M B) full1 full2 :
  runs_through c full1 ->
  (forall a, result c = Ret a -> runs_through (k a) full2) ->
  runs_through (bind c k) (full1 ++ full2).
Proof.
  unfold runs_through, begins, result, trace, bind.
  intros [[rest Hrest] Hret] Hk.
  destruct c as [[a | e | ] t]; cbn [fst snd] in *.
  - destruct (Hk a eq_refl) as [[rest' Hrest'] Hret']. rewrite <- (Hret a eq_refl). split.
    + exists rest'. rewrite <- List.app_assoc. now f_equal.
    + intros b Hb. now rewrite (Hret' b Hb).
  - split; [| discriminate]. exists (rest ++ full2)%list.
    now rewrite Hrest, <- List.app_assoc.
  - split; [| discriminate]. exists (rest ++ full2)%list.
    now rewrite Hrest, <- List.app_assoc.
Qed.

(** A loop whose turns do the same whatever the list they extend. *)
Lemma runs_through_for_each {A} (step : A -> list json -> M (list json))
    (turn : A -> list event) (kept : A -> list json) xs acc :
  (forall x s, trace (step x s) = turn x /\
               forall s', result (step x s) = Ret s' -> s' = (s ++ kept x)%list) ->
  runs_through (for_each xs step acc) (flat_map turn xs) /\
  forall s', result (for_each xs step acc) = Ret s' ->
             s' = (acc ++ flat_map kept xs)%list.
Proof.
  intros Hstep. revert acc. induction xs as [| x r IH]; intros acc; cbn [for_each flat_map].
  - split; [apply (runs_through_trace (ret acc)) |].
    intros s' H. injection H as <-. now rewrite List.app_nil_r.
  - destruct (Hstep x acc) as [Ht Hr]. split.
    + rewrite <- Ht. apply runs_through_bind; [apply runs_through_trace |].
      intros s1 _. apply IH.
    + intros s' H. apply result_bind_inv in H as [s1 [H1 H2]].
      apply (proj2 (IH s1)) in H2. rewrite (Hr s1 H1) in H2.
      now rewrite <- List.app_assoc in H2.
Qed.

Lemma appending_step_run (c : M json) (s : list json) :
  trace (v <- c ;; ret (if truthy v then (s ++ [v])%list else s)) = trace c /\
  forall s', result (v <- c ;; ret (if truthy v then (s ++ [v])%list else s)) = Ret s' ->
             s' = (s ++ appended c)%list.
Proof.
  unfold appended. destruct c as [[v | e | ] t]; unfold result, trace, bind;
    cbn [fst snd ret]; (split; [| try discriminate]); try reflexivity.
  - apply List.app_nil_r.
  - intros s' H. injection H as <-.
    destruct (truthy v); [reflexivity | now rewrite List.app_nil_r].
Qed.

Lemma getitem_trace v key : trace (getitem v key) = [].
Proof.
  unfold getitem. destruct v; try reflexivity. now destruct (lookup key members).
Qed.

Lemma trace_plt E call : trace (plt E call) = [Plt call].
Proof. unfold plt. now destruct (plt_raises E call). Qed.

Lemma result_plt E call : result (plt E call) = drawn E call.
Proof. unfold plt, drawn. now destruct (plt_raises E call). Qed.

Lemma runs_through_plt E call : runs_through (plt E call) [Plt call].
Proof. rewrite <- (trace_plt E call). apply runs_through_trace. Qed.

Lemma forecast_retrieve_step_run E city_info s :
  trace (Forecast.retrieve_step E city_info s) = forecast_turn E city_info /\
  forall s', result (Forecast.retrieve_step E city_info s) = Ret s' ->
             s' = (s ++ appended (Forecast.get_weather_forecast E city_info))%list.
Proof.
  unfold Forecast.retrieve_step, forecast_turn, appended.
  pose proof (getitem_trace city_info "name") as Hn.
  destruct (Forecast.get_weather_forecast E city_info) as [[v | e | ] t];
    unfold result, trace, bind in *; cbn [fst snd] in *;
    try (split; [now rewrite List.app_nil_r | discriminate]).
  destruct (truthy v).
  - destruct (getitem city_info "name") as [[name | e | ] tn]; cbn [fst snd] in *; subst tn.
    + destruct (Forecast.plot_forecast E v name) as [[[] | e | ] tp]; cbn [fst snd ret];
        (split; [now rewrite ?List.app_nil_r | try discriminate]).
      intros s' H. now injection H as <-.
    + split; [reflexivity | discriminate].
    + split; [reflexivity | discriminate].
  - cbn [fst snd ret]. split; [reflexivity |].
    intros s' H. injection H as <-. now rewrite List.app_nil_r.
Qed.

Lemma info_batch_runs E user_input :
  runs_through (Info.process_batch E user_input) (info_batch_events E user_input).
Proof.
  unfold Info.process_batch, info_batch_events.
  destruct (runs_through_for_each (Info.resolve_step E)
              (fun q => trace (Info.get_coordinates E q))
              (fun q => appended (Info.get_coordinates E q))
              (user_locations user_input) []) as [Hrun Hres];
    [intros q s; apply appending_step_run |].
  apply runs_through_bind; [exact Hrun |]. intros extracted_data H.
  apply Hres in H. cbn [app] in H. fold (info_locations E (user_locations user_input)) in H.
  subst extracted_data.
  apply runs_through_bind; [apply runs_through_trace |]. intros _ _.
  destruct (runs_through_for_each (Info.retrieve_step E)
              (fun c => trace (Info.get_weather_data E c))
              (fun c => appended (Info.get_weather_data E c))
              (info_locations E (user_locations user_input)) []) as [Hrun' Hres'];
    [intros c s; apply appending_step_run |].
  apply runs_through_bind; [exact Hrun' |]. intros city_weather_data H.
  apply Hres' in H. cbn [app] in H.
  fold (info_records E (info_locations E (user_locations user_input))) in H.
  subst city_weather_data.
  apply runs_through_bind; [apply runs_through_trace |]. intros _ _.
  apply runs_through_trace.
Qed.

Lemma forecast_batch_runs E user_input :
  runs_through (Forecast.process_batch E [] [] user_input)
               (forecast_batch_events E user_input).
Proof.
  unfold Forecast.process_batch, forecast_batch_events.
  destruct (runs_through_for_each (Forecast.resolve_step E)
              (fun q => trace (Forecast.get_coordinates E q))
              (fun q => appended (Forecast.get_coordinates E q))
              (user_locations user_input) []) as [Hrun Hres];
    [intros q s; apply appending_step_run |].
  apply runs_through_bind; [exact Hrun |]. intros extracted_data H.
  apply Hres in H. cbn [app] in H.
  fold (forecast_locations E (user_locations user_input)) in H. subst extracted_data.
  apply runs_through_bind; [apply runs_through_trace |]. intros _ _.
  apply runs_through_bind; [apply runs_through_plt |]. intros _ _.
  destruct (runs_through_for_each (Forecast.retrieve_step E) (forecast_turn E)
              (fun c => appended (Forecast.get_weather_forecast E c))
              (forecast_locations E (user_locations user_input)) []) as [Hrun' Hres'];
    [intros c s; apply forecast_retrieve_step_run |].
  apply runs_through_bind; [exact Hrun' |]. intros city_forecasts H.
  apply Hres' in H. cbn [app] in H.
  fold (forecast_records E (forecast_locations E (user_locations user_input))) in H.
  subst city_forecasts.
  unfold chart_events.
  do 6 (apply (runs_through_bind _ _ [_]); [apply runs_through_plt | intros _ _]).
  apply runs_through_trace.
Qed.

(** What [save_json] leaves in a trace. *)
Lemma save_json_failed E data filename :
  write_fails E filename = true ->
  save_json E data filename
  = (Ret tt,
     [match write_cut E filename with
      | None => WriteRefused filename
      | Some n => WriteText filename (substring 0 n (dumps data))
      end;
      write_error filename]).
Proof.
  intros H. unfold save_json, write_text. rewrite H.
  now destruct (write_cut E filename).
Qed.

Lemma disk_after_last_write t path content message d :
  read_text path (disk_after (t ++ [WriteText path content; Print message]) d)
  = Some content.
Proof.
  rewrite disk_after_app. unfold read_text. cbn. now rewrite String.eqb_refl.
Qed.

(** ** What a loop keeps *)

Lemma appended_kept (c : M json) v :
  result c = Ret v -> truthy v = true -> appended c = [v].
Proof. intros H Ht. unfold appended. now rewrite H, Ht. Qed.

Lemma appended_inv (c : M json) v :
  In v (appended c) -> result c = Ret v /\ truthy v = true.
Proof.
  unfold appended. destruct (result c) as [x | e | ]; try contradiction.
  destruct (truthy x) eqn:Ht; [| contradiction].
  intros [<- | []]. now split.
Qed.


(** ** The order of the effects, statement by statement *)

(** C5, amended. In every batch the effects come in the order of the
    statements of [main]. The snapshot script resolves every query,
    writes the Locations that were kept, retrieves the weather of every
    one of these Locations, writes the records that were kept and, last,
    hands these records to [plot_temperatures]. The forecast script
    resolves every query, writes the Locations that were kept, creates the
    figure, then takes the Locations in turn, retrieving the forecast of
    one and handing it to [plot_forecast] before it requests the next
    one, completes and shows the chart, and writes the forecasts that
    were kept last. A batch that an exception or an unanswered request
    ends has done an initial part of this sequence, a batch that returns
    the whole of it; a write that does not fail puts the [json.dumps]
    text of the list into the file. *)
Theorem batch_effects_follow_the_schedule (E : env) (user_input : string) :
  (follows info_schedule (trace (Info.process_batch E user_input)) = true /\
   follows forecast_schedule (trace (Forecast.process_batch E [] [] user_input)) = true)
  /\
  (begins (trace (Info.process_batch E user_input)) (info_batch_events E user_input) /\
   (result (Info.process_batch E user_input) = Ret tt ->
    trace (Info.process_batch E user_input) = info_batch_events E user_input))
  /\
  (begins (trace (Forecast.process_batch E [] [] user_input))
          (forecast_batch_events E user_input) /\
   (result (Forecast.process_batch E [] [] user_input) = Ret tt ->
    trace (Forecast.process_batch E [] [] user_input)
    = forecast_batch_events E user_input))
  /\
  (forall data path,
      write_fails E path = false ->
      trace (save_json E data path)
      = [WriteText path (dumps data);
         Print [Lit (String newline "Data saved to "); Fmt (JStr path)]]).
Proof.
  split; [split; [apply info_batch_order | apply forecast_batch_order] |].
  split; [| split].
  - destruct (info_batch_runs E user_input) as [Hb Hr]. split; [exact Hb | apply Hr].
  - destruct (forecast_batch_runs E user_input) as [Hb Hr]. split; [exact Hb | apply Hr].
  - intros data path. apply save_json_written.
Qed.

Lemma batch_effects_witness :
  trace (Info.process_batch env_london "London") = info_batch_events env_london "London"
  /\
  trace (Forecast.process_batch env_london [] [] "London")
  = forecast_batch_events env_london "London"
  /\
  trace (save_json env_london (JArr [london_info]) COORDINATES_FILE)
  = [WriteText COORDINATES_FILE (dumps (JArr [london_info]));
     Print [Lit (String newline "Data saved to "); Fmt (JStr COORDINATES_FILE)]].
Proof.
  destruct (batch_effects_follow_the_schedule env_london "London")
    as (_ & [_ Hinfo] & [_ Hforecast] & Hsave).
  split; [| split].
  - apply Hinfo. vm_compute. reflexivity.
  - apply Hforecast. vm_compute. reflexivity.
  - apply Hsave. reflexivity.
Defined.

(** The requests and the drawing calls of a batch of two cities: the
    forecast script draws the series of London before it requests the
    forecast of Paris. *)
Example forecast_batch_of_two_cities :
  filter is_request_or_drawing
    (trace (Forecast.process_batch env_two_cities [] [] "London;Paris,FR"))
  = [HttpGet (geo_request env_two_cities "London") None;
     HttpGet (geo_request env_two_cities "Paris,FR") None;
     Plt Subplots;
     HttpGet (weather_request env_two_cities Forecast.forecast_url london_info) None;
     Plt (AxPlot ["2024-05-01 12:00:00"] [JFloat "11.3"] (JStr "London"));
     HttpGet (weather_request env_two_cities Forecast.forecast_url
                (location_of [("name", JStr "Paris"); ("lat", JFloat "48.8588897");
                              ("lon", JFloat "2.3200410"); ("country", JStr "FR");
                              ("state", JStr "Ile-de-France")])) None;
     Plt (AxPlot ["2024-05-01 12:00:00"] [JFloat "14.1"] (JStr "Paris"));
     Plt (AxSetTitle Forecast.TITLE 24);
     Plt (AxSetXLabel Forecast.X_LABEL 14);
     Plt (AxSetYLabel Forecast.Y_LABEL 14);
     Plt FigAutofmtXDate;
     Plt AxLegend;
     Plt Show].
Proof. vm_compute. reflexivity. Qed.

(** ** Failures that end the batch *)

(** A call of [get_coordinates] that raises ends the batch: the queries
    after it are not resolved and nothing is written. *)
Lemma info_batch_ends_at_a_raise E user_input before q after e :
  user_locations user_input = (before ++ q :: after)%list ->
  Forall (fun p => returns (Info.get_coordinates E p)) before ->
  result (Info.get_coordinates E q) = Raise e ->
  result (Info.process_batch E user_input) = Raise e /\
  requests_of (trace (Info.process_batch E user_input))
  = map (geo_request E) (before ++ [q]) /\
  forall d, disk_after (trace (Info.process_batch E user_input)) d = d.
Proof.
  intros Hinput Hbefore Hq.
  pose proof (resolving_until_raise (Info.get_coordinates E) before q after e []
                Hbefore Hq) as Hloop.
  change (for_each (before ++ q :: after) (Info.resolve_step E) []
          = (Raise e, flat_map (fun p => trace (Info.get_coordinates E p))
                        (before ++ [q]))) in Hloop.
  unfold Info.process_batch. rewrite Hinput.
  rewrite (bind_raise _ _ e (f_equal fst Hloop)). rewrite Hloop.
  unfold result, trace. cbn [fst snd]. split; [reflexivity | split].
  - apply requests_of_calls. intros p _. apply info_get_coordinates_sends.
  - intros d. apply disk_after_no_write, no_write_calls.
    intros p _. apply info_get_coordinates_no_write.
Qed.

Lemma forecast_batch_ends_at_a_raise E user_input before q after e :
  user_locations user_input = (before ++ q :: after)%list ->
  Forall (fun p => returns (Forecast.get_coordinates E p)) before ->
  result (Forecast.get_coordinates E q) = Raise e ->
  result (Forecast.process_batch E [] [] user_input) = Raise e /\
  requests_of (trace (Forecast.process_batch E [] [] user_input))
  = map (geo_request E) (before ++ [q]) /\
  forall d, disk_after (trace (Forecast.process_batch E [] [] user_input)) d = d.
Proof.
  intros Hinput Hbefore Hq.
  pose proof (resolving_until_raise (Forecast.get_coordinates E) before q after e []
                Hbefore Hq) as Hloop.
  change (for_each (before ++ q :: after) (Forecast.resolve_step E) []
          = (Raise e, flat_map (fun p => trace (Forecast.get_coordinates E p))
                        (before ++ [q]))) in Hloop.
  unfold Forecast.process_batch. rewrite Hinput.
  rewrite (bind_raise _ _ e (f_equal fst Hloop)). rewrite Hloop.
  unfold result, trace. cbn [fst snd]. split; [reflexivity | split].
  - apply requests_of_calls. intros p _. apply forecast_get_coordinates_sends.
  - intros d. apply disk_after_no_write, no_write_calls.
    intros p _. apply forecast_get_coordinates_no_write.
Qed.

(** A body that decodes to a non-empty object is caught by neither
    [except] clause of [get_coordinates]. *)
Lemma get_coordinates_object_body E q status member members :
  net E (geo_request E q) = Responds status (Some (JObj (member :: members))) ->
  status_passes status = true ->
  result (Info.get_coordinates E q) = Raise KeyError /\
  result (Forecast.get_coordinates E q) = Raise AttributeError.
Proof.
  intros Hnet Hst. unfold Info.get_coordinates, Forecast.get_coordinates.
  destruct (parse_location q) as [city cc].
  unfold requests_get. fold (geo_request E q). rewrite Hnet.
  unfold print, sleep. cbn.
  rewrite (raise_for_status_passes {| status_code := status; payload := _ |} Hst).
  destruct member as [k v]. cbn. split; reflexivity.
Qed.

(** C1. A failure of one city can end the whole batch. When the
    geocoding service answers one query with a passing status and a body
    that is a JSON object (an error object, say) instead of an array, the
    exception of that query is caught nowhere: in both scripts the batch
    ends with it, the queries after it are never resolved, no weather is
    retrieved and neither file is written, although the queries before it
    had resolved. And when the forecast service never answers for one
    Location, the forecast script, whose requests have no timeout, waits
    for ever: the forecast of the next Location is never requested and
    the forecasts file is never written, where the snapshot script, on
    the same services, writes the record of the other city. *)
Theorem one_failure_can_end_the_batch
    (E : env) (user_input : string) (before : list string) (q : string)
    (after : list string) (status : Z)
    (member : string * json) (members : list (string * json)) :
  user_locations user_input = (before ++ q :: after)%list ->
  net E (geo_request E q) = Responds status (Some (JObj (member :: members))) ->
  status_passes status = true ->
  (Forall (fun p => returns (Info.get_coordinates E p)) before ->
   result (Info.process_batch E user_input) = Raise KeyError /\
   requests_of (trace (Info.process_batch E user_input))
   = map (geo_request E) (before ++ [q]) /\
   forall d, disk_after (trace (Info.process_batch E user_input)) d = d)
  /\
  (Forall (fun p => returns (Forecast.get_coordinates E p)) before ->
   result (Forecast.process_batch E [] [] user_input) = Raise AttributeError /\
   requests_of (trace (Forecast.process_batch E [] [] user_input))
   = map (geo_request E) (before ++ [q]) /\
   forall d, disk_after (trace (Forecast.process_batch E [] [] user_input)) d = d)
  /\
  (result (Forecast.process_batch env_silent_london [] [] "London;Paris,FR") = Hang /\
   requests_of (trace (Forecast.process_batch env_silent_london [] [] "London;Paris,FR"))
   = [geo_request env_silent_london "London";
      geo_request env_silent_london "Paris,FR";
      weather_request env_silent_london Forecast.forecast_url london_info] /\
   read_text Forecast.FORECAST_FILE
     (disk_after (trace (Forecast.process_batch env_silent_london [] [] "London;Paris,FR"))
        no_files)
   = None /\
   read_text Info.WEATHER_DATA_FILE
     (disk_after (trace (Info.process_batch env_silent_london "London;Paris,FR")) no_files)
   = Some (dumps (JArr [paris_weather]))).
Proof.
  intros Hinput Hnet Hst.
  destruct (get_coordinates_object_body E q status member members Hnet Hst)
    as [Hinfo Hforecast].
  split; [| split].
  - intros Hbefore. now apply info_batch_ends_at_a_raise with (after := after).
  - intros Hbefore. now apply forecast_batch_ends_at_a_raise with (after := after).
  - repeat split; vm_compute; reflexivity.
Qed.

Lemma one_failure_can_end_the_batch_witness :
  (result (Info.process_batch env_two_cities "London;Nowhere;Paris,FR") = Raise KeyError /\
   requests_of (trace (Info.process_batch env_two_cities "London;Nowhere;Paris,FR"))
   = map (geo_request env_two_cities) ["London"; "Nowhere"] /\
   forall d,
     disk_after (trace (Info.process_batch env_two_cities "London;Nowhere;Paris,FR")) d = d)
  /\
  (result (Forecast.process_batch env_two_cities [] [] "London;Nowhere;Paris,FR")
   = Raise AttributeError /\
   requests_of (trace (Forecast.process_batch env_two_cities [] [] "London;Nowhere;Paris,FR"))
   = map (geo_request env_two_cities) ["London"; "Nowhere"] /\
   forall d,
     disk_after (trace (Forecast.process_batch env_two_cities [] [] "London;Nowhere;Paris,FR"))
       d = d).
Proof.
  destruct (one_failure_can_end_the_batch env_two_cities "London;Nowhere;Paris,FR"
              ["London"] "Nowhere" ["Paris,FR"] 200 ("cod", JInt 429)
              [("message", JStr "Too many requests")] eq_refl eq_refl eq_refl)
    as (Hinfo & Hforecast & _).
  split.
  - apply Hinfo. constructor; [| constructor]. eexists. reflexivity.
  - apply Hforecast. constructor; [| constructor]. eexists. reflexivity.
Defined.

(** Where every answer has the expected shape and every request is
    answered or fails, the failures are independent: the retrieval for
    London is answered with status 503, nothing is found for
    Nowhereville, and both scripts write the Locations of London and
    Paris and the record of Paris. *)
Lemma london_fails_info_contract :
  info_batch_contract env_london_fails (user_locations "London;Nowhereville;Paris,FR").
Proof.
  intros q Hq. cbv in Hq.
  destruct Hq as [<- | [<- | [<- | []]]]; cbv; intros _.
  - now exists [[("name", JStr "London"); ("lat", JFloat "51.5073219");
                 ("lon", JFloat "-0.1276474"); ("country", JStr "GB");
                 ("state", JStr "England")]].
  - now exists [].
  - now exists [[("name", JStr "Paris"); ("lat", JFloat "48.8588897");
                 ("lon", JFloat "2.3200410"); ("country", JStr "FR");
                 ("state", JStr "Ile-de-France")]].
Defined.

Example one_failed_retrieval_among_three_queries :
  let locations :=
    [london_info;
     location_of [("name", JStr "Paris"); ("lat", JFloat "48.8588897");
                  ("lon", JFloat "2.3200410"); ("country", JStr "FR");
                  ("state", JStr "Ile-de-France")]] in
  batch_artifacts
    (trace (Info.process_batch env_london_fails "London;Nowhereville;Paris,FR"))
    no_files Info.WEATHER_DATA_FILE locations [paris_weather]
    (map (geo_request env_london_fails) ["London"; "Nowhereville"; "Paris,FR"]
     ++ map (weather_request env_london_fails Info.weather_url) locations)
  /\
  batch_artifacts
    (trace (Forecast.process_batch env_london_fails [] [] "London;Nowhereville;Paris,FR"))
    no_files Forecast.FORECAST_FILE locations [paris_weather]
    (map (geo_request env_london_fails) ["London"; "Nowhereville"; "Paris,FR"]
     ++ map (weather_request env_london_fails Forecast.forecast_url) locations).
Proof.
  split.
  - apply (info_batch_artifacts env_london_fails "London;Nowhereville;Paris,FR" no_files
             london_fails_info_contract eq_refl eq_refl).
  - repeat split; vm_compute; reflexivity.
Qed.
(** ** Forecasts that draw nothing *)

Lemma get_weather_forecast_draws_nothing E c :
  every (fun e => is_plot e = false) (Forecast.get_weather_forecast E c).
Proof. unfold Forecast.get_weather_forecast. every_with ltac:(reflexivity). Qed.

Lemma filter_none {A} (f : A -> bool) l :
  Forall (fun x => f x = false) l -> filter f l = [].
Proof.
  induction 1 as [| x l Hx _ IH]; simpl; [reflexivity |]. now rewrite Hx.
Qed.

Lemma forecast_retrieve_step_dropped E c acc v t :
  Forecast.get_weather_forecast E c = (Ret v, t) -> truthy v = false ->
  Forecast.retrieve_step E c acc = (Ret acc, t).
Proof.
  intros Hcall Ht. unfold Forecast.retrieve_step. rewrite Hcall.
  unfold bind. cbn [fst snd]. rewrite Ht. cbn. rewrite List.app_nil_r. reflexivity.
Qed.

Lemma forecast_retrieve_step_recorded E c acc v t name tp :
  Forecast.get_weather_forecast E c = (Ret v, t) -> truthy v = true ->
  getitem c "name" = (Ret name, []) ->
  Forecast.plot_forecast E v name = (Ret tt, tp) ->
  Forecast.retrieve_step E c acc = (Ret (acc ++ [v])%list, (t ++ tp)%list).
Proof.
  intros Hcall Ht Hname Hplot. unfold Forecast.retrieve_step. rewrite Hcall.
  unfold bind at 1. cbn [fst snd]. rewrite Ht, Hname.
  unfold bind at 1. cbn [fst snd]. rewrite Hplot.
  unfold bind. cbn. rewrite !Hplot. cbn. now rewrite List.app_nil_r.
Qed.

(** A Location whose forecast was returned has a name. *)
Lemma forecast_returned_has_name E city_info forecast_data :
  result (Forecast.get_weather_forecast E city_info) = Ret forecast_data ->
  exists name, getitem city_info "name" = (Ret name, []).
Proof.
  destruct city_info as [ | | | | | | members]; try discriminate.
  unfold Forecast.get_weather_forecast, getitem.
  destruct (lookup "latitude" members); [| discriminate].
  destruct (lookup "longitude" members); [| discriminate].
  destruct (lookup "name" members) as [name |]; [| discriminate].
  intros _. now exists name.
Qed.

(** A forecast that is a true value, without a [list] or with an empty
    one, is recorded by its turn of the loop, which draws nothing. *)
Lemma forecast_without_list_recorded E city_info acc forecast_data :
  result (Forecast.get_weather_forecast E city_info) = Ret forecast_data ->
  truthy forecast_data = true ->
  list_missing_or_empty forecast_data ->
  result (Forecast.retrieve_step E city_info acc) = Ret (acc ++ [forecast_data])%list /\
  filter is_plot (trace (Forecast.retrieve_step E city_info acc)) = [].
Proof.
  intros Hres Ht Hlist.
  destruct (forecast_returned_has_name E city_info forecast_data Hres) as [name Hname].
  pose proof (get_weather_forecast_draws_nothing E city_info) as Hev. unfold every in Hev.
  destruct (Forecast.get_weather_forecast E city_info) as [r t] eqn:Hcall.
  unfold result, trace in Hres, Hev. cbn [fst snd] in Hres, Hev. subst r.
  rewrite (forecast_retrieve_step_recorded E city_info acc _ _ _ _ Hcall Ht Hname
             (plot_forecast_notice E _ _ Hlist)).
  split; [reflexivity |]. unfold trace. cbn [snd].
  rewrite filter_app, (filter_none _ _ Hev). reflexivity.
Qed.

Lemma forecast_file_of_a_returning_batch E user_input before :
  result (Forecast.process_batch E [] [] user_input) = Ret tt ->
  write_fails E Forecast.FORECAST_FILE = false ->
  read_text Forecast.FORECAST_FILE
    (disk_after (trace (Forecast.process_batch E [] [] user_input)) before)
  = Some (dumps (JArr (forecast_records E
                         (forecast_locations E (user_locations user_input))))).
Proof.
  intros Hret Hw.
  rewrite (proj2 (forecast_batch_runs E user_input) tt Hret).
  unfold forecast_batch_events. rewrite (save_json_written E _ _ Hw).
  rewrite !List.app_assoc. apply disk_after_last_write.
Qed.

(** C10, as stated, fails: a forecast served as the empty object decodes
    and is returned by [get_weather_forecast], its [list] is missing, and
    it is not recorded: the forecasts file holds the empty list. *)
Lemma empty_forecast_object_is_not_recorded :
  net env_empty_forecast
    (weather_request env_empty_forecast Forecast.forecast_url london_info)
  = Responds 200 (Some (JObj []))
  /\
  result (Forecast.get_weather_forecast env_empty_forecast london_info) = Ret (JObj [])
  /\
  list_missing_or_empty (JObj [])
  /\
  result (Forecast.retrieve_step env_empty_forecast london_info []) = Ret []
  /\
  read_text Forecast.FORECAST_FILE
    (disk_after (trace (Forecast.main env_empty_forecast ["London"])) no_files)
  = Some "[]".
Proof.
  repeat split; try reflexivity.
  exists []. split; [reflexivity | now left].
Qed.

(** A forecast served as the number 42 decodes to a true value and is
    appended to the list, but [plot_forecast] raises [TypeError] on it
    and the batch ends before the forecasts file is written. *)
Example number_forecast_ends_the_batch :
  result (Forecast.get_weather_forecast env_number_forecast london_info) = Ret (JInt 42)
  /\
  result (Forecast.process_batch env_number_forecast [] [] "London") = Raise TypeError
  /\
  read_text Forecast.FORECAST_FILE
    (disk_after (trace (Forecast.process_batch env_number_forecast [] [] "London")) no_files)
  = None.
Proof. repeat split; vm_compute; reflexivity. Qed.

(** C10, amended. In a batch of the forecast script that runs to its
    end and whose forecasts file can be written, the file holds the
    forecasts that were returned as true values (for a JSON object: a
    non-empty one), in the order of their Locations. Such a forecast is
    in the file even when its [list] is missing or empty, although the
    turn of its city draws no series. A forecast that decodes to a false
    value, such as the empty object, is not in the file: its turn leaves
    the list as it was. *)
Theorem true_forecasts_are_recorded_without_list
    (E : env) (user_input : string) (before : disk) :
  result (Forecast.process_batch E [] [] user_input) = Ret tt ->
  write_fails E Forecast.FORECAST_FILE = false ->
  let locations := forecast_locations E (user_locations user_input) in
  read_text Forecast.FORECAST_FILE
    (disk_after (trace (Forecast.process_batch E [] [] user_input)) before)
  = Some (dumps (JArr (forecast_records E locations)))
  /\
  forall city_info forecast_data,
    In city_info locations ->
    result (Forecast.get_weather_forecast E city_info) = Ret forecast_data ->
    (truthy forecast_data = true ->
     In forecast_data (forecast_records E locations) /\
     (list_missing_or_empty forecast_data ->
      forall acc,
        result (Forecast.retrieve_step E city_info acc)
        = Ret (acc ++ [forecast_data])%list /\
        filter is_plot (trace (Forecast.retrieve_step E city_info acc)) = []))
    /\
    (truthy forecast_data = false ->
     ~ In forecast_data (forecast_records E locations) /\
     forall acc,
       Forecast.retrieve_step E city_info acc
       = (Ret acc, trace (Forecast.get_weather_forecast E city_info))).
Proof.
  intros Hret Hw locations. split.
  - now apply forecast_file_of_a_returning_batch.
  - intros city_info forecast_data Hin Hres. split.
    + intros Ht. split.
      * apply in_flat_map. exists city_info. split; [exact Hin |].
        rewrite (appended_kept _ _ Hres Ht). now left.
      * intros Hlist acc. now apply forecast_without_list_recorded.
    + intros Ht. split.
      * intros Hrec. apply in_flat_map in Hrec as [c [_ Hc]].
        apply appended_inv in Hc as [_ Hc]. congruence.
      * intros acc.
        destruct (Forecast.get_weather_forecast E city_info) as [r t] eqn:Hcall.
        unfold result in Hres. cbn [fst] in Hres. subst r.
        unfold trace. cbn [snd].
        now apply forecast_retrieve_step_dropped with (v := forecast_data).
Qed.

Lemma true_forecasts_witness :
  read_text Forecast.FORECAST_FILE
    (disk_after (trace (Forecast.process_batch env_forecast_without_list [] [] "London"))
       no_files)
  = Some (dumps (JArr [forecast_without_list]))
  /\
  In forecast_without_list
     (forecast_records env_forecast_without_list
        (forecast_locations env_forecast_without_list (user_locations "London")))
  /\
  (forall acc,
      result (Forecast.retrieve_step env_forecast_without_list london_info acc)
      = Ret (acc ++ [forecast_without_list])%list /\
      filter is_plot (trace (Forecast.retrieve_step env_forecast_without_list london_info acc))
      = []).
Proof.
  destruct (true_forecasts_are_recorded_without_list env_forecast_without_list
              "London" no_files eq_refl eq_refl) as [Hfile Hcities].
  assert (Hin : In london_info
                  (forecast_locations env_forecast_without_list (user_locations "London"))).
  { vm_compute. now left. }
  destruct (Hcities london_info forecast_without_list Hin eq_refl) as [Htrue _].
  destruct (Htrue eq_refl) as [Hrec Hturn].
  split; [exact Hfile | split; [exact Hrec |]].
  apply Hturn. exists [("cod", JStr "200"); ("message", JInt 0); ("cnt", JInt 0)].
  split; [reflexivity | now left].
Defined.

(** ** Failed requests *)

(** The error message is the third event of the call. *)
Ltac error_message_found :=
  eexists; split;
  [ right; right; left; reflexivity
  | do 2 eexists; split;
    [ reflexivity
    | split; [ simpl; tauto | simpl; repeat (first [left; reflexivity | right]) ] ] ].

(** Where a timeout is passed, as in the snapshot script, every failed
    request ends in [None] and a message that names the city. *)
Lemma info_failed_requests_are_absent E :
  (forall location,
      request_fails (net E (geo_request E location)) ->
      result (Info.get_coordinates E location) = Ret JNull /\
      exists e, In e (trace (Info.get_coordinates E location)) /\
                error_message (JStr (fst (parse_location location))) e)
  /\
  (forall members,
      request_fails (net E (weather_request E Info.weather_url (location_of members))) ->
      result (Info.get_weather_data E (location_of members)) = Ret JNull /\
      exists e, In e (trace (Info.get_weather_data E (location_of members))) /\
                error_message (get members "name") e).
Proof.
  split.
  - intros location. unfold request_fails, Info.get_coordinates, requests_get.
    fold (geo_request E location).
    destruct (parse_location location) as [city cc]. cbn [fst].
    destruct (net E (geo_request E location)) as [ | | status body].
    + intros _. split; [reflexivity |]. cbn. error_message_found.
    + intros _. split; [reflexivity |]. cbn. error_message_found.
    + unfold status_passes, raise_for_status. cbn.
      destruct ((400 <=? status) && (status <? 600)).
      * intros _. split; [reflexivity |]. cbn. error_message_found.
      * intros [H | ->]; [discriminate |].
        unfold response_json; cbn [payload].
        destruct (legacy_json_error E); (split; [reflexivity |]); cbn;
          error_message_found.
  - intros members. unfold request_fails, Info.get_weather_data, requests_get.
    cbn -[weather_params].
    destruct (net E _) as [ | | status body].
    + intros _. split; [reflexivity |]. cbn. error_message_found.
    + intros _. split; [reflexivity |]. cbn. error_message_found.
    + unfold status_passes, raise_for_status. cbn -[weather_params].
      destruct ((400 <=? status) && (status <? 600)).
      * intros _. split; [reflexivity |]. cbn. error_message_found.
      * intros [H | ->]; [discriminate |].
        unfold response_json; cbn [payload].
        destruct (legacy_json_error E); (split; [reflexivity |]); cbn;
          error_message_found.
Qed.

(** The forecast script does the same for the failures that
    [requests.get] reports; a request that is never answered is not one
    of them. *)
Lemma forecast_reported_failures_are_absent E :
  (forall location,
      request_fails (net E (geo_request E location)) ->
      net E (geo_request E location) <> Stalls ->
      result (Forecast.get_coordinates E location) = Ret JNull /\
      exists e, In e (trace (Forecast.get_coordinates E location)) /\
                error_message (JStr (fst (parse_location location))) e)
  /\
  (forall members,
      request_fails (net E (weather_request E Forecast.forecast_url (location_of members))) ->
      net E (weather_request E Forecast.forecast_url (location_of members)) <> Stalls ->
      result (Forecast.get_weather_forecast E (location_of members)) = Ret JNull /\
      exists e, In e (trace (Forecast.get_weather_forecast E (location_of members))) /\
                error_message (get members "name") e).
Proof.
  split.
  - intros location. unfold request_fails, Forecast.get_coordinates, requests_get.
    fold (geo_request E location).
    destruct (parse_location location) as [city cc]. cbn [fst].
    destruct (net E (geo_request E location)) as [ | | status body].
    + intros _ _. split; [reflexivity |]. cbn. error_message_found.
    + intros _ H. now contradiction H.
    + unfold status_passes, raise_for_status. cbn.
      destruct ((400 <=? status) && (status <? 600)).
      * intros _ _. split; [reflexivity |]. cbn. error_message_found.
      * intros [H | ->] _; [discriminate |].
        unfold response_json; cbn [payload].
        destruct (legacy_json_error E); (split; [reflexivity |]); cbn;
          error_message_found.
  - intros members. unfold request_fails, Forecast.get_weather_forecast, requests_get.
    cbn -[weather_params].
    destruct (net E _) as [ | | status body].
    + intros _ _. split; [reflexivity |]. cbn. error_message_found.
    + intros _ H. now contradiction H.
    + unfold status_passes, raise_for_status. cbn -[weather_params].
      destruct ((400 <=? status) && (status <? 600)).
      * intros _ _. split; [reflexivity |]. cbn. error_message_found.
      * intros [H | ->] _; [discriminate |].
        unfold response_json; cbn [payload].
        destruct (legacy_json_error E); (split; [reflexivity |]); cbn;
          error_message_found.
Qed.

(** ** From the input line to the queries *)

Lemma split_no_separator sep p :
  contains sep p = false -> split sep p = [p].
Proof.
  induction p as [| c p IH]; simpl; [reflexivity |].
  intros H. apply orb_false_iff in H as [Hc Hp]. rewrite Hc, (IH Hp). reflexivity.
Qed.

Lemma split_app_separator sep p rest :
  contains sep p = false ->
  split sep (p ++ String sep rest) = p :: split sep rest.
Proof.
  induction p as [| c p IH]; simpl.
  - intros _. now rewrite Ascii.eqb_refl.
  - intros H. apply orb_false_iff in H as [Hc Hp]. rewrite Hc, (IH Hp). reflexivity.
Qed.

(** Cutting a joined text gives the parts back. *)
Lemma split_join sep parts :
  parts <> [] -> Forall (fun p => contains sep p = false) parts ->
  split sep (join sep parts) = parts.
Proof.
  intros Hne H. induction H as [| p r Hp Hr IH]; [congruence |].
  destruct r as [| q r'].
  - simpl. now apply split_no_separator.
  - change (join sep (p :: q :: r')) with (p ++ String sep (join sep (q :: r'))).
    rewrite (split_app_separator sep p _ Hp). f_equal. apply IH. discriminate.
Qed.

Lemma split_not_nil sep s : split sep s <> [].
Proof.
  destruct s as [| c r]; simpl; [discriminate |].
  destruct (Ascii.eqb c sep); [discriminate |]. destruct (split sep r); discriminate.
Qed.

(** Every text is the join of its parts, and no part has the separator:
    the two lemmas above speak of every input. *)
Lemma join_split sep s :
  join sep (split sep s) = s /\ Forall (fun p => contains sep p = false) (split sep s).
Proof.
  induction s as [| c r [IHj IHf]]; simpl.
  - split; [reflexivity | repeat constructor].
  - destruct (Ascii.eqb c sep) eqn:Hc.
    + apply Ascii.eqb_eq in Hc as ->. split.
      * pose proof (split_not_nil sep r) as Hne.
        destruct (split sep r) as [| p ps]; [congruence |].
        change (join sep (EmptyString :: p :: ps))
          with (String sep (join sep (p :: ps))).
        now rewrite IHj.
      * constructor; [reflexivity | exact IHf].
    + pose proof (split_not_nil sep r) as Hne.
      destruct (split sep r) as [| p ps]; [congruence |].
      apply Forall_cons_iff in IHf as [Hp Hps]. split.
      * destruct ps as [| q qs]; [simpl in *; now rewrite IHj |].
        change (join sep (String c p :: q :: qs))
          with (String c (p ++ String sep (join sep (q :: qs)))).
        change (join sep (p :: q :: qs))
          with (p ++ String sep (join sep (q :: qs))) in IHj.
        now rewrite IHj.
      * constructor; [simpl; now rewrite Hc, Hp | exact Hps].
Qed.

Lemma to_upper_idempotent c : to_upper (to_upper c) = to_upper c.
Proof. destruct c as [[] [] [] [] [] [] [] []]; reflexivity. Qed.

Lemma to_upper_to_lower c : to_upper (to_lower c) = to_upper c.
Proof. destruct c as [[] [] [] [] [] [] [] []]; reflexivity. Qed.

(** Upper-casing a title-cased text is upper-casing the text: the
    country code, taken from the title-cased parts, is upper-cased. *)
Lemma upper_title_from previous s : upper (title_from previous s) = upper s.
Proof.
  revert previous. induction s as [| c r IH]; intros previous; simpl; [reflexivity |].
  destruct (is_cased c); simpl; rewrite IH; [| reflexivity].
  destruct previous; [now rewrite to_upper_to_lower | now rewrite to_upper_idempotent].
Qed.

Lemma parse_location_join parts :
  parts <> [] -> Forall (fun p => contains "," p = false) parts ->
  parse_location (join "," parts) = query_of_parts parts.
Proof.
  intros Hne Hparts. unfold parse_location, location_parts, query_of_parts.
  rewrite (split_join _ _ Hne Hparts).
  destruct parts as [| c [| p r]]; [congruence | reflexivity |].
  simpl. unfold title. now rewrite upper_title_from.
Qed.


(** The two lines that [main] turns away before it cuts anything. *)
Lemma parse_turns_away raw :
  parse raw = None <-> raw = EmptyString \/ raw = "quit".
Proof.
  unfold parse, starts_batch.
  destruct (raw =? "quit")%string eqn:Hq; destruct (raw =? EmptyString)%string eqn:He;
    cbn [negb andb]; split; intros H; try discriminate; try reflexivity.
  - left. now apply String.eqb_eq.
  - right. now apply String.eqb_eq.
  - left. now apply String.eqb_eq.
  - destruct H as [H | H]; [apply String.eqb_neq in He | apply String.eqb_neq in Hq];
      contradiction.
Qed.




(** Every line is the join of its segments, and every segment the join
    of its parts: the theorem speaks of every line that [main] parses. *)
Lemma every_line_has_segments_and_parts raw :
  exists segments parts,
    raw = join ";" segments /\
    segments <> [] /\
    Forall (fun s => contains ";" s = false) segments /\
    Forall2 (fun s ps => strip s = join "," ps /\ ps <> [] /\
                         Forall (fun p => contains "," p = false) ps)
            segments parts.
Proof.
  exists (split ";" raw), (map (fun s => split "," (strip s)) (split ";" raw)).
  destruct (join_split ";" raw) as [Hj Hf].
  split; [now symmetry | split; [apply split_not_nil | split; [exact Hf |]]].
  clear. induction (split ";" raw) as [| s r IH]; cbn [map]; constructor; [| exact IH].
  destruct (join_split "," (strip s)) as [Hj Hf].
  split; [now symmetry | split; [apply split_not_nil | exact Hf]].
Qed.

(** ** Writing JSON and reading it back *)

Lemma append_assoc (a b c : string) : (a ++ b) ++ c = a ++ (b ++ c).
Proof. induction a as [| x a IH]; simpl; [reflexivity | now rewrite IH]. Qed.

Lemma append_nil_r (a : string) : a ++ EmptyString = a.
Proof. induction a as [| x a IH]; simpl; [reflexivity | now rewrite IH]. Qed.

Lemma length_append (a b : string) :
  String.length (a ++ b) = (String.length a + String.length b)%nat.
Proof. induction a as [| x a IH]; simpl; [reflexivity | now rewrite IH]. Qed.

(** *** Blanks *)

Lemma skip_ws_spaces n s : skip_ws (spaces n ++ s) = skip_ws s.
Proof. induction n as [| n IH]; simpl; [reflexivity | exact IH]. Qed.

Lemma skip_ws_newline_indent level s :
  skip_ws (newline_indent level ++ s) = skip_ws s.
Proof. unfold newline_indent. simpl. apply skip_ws_spaces. Qed.

Lemma skip_ws_head c r : is_ws c = false -> skip_ws (String c r) = String c r.
Proof. intros H. simpl. now rewrite H. Qed.

(** *** Strings *)

Lemma scanstring_escape_char c tail :
  scanstring (escape_char c ++ tail) = cons_to c (scanstring tail).
Proof. destruct c as [[] [] [] [] [] [] [] []]; reflexivity. Qed.

Lemma scanstring_escape s rest :
  scanstring (escape s ++ String dquote rest) = Some (s, rest).
Proof.
  induction s as [| c s IH]; simpl.
  - reflexivity.
  - rewrite append_assoc, scanstring_escape_char, IH. reflexivity.
Qed.

Lemma scanstring_basestring s rest :
  exists r,
    encode_basestring_ascii s ++ rest = String dquote r /\
    scanstring r = Some (s, rest).
Proof.
  exists (escape s ++ String dquote rest). split.
  - unfold encode_basestring_ascii. simpl. now rewrite append_assoc.
  - apply scanstring_escape.
Qed.

(** *** Numbers *)

Lemma terminated_not_digit c r : terminated (String c r) -> is_digit c = false.
Proof. intros [-> | ->]; reflexivity. Qed.

Lemma span_digits_split s d t : span_digits s = (d, t) -> s = d ++ t.
Proof.
  revert d t. induction s as [| c r IH]; simpl; intros d t H.
  - now injection H as <- <-.
  - destruct (is_digit c).
    + destruct (span_digits r) as [d' t']. injection H as <- <-.
      simpl. f_equal. now apply IH.
    + now injection H as <- <-.
Qed.

Lemma span_digits_app s d t rest :
  span_digits s = (d, t) -> terminated rest ->
  span_digits (s ++ rest) = (d, t ++ rest).
Proof.
  intros H Hrest. revert d t H. induction s as [| c r IH]; simpl; intros d t H.
  - injection H as <- <-. destruct rest as [| c r]; [reflexivity |].
    simpl. now rewrite (terminated_not_digit c r Hrest).
  - destruct (is_digit c).
    + destruct (span_digits r) as [d' t']. injection H as <- <-.
      now rewrite (IH d' t' eq_refl).
    + now injection H as <- <-.
Qed.

Lemma scan_unsigned_split s d t : scan_unsigned s = Some (d, t) -> s = d ++ t.
Proof.
  destruct s as [| c r]; simpl; [discriminate |].
  destruct (Ascii.eqb c "0") eqn:Hc.
  - intros [= <- <-]. apply Ascii.eqb_eq in Hc as ->. reflexivity.
  - destruct (is_digit c); [| discriminate].
    destruct (span_digits r) as [d' t'] eqn:Hs. intros [= <- <-].
    simpl. f_equal. now apply span_digits_split.
Qed.

Lemma scan_unsigned_app s d t rest :
  scan_unsigned s = Some (d, t) -> terminated rest ->
  scan_unsigned (s ++ rest) = Some (d, t ++ rest).
Proof.
  destruct s as [| c r]; simpl; [discriminate |].
  destruct (Ascii.eqb c "0").
  - now intros [= <- <-] _.
  - destruct (is_digit c); [| discriminate].
    destruct (span_digits r) as [d' t'] eqn:Hs. intros [= <- <-] Hrest.
    now rewrite (span_digits_app r d' t' rest Hs Hrest).
Qed.

Lemma scan_integer_split s i t : scan_integer s = Some (i, t) -> s = i ++ t.
Proof.
  destruct s as [| c r]; simpl; [discriminate |].
  destruct (Ascii.eqb c "-") eqn:Hc.
  - destruct (scan_unsigned r) as [[d t'] |] eqn:Hu; [| discriminate].
    intros [= <- <-]. apply Ascii.eqb_eq in Hc as ->. simpl. f_equal.
    now apply scan_unsigned_split.
  - apply (scan_unsigned_split (String c r)).
Qed.

Lemma scan_integer_app s i t rest :
  scan_integer s = Some (i, t) -> terminated rest ->
  scan_integer (s ++ rest) = Some (i, t ++ rest).
Proof.
  destruct s as [| c r]; simpl; [discriminate |].
  destruct (Ascii.eqb c "-").
  - destruct (scan_unsigned r) as [[d t'] |] eqn:Hu; [| discriminate].
    intros [= <- <-] Hrest. now rewrite (scan_unsigned_app r d t' rest Hu Hrest).
  - apply (scan_unsigned_app (String c r)).
Qed.

Lemma scan_frac_split s f t : scan_frac s = (f, t) -> s = f ++ t.
Proof.
  destruct s as [| c r]; simpl; [now intros [= <- <-] |].
  destruct (Ascii.eqb c ".") eqn:Hc; [| now intros [= <- <-]].
  destruct (span_digits r) as [[| x d] t'] eqn:Hs; intros [= <- <-]; [reflexivity |].
  apply Ascii.eqb_eq in Hc as ->. simpl. f_equal.
  exact (span_digits_split r (String x d) t' Hs).
Qed.

Lemma scan_frac_app s f t rest :
  scan_frac s = (f, t) -> terminated rest ->
  scan_frac (s ++ rest) = (f, t ++ rest).
Proof.
  destruct s as [| c r]; simpl.
  - intros [= <- <-] Hrest. destruct rest as [| c r]; [reflexivity |].
    destruct Hrest as [-> | ->]; reflexivity.
  - destruct (Ascii.eqb c "."); [| now intros [= <- <-]].
    destruct (span_digits r) as [d t'] eqn:Hs. intros H Hrest.
    rewrite (span_digits_app r d t' rest Hs Hrest).
    destruct d; now injection H as <- <-.
Qed.

Lemma scan_sign_split s sg t : scan_sign s = (sg, t) -> s = sg ++ t.
Proof.
  destruct s as [| c r]; simpl; [now intros [= <- <-] |].
  destruct (_ || _); now intros [= <- <-].
Qed.

Lemma scan_exp_split s e t : scan_exp s = (e, t) -> s = e ++ t.
Proof.
  destruct s as [| c r]; simpl; [now intros [= <- <-] |].
  destruct (_ || _); [| now intros [= <- <-]].
  destruct (scan_sign r) as [sg r1] eqn:Hsg.
  destruct (span_digits r1) as [[| x d] t'] eqn:Hs; intros [= <- <-]; [reflexivity |].
  simpl. f_equal. rewrite (scan_sign_split _ _ _ Hsg) at 1.
  rewrite (span_digits_split _ _ _ Hs) at 1. now rewrite append_assoc.
Qed.

Lemma scan_sign_app r sg r1 rest :
  scan_sign r = (sg, r1) -> terminated rest ->
  scan_sign (r ++ rest) = (sg, r1 ++ rest).
Proof.
  destruct r as [| c r]; simpl.
  - intros [= <- <-] Hrest. destruct rest as [| c r]; [reflexivity |].
    destruct Hrest as [-> | ->]; reflexivity.
  - destruct (_ || _); now intros [= <- <-].
Qed.

Lemma scan_exp_app s e t rest :
  scan_exp s = (e, t) -> terminated rest ->
  scan_exp (s ++ rest) = (e, t ++ rest).
Proof.
  destruct s as [| c r]; simpl.
  - intros [= <- <-] Hrest. destruct rest as [| c r]; [reflexivity |].
    destruct Hrest as [-> | ->]; reflexivity.
  - destruct (_ || _); [| now intros [= <- <-]].
    destruct (scan_sign r) as [sg r1] eqn:Hsg.
    destruct (span_digits r1) as [d t'] eqn:Hs. intros H Hrest.
    rewrite (scan_sign_app r sg r1 rest Hsg Hrest).
    rewrite (span_digits_app r1 d t' rest Hs Hrest).
    destruct d; now injection H as <- <-.
Qed.

(** A float literal is read back whole. *)
Lemma match_number_float l rest :
  is_float_literal l = true -> terminated rest ->
  match_number (l ++ rest) = Some (JFloat l, rest).
Proof.
  unfold is_float_literal, match_number. intros H Hrest.
  destruct (scan_integer l) as [[i s1] |] eqn:Hi; [| discriminate].
  destruct (scan_frac s1) as [f s2] eqn:Hf.
  destruct (scan_exp s2) as [e s3] eqn:He.
  apply andb_true_iff in H as [H3 Hfe]. apply String.eqb_eq in H3. subst s3.
  rewrite (scan_integer_app l i s1 rest Hi Hrest).
  rewrite (scan_frac_app s1 f s2 rest Hf Hrest).
  rewrite (scan_exp_app s2 e EmptyString rest He Hrest). simpl.
  assert (Hl : l = i ++ f ++ e).
  { rewrite (scan_integer_split _ _ _ Hi), (scan_frac_split _ _ _ Hf),
      (scan_exp_split _ _ _ He) at 1. now rewrite append_nil_r. }
  rewrite <- Hl.
  destruct f; [| reflexivity]. destruct e; [discriminate | reflexivity].
Qed.

Lemma span_digits_uint d :
  span_digits (DecimalString.NilEmpty.string_of_uint d)
  = (DecimalString.NilEmpty.string_of_uint d, EmptyString).
Proof. induction d; simpl; rewrite ?IHd; reflexivity. Qed.

Lemma nzhead_head d :
  match Decimal.nzhead d with
  | Decimal.D0 _ => False
  | _ => True
  end.
Proof. induction d; simpl; auto. Qed.

(** The digits of a positive number do not start with a zero. *)
Lemma to_uint_head p :
  match Pos.to_uint p with
  | Decimal.Nil | Decimal.D0 _ => False
  | _ => True
  end.
Proof.
  pose proof (DecimalPos.Unsigned.to_of (Pos.to_uint p)) as H.
  rewrite DecimalPos.Unsigned.of_to in H. simpl in H.
  pose proof (DecimalPos.Unsigned.to_uint_nonzero p) as Hz.
  pose proof (DecimalPos.Unsigned.to_uint_nonnil p) as Hn.
  pose proof (nzhead_head (Pos.to_uint p)) as Hh.
  unfold Decimal.unorm in H.
  destruct (Decimal.nzhead (Pos.to_uint p)) eqn:Hnz;
    rewrite H in *; try exact I; contradiction.
Qed.

Lemma scan_integer_int_repr z :
  scan_integer (int_repr z) = Some (int_repr z, EmptyString).
Proof.
  unfold int_repr. destruct z as [| p | p]; simpl.
  - reflexivity.
  - pose proof (to_uint_head p) as H.
    destruct (Pos.to_uint p) as [| d | d | d | d | d | d | d | d | d | d];
      try contradiction; simpl; rewrite span_digits_uint; reflexivity.
  - pose proof (to_uint_head p) as H.
    destruct (Pos.to_uint p) as [| d | d | d | d | d | d | d | d | d | d];
      try contradiction; simpl; rewrite span_digits_uint; reflexivity.
Qed.

Lemma parse_int_int_repr z : parse_int (int_repr z) = z.
Proof.
  unfold parse_int, int_repr. rewrite DecimalString.NilZero.isi.
  - apply DecimalZ.of_to.
  - destruct z; simpl; try discriminate.
    intros [= H]. now apply (DecimalPos.Unsigned.to_uint_nonnil p).
  - destruct z; simpl; try discriminate.
    intros [= H]. now apply (DecimalPos.Unsigned.to_uint_nonnil p).
Qed.

(** An integer is read back. *)
Lemma match_number_int z rest :
  terminated rest -> match_number (int_repr z ++ rest) = Some (JInt z, rest).
Proof.
  intros Hrest. unfold match_number.
  rewrite (scan_integer_app _ _ _ rest (scan_integer_int_repr z) Hrest).
  rewrite (scan_frac_app EmptyString _ _ rest eq_refl Hrest).
  rewrite (scan_exp_app EmptyString _ _ rest eq_refl Hrest).
  simpl. now rewrite parse_int_int_repr.
Qed.

(** A number starts with a minus sign or a digit, and [scan_once] hands
    such a text to [match_number]. *)
Lemma scan_integer_head s i t :
  scan_integer s = Some (i, t) ->
  exists c r, s = String c r /\ (c = "-"%char \/ is_digit c = true).
Proof.
  destruct s as [| c r]; simpl; [discriminate |]. intros H. exists c, r.
  split; [reflexivity |].
  destruct (Ascii.eqb c "-") eqn:Hc; [left; now apply Ascii.eqb_eq |].
  right. destruct (Ascii.eqb c "0") eqn:H0.
  - apply Ascii.eqb_eq in H0 as ->. reflexivity.
  - destruct (is_digit c); [reflexivity | discriminate].
Qed.

Lemma scan_once_number n c r :
  c = "-"%char \/ is_digit c = true ->
  scan_once (S n) (String c r) = match_number (String c r).
Proof.
  destruct c as [[] [] [] [] [] [] [] []]; intros [H | H];
    try discriminate H; reflexivity.
Qed.

Lemma number_head_is_value c :
  c = "-"%char \/ is_digit c = true ->
  is_ws c = false /\ Ascii.eqb c "]" = false.
Proof.
  destruct c as [[] [] [] [] [] [] [] []]; intros [H | H];
    try discriminate H; split; reflexivity.
Qed.

(** *** Lists and dicts *)

Lemma items_tail_unfold level xs :
  (fix rest (l : list json) : string :=
     match l with
     | [] => newline_indent level ++ "]"
     | y :: r => "," ++ newline_indent (S level) ++ encode (S level) y ++ rest r
     end) xs
  = items_tail level xs.
Proof.
  induction xs as [| y r IH]; [reflexivity |].
  cbn [items_tail]. rewrite <- IH. reflexivity.
Qed.

Lemma members_tail_unfold level kvs :
  (fix rest (l : list (string * json)) : string :=
     match l with
     | [] => newline_indent level ++ "}"
     | (k', y) :: r =>
         "," ++ newline_indent (S level)
         ++ encode_basestring_ascii k' ++ ": " ++ encode (S level) y ++ rest r
     end) kvs
  = members_tail level kvs.
Proof.
  induction kvs as [| [k y] r IH]; [reflexivity |].
  cbn [members_tail]. rewrite <- IH. reflexivity.
Qed.

Lemma encode_list level x xs :
  encode level (JArr (x :: xs))
  = String "[" (newline_indent (S level) ++ encode (S level) x ++ items_tail level xs).
Proof. rewrite <- items_tail_unfold. reflexivity. Qed.

Lemma encode_dict level k x kvs :
  encode level (JObj ((k, x) :: kvs))
  = String "{" (newline_indent (S level) ++ encode_basestring_ascii k
                ++ ": " ++ encode (S level) x ++ members_tail level kvs).
Proof. rewrite <- members_tail_unfold. reflexivity. Qed.

Lemma terminated_items_tail level xs rest :
  terminated (items_tail level xs ++ rest).
Proof. destruct xs; simpl; [now right | now left]. Qed.

Lemma terminated_members_tail level kvs rest :
  terminated (members_tail level kvs ++ rest).
Proof. destruct kvs as [| [k y] r]; simpl; [now right | now left]. Qed.

(** A value does not start with a blank or with a closing bracket. *)
Lemma encode_head level v :
  serializable v = true ->
  exists c r,
    encode level v = String c r /\ is_ws c = false /\ Ascii.eqb c "]" = false.
Proof.
  destruct v as [| [] | z | l | s | [| x xs] | [| [k x] kvs]]; intros Hv;
    try (do 2 eexists; split; [reflexivity | split; reflexivity]).
  - destruct (scan_integer_head _ _ _ (scan_integer_int_repr z)) as [c [r [Hz Hc]]].
    exists c, r. split; [exact Hz | now apply number_head_is_value].
  - simpl in Hv. unfold is_float_literal in Hv.
    destruct (scan_integer l) as [[i t] |] eqn:Hi; [| discriminate].
    destruct (scan_integer_head _ _ _ Hi) as [c [r [Hl Hc]]].
    exists c, r. split; [exact Hl | now apply number_head_is_value].
Qed.

Lemma skip_ws_value level v rest :
  serializable v = true ->
  exists c r,
    encode level v ++ rest = String c r /\
    skip_ws (encode level v ++ rest) = String c r /\
    Ascii.eqb c "]" = false.
Proof.
  intros Hv. destruct (encode_head level v Hv) as [c [r [He [Hws Hc]]]].
  exists c, (r ++ rest). rewrite He. simpl. rewrite Hws. auto.
Qed.

(** [dict(pairs)] of pairs with distinct keys is the pairs. *)
Lemma dict_set_new d key v :
  existsb (String.eqb key) (keys d) = false ->
  dict_set d key v = (d ++ [(key, v)])%list.
Proof.
  induction d as [| [k x] r IH]; simpl; [reflexivity |].
  intros H. apply orb_false_iff in H as [Hk Hr].
  rewrite String.eqb_sym, Hk. now rewrite (IH Hr).
Qed.

Lemma existsb_app_false {A} (f : A -> bool) l1 l2 :
  existsb f l1 = false -> existsb f l2 = false -> existsb f (l1 ++ l2) = false.
Proof. intros H1 H2. now rewrite existsb_app, H1, H2. Qed.

Lemma dict_of_pairs_from acc pairs :
  distinct (keys acc ++ keys pairs) = true ->
  fold_left (fun d kv => dict_set d (fst kv) (snd kv)) pairs acc
  = (acc ++ pairs)%list.
Proof.
  revert acc. induction pairs as [| [k v] r IH]; intros acc H; simpl.
  - now rewrite List.app_nil_r.
  - assert (Hk : existsb (String.eqb k) (keys acc) = false).
    { clear IH. induction acc as [| [k0 v0] acc IHa]; simpl in *; [reflexivity |].
      apply andb_true_iff in H as [Hk0 Hd].
      apply negb_true_iff in Hk0. rewrite existsb_app in Hk0.
      apply orb_false_iff in Hk0 as [_ Hk0]. simpl in Hk0.
      apply orb_false_iff in Hk0 as [Hk0 _].
      rewrite String.eqb_sym, Hk0. simpl. now apply IHa. }
    rewrite (dict_set_new acc k v Hk). rewrite IH.
    + now rewrite <- List.app_assoc.
    + unfold keys in *. rewrite map_app. simpl. rewrite <- List.app_assoc. exact H.
Qed.

Lemma dict_of_pairs_distinct pairs :
  distinct (keys pairs) = true -> dict_of_pairs pairs = pairs.
Proof. intros H. unfold dict_of_pairs. now rewrite dict_of_pairs_from. Qed.

Lemma scan_once_list n body c1 r1 :
  skip_ws body = String c1 r1 -> Ascii.eqb c1 "]" = false ->
  scan_once (S n) (String "[" body)
  = match JSONArray n (String c1 r1) with
    | Some (values, r2) => Some (JArr values, r2)
    | None => None
    end.
Proof. intros H1 H2. simpl. now rewrite H1, H2. Qed.

Lemma scan_once_dict n body r1 :
  skip_ws body = String dquote r1 ->
  scan_once (S n) (String "{" body)
  = match JSONObject n (String dquote r1) with
    | Some (pairs, r2) => Some (JObj (dict_of_pairs pairs), r2)
    | None => None
    end.
Proof. intros H1. simpl. now rewrite H1. Qed.

(** The items of a list: each is read back, then the comma and the
    indentation, up to the closing bracket. *)
Lemma JSONArray_items xs :
  Forall decodes_back xs -> forallb serializable xs = true ->
  forall x level fuel rest,
    decodes_back x -> serializable x = true ->
    (S (size x + items_size xs) <= fuel)%nat ->
    JSONArray fuel (encode (S level) x ++ items_tail level xs ++ rest)
    = Some (x :: xs, rest).
Proof.
  induction 1 as [| y r Hy _ IH]; intros Hser x level fuel rest Hx Hsx Hfuel.
  - destruct fuel as [| n]; [lia |]. simpl in Hfuel.
    cbn [JSONArray]. rewrite (Hx (S level) n _ ltac:(lia) (terminated_items_tail level [] rest)).
    cbn [items_tail]. rewrite append_assoc, skip_ws_newline_indent. reflexivity.
  - destruct fuel as [| n]; [lia |]. cbn [items_size fold_right] in Hfuel.
    fold (items_size r) in Hfuel.
    cbn [forallb] in Hser. apply andb_true_iff in Hser as [Hsy Hsr].
    cbn [JSONArray].
    rewrite (Hx (S level) n _ ltac:(lia) (terminated_items_tail level (y :: r) rest)).
    cbn [items_tail].
    change (("," ++ newline_indent (S level) ++ encode (S level) y ++ items_tail level r)
            ++ rest)
      with (String "," ((newline_indent (S level) ++ encode (S level) y
                         ++ items_tail level r) ++ rest)).
    rewrite (skip_ws_head "," _ eq_refl).
    change (Ascii.eqb "," "]") with false. change (Ascii.eqb "," ",") with true.
    cbv iota.
    rewrite append_assoc, skip_ws_newline_indent, append_assoc.
    assert (Hsame : skip_ws (encode (S level) y ++ items_tail level r ++ rest)
                    = encode (S level) y ++ items_tail level r ++ rest).
    { destruct (encode_head (S level) y Hsy) as [c' [t' [He [Hws _]]]].
      rewrite He. simpl. now rewrite Hws. }
    rewrite Hsame.
    rewrite (IH Hsr y level n rest Hy Hsy ltac:(lia)). reflexivity.
Qed.

Lemma skip_ws_encode level v rest :
  serializable v = true ->
  skip_ws (encode level v ++ rest) = encode level v ++ rest.
Proof.
  intros Hv. destruct (encode_head level v Hv) as [c [t [He [Hws _]]]].
  rewrite He. simpl. now rewrite Hws.
Qed.

(** One member of a dict: the key, the colon, the value. *)
Lemma JSONObject_member n k x level tail :
  decodes_back x -> serializable x = true -> (size x <= n)%nat ->
  terminated tail ->
  exists r,
    encode_basestring_ascii k ++ ": " ++ encode (S level) x ++ tail = String dquote r /\
    scanstring r = Some (k, ": " ++ encode (S level) x ++ tail) /\
    scan_once n (skip_ws (" " ++ encode (S level) x ++ tail)) = Some (x, tail).
Proof.
  intros Hx Hsx Hn Htail.
  destruct (scanstring_basestring k (": " ++ encode (S level) x ++ tail)) as [r [Hr Hscan]].
  exists r. repeat split; [exact Hr | exact Hscan |].
  change (" " ++ encode (S level) x ++ tail)
    with (String " " (encode (S level) x ++ tail)).
  cbn [skip_ws]. change (is_ws " ") with true. cbv iota.
  rewrite (skip_ws_encode _ _ _ Hsx). now apply Hx.
Qed.

Lemma JSONObject_members kvs :
  Forall (fun kv => decodes_back (snd kv)) kvs ->
  forallb (fun kv => serializable (snd kv)) kvs = true ->
  forall k x level fuel rest,
    decodes_back x -> serializable x = true ->
    (S (size x + members_size kvs) <= fuel)%nat ->
    JSONObject fuel (encode_basestring_ascii k ++ ": " ++ encode (S level) x
                     ++ members_tail level kvs ++ rest)
    = Some ((k, x) :: kvs, rest).
Proof.
  induction 1 as [| [k' y] r Hy _ IH]; intros Hser k x level fuel rest Hx Hsx Hfuel.
  - destruct fuel as [| n]; [lia |]. simpl in Hfuel.
    destruct (JSONObject_member n k x level (members_tail level [] ++ rest) Hx Hsx
                ltac:(lia) (terminated_members_tail level [] rest))
      as [t [Ht [Hscan Hval]]].
    rewrite Ht. cbn [JSONObject]. change (Ascii.eqb dquote dquote) with true. cbv iota.
    rewrite Hscan.
    change (": " ++ encode (S level) x ++ members_tail level [] ++ rest)
      with (String ":" (" " ++ encode (S level) x ++ members_tail level [] ++ rest)).
    rewrite (skip_ws_head ":" _ eq_refl). change (Ascii.eqb ":" ":") with true. cbv iota.
    rewrite Hval. cbn [members_tail].
    rewrite append_assoc, skip_ws_newline_indent. reflexivity.
  - destruct fuel as [| n]; [lia |]. cbn [members_size fold_right snd] in Hfuel.
    fold (members_size r) in Hfuel. cbn [snd] in Hy.
    cbn [forallb snd] in Hser. apply andb_true_iff in Hser as [Hsy Hsr].
    destruct (JSONObject_member n k x level (members_tail level ((k', y) :: r) ++ rest)
                Hx Hsx ltac:(lia) (terminated_members_tail level ((k', y) :: r) rest))
      as [t [Ht [Hscan Hval]]].
    rewrite Ht. cbn [JSONObject]. change (Ascii.eqb dquote dquote) with true. cbv iota.
    rewrite Hscan.
    change (": " ++ encode (S level) x ++ members_tail level ((k', y) :: r) ++ rest)
      with (String ":" (" " ++ encode (S level) x
                        ++ members_tail level ((k', y) :: r) ++ rest)).
    rewrite (skip_ws_head ":" _ eq_refl). change (Ascii.eqb ":" ":") with true. cbv iota.
    rewrite Hval. cbn [members_tail].
    change (("," ++ newline_indent (S level) ++ encode_basestring_ascii k' ++ ": "
             ++ encode (S level) y ++ members_tail level r) ++ rest)
      with (String "," ((newline_indent (S level) ++ encode_basestring_ascii k' ++ ": "
                         ++ encode (S level) y ++ members_tail level r) ++ rest)).
    rewrite (skip_ws_head "," _ eq_refl).
    change (Ascii.eqb "," "}") with false. change (Ascii.eqb "," ",") with true.
    cbv iota.
    rewrite append_assoc, skip_ws_newline_indent, !append_assoc.
    assert (Hkey : skip_ws (encode_basestring_ascii k' ++ ": " ++ encode (S level) y
                            ++ members_tail level r ++ rest)
                   = encode_basestring_ascii k' ++ ": " ++ encode (S level) y
                     ++ members_tail level r ++ rest) by reflexivity.
    rewrite Hkey, (IH Hsr k' y level n rest Hy Hsy ltac:(lia)). reflexivity.
Qed.

(** Every serializable value is read back from its encoding. *)
Lemma serializable_decodes_back v : serializable v = true -> decodes_back v.
Proof.
  induction v as [| b | z | l | s | xs IH | kvs IH] using json_nested_ind;
    intros Hv level fuel rest Hfuel Hrest;
    (destruct fuel as [| n]; [simpl in Hfuel; lia |]).
  - reflexivity.
  - destruct b; reflexivity.
  - destruct (scan_integer_head _ _ _ (scan_integer_int_repr z)) as [c [r [Hz Hc]]].
    cbn [encode]. rewrite <- (match_number_int z rest Hrest).
    rewrite Hz. apply scan_once_number. exact Hc.
  - cbn [serializable] in Hv. cbn [encode].
    rewrite <- (match_number_float l rest Hv Hrest).
    unfold is_float_literal in Hv.
    destruct (scan_integer l) as [[i t] |] eqn:Hi; [| discriminate].
    destruct (scan_integer_head _ _ _ Hi) as [c [r [Hl Hc]]].
    rewrite Hl. apply scan_once_number. exact Hc.
  - cbn [encode]. destruct (scanstring_basestring s rest) as [r [Hr Hscan]].
    rewrite Hr. cbn [scan_once]. change (Ascii.eqb dquote dquote) with true. cbv iota.
    now rewrite Hscan.
  - destruct xs as [| x xs]; [reflexivity |].
    cbn [serializable forallb] in Hv. apply andb_true_iff in Hv as [Hsx Hsxs].
    apply Forall_cons_iff in IH as [IHx IHxs].
    rewrite encode_list.
    change (String "[" (newline_indent (S level) ++ encode (S level) x
                        ++ items_tail level xs) ++ rest)
      with (String "[" ((newline_indent (S level) ++ encode (S level) x
                         ++ items_tail level xs) ++ rest)).
    rewrite append_assoc, append_assoc.
    destruct (skip_ws_value (S level) x (items_tail level xs ++ rest) Hsx)
      as [c [t [Heq [Hskip Hc]]]].
    rewrite (scan_once_list n _ c t); [| now rewrite skip_ws_newline_indent | exact Hc].
    rewrite <- Heq.
    assert (Hxs : Forall decodes_back xs).
    { clear - IHxs Hsxs. induction IHxs as [| y r Hy _ IHr]; [constructor |].
      cbn [forallb] in Hsxs. apply andb_true_iff in Hsxs as [Hsy Hsr].
      constructor; auto. }
    cbn [size] in Hfuel. fold (items_size xs) in Hfuel.
    rewrite (JSONArray_items xs Hxs Hsxs x level n rest (IHx Hsx) Hsx).
    + reflexivity.
    + cbn [fold_right] in Hfuel. fold (items_size xs) in Hfuel. lia.
  - destruct kvs as [| [k x] kvs]; [reflexivity |].
    cbn [serializable forallb snd keys map fst] in Hv.
    apply andb_true_iff in Hv as [Hd Hv]. apply andb_true_iff in Hv as [Hsx Hskvs].
    apply Forall_cons_iff in IH as [IHx IHkvs]. cbn [snd] in IHx.
    rewrite encode_dict.
    change (String "{" (newline_indent (S level) ++ encode_basestring_ascii k ++ ": "
                        ++ encode (S level) x ++ members_tail level kvs) ++ rest)
      with (String "{" ((newline_indent (S level) ++ encode_basestring_ascii k ++ ": "
                         ++ encode (S level) x ++ members_tail level kvs) ++ rest)).
    rewrite !append_assoc.
    destruct (scanstring_basestring k (": " ++ encode (S level) x
                                       ++ members_tail level kvs ++ rest))
      as [t [Ht _]].
    rewrite (scan_once_dict n _ t);
      [| rewrite skip_ws_newline_indent, Ht; reflexivity ].
    rewrite <- Ht.
    assert (Hkvs : Forall (fun kv => decodes_back (snd kv)) kvs).
    { clear - IHkvs Hskvs. induction IHkvs as [| kv r Hy _ IHr]; [constructor |].
      cbn [forallb] in Hskvs. apply andb_true_iff in Hskvs as [Hsy Hsr].
      constructor; auto. }
    cbn [size fold_right snd] in Hfuel. fold (members_size kvs) in Hfuel.
    rewrite (JSONObject_members kvs Hkvs Hskvs k x level n rest (IHx Hsx) Hsx ltac:(lia)).
    rewrite dict_of_pairs_distinct; [reflexivity | exact Hd].
Qed.

(** *** Enough fuel *)

Lemma length_spaces n : String.length (spaces n) = n.
Proof. induction n as [| n IH]; simpl; [reflexivity | now rewrite IH]. Qed.

Lemma length_newline_indent level :
  String.length (newline_indent level) = S (4 * level).
Proof. unfold newline_indent. simpl String.length. now rewrite length_spaces. Qed.

Lemma items_size_le_tail level xs :
  Forall (fun v => forall lvl, (size v <= S (String.length (encode lvl v)))%nat) xs ->
  (items_size xs <= String.length (items_tail level xs))%nat.
Proof.
  induction 1 as [| y r Hy _ IH]; [simpl; lia |].
  cbn [items_size fold_right items_tail]. fold (items_size r).
  change ("," ++ newline_indent (S level) ++ encode (S level) y ++ items_tail level r)
    with (String "," (newline_indent (S level) ++ encode (S level) y ++ items_tail level r)).
  cbn [String.length]. rewrite !length_append, length_newline_indent.
  specialize (Hy (S level)). lia.
Qed.

Lemma members_size_le_tail level kvs :
  Forall (fun kv => forall lvl,
            (size (snd kv) <= S (String.length (encode lvl (snd kv))))%nat) kvs ->
  (members_size kvs <= String.length (members_tail level kvs))%nat.
Proof.
  induction 1 as [| [k y] r Hy _ IH]; [simpl; lia |].
  cbn [members_size fold_right members_tail snd]. fold (members_size r).
  change ("," ++ newline_indent (S level) ++ encode_basestring_ascii k ++ ": "
          ++ encode (S level) y ++ members_tail level r)
    with (String "," (newline_indent (S level) ++ encode_basestring_ascii k ++ ": "
                      ++ encode (S level) y ++ members_tail level r)).
  cbn [String.length]. rewrite !length_append, length_newline_indent.
  cbn [snd] in Hy. specialize (Hy (S level)). lia.
Qed.

(** The length of the text bounds the nested calls of the decoder. *)
Lemma size_le_length v :
  forall level, (size v <= S (String.length (encode level v)))%nat.
Proof.
  induction v as [| b | z | l | s | xs IH | kvs IH] using json_nested_ind;
    intros level; try (simpl; lia).
  - destruct xs as [| x xs]; [simpl; lia |].
    apply Forall_cons_iff in IH as [IHx IHxs].
    rewrite encode_list. cbn [size fold_right]. fold (items_size xs).
    cbn [String.length]. rewrite !length_append, length_newline_indent.
    pose proof (items_size_le_tail level xs IHxs). specialize (IHx (S level)). lia.
  - destruct kvs as [| [k x] kvs]; [simpl; lia |].
    apply Forall_cons_iff in IH as [IHx IHkvs]. cbn [snd] in IHx.
    rewrite encode_dict. cbn [size fold_right snd]. fold (members_size kvs).
    cbn [String.length]. rewrite !length_append, length_newline_indent.
    pose proof (members_size_le_tail level kvs IHkvs). specialize (IHx (S level)). lia.
Qed.

(** [json.loads(json.dumps(v, indent=4)) == v] *)
Lemma loads_dumps v : serializable v = true -> loads (dumps v) = Some v.
Proof.
  intros Hv. unfold loads, dumps.
  rewrite <- (append_nil_r (encode 0 v)) at 2.
  rewrite (skip_ws_encode 0 v EmptyString Hv).
  rewrite (serializable_decodes_back v Hv 0%nat _ EmptyString
             (size_le_length v 0%nat) I).
  reflexivity.
Qed.

(** C8. [save_json] of a list of serializable records, to a path that
    can be written, leaves at that path a text that [json.loads] reads
    back as the list, whatever the disk held before; the other files are
    left as they were, and [save_json] returns.  The records are values
    of the JSON data model: [None], booleans, integers, finite floats,
    strings, lists and dicts with distinct string keys. *)
Theorem save_json_round_trip
    (E : env) (records : list json) (filename : string) (before : disk) :
  forallb serializable records = true ->
  write_fails E filename = false ->
  let after := disk_after (trace (save_json E (JArr records) filename)) before in
  match read_text filename after with
  | Some text => loads text
  | None => None
  end = Some (JArr records)
  /\ (forall path, path <> filename -> read_text path after = read_text path before)
  /\ result (save_json E (JArr records) filename) = Ret tt.
Proof.
  intros Hrecords Hw after. unfold after, read_text.
  rewrite (save_json_written E _ _ Hw). cbn [disk_after fold_left apply_event].
  repeat split.
  - rewrite String.eqb_refl. now apply loads_dumps.
  - intros path Hp. apply String.eqb_neq in Hp. now rewrite Hp.
  - apply save_json_returns.
Qed.

Lemma save_json_round_trip_witness :
  match read_text COORDINATES_FILE
          (disk_after (trace (save_json env_london (JArr [london_info; london_weather])
                                COORDINATES_FILE))
             (fun _ => Some "[1, 2, 3]"))
  with
  | Some text => loads text
  | None => None
  end = Some (JArr [london_info; london_weather]).
Proof.
  apply (save_json_round_trip env_london [london_info; london_weather]
           COORDINATES_FILE (fun _ => Some "[1, 2, 3]")); reflexivity.
Defined.

(** The empty list is written as [[]] and read back. *)
Example empty_list_round_trip :
  dumps (JArr []) = "[]" /\ loads "[]" = Some (JArr []).
Proof. split; reflexivity. Qed.

(* ===================================================================== *)
(** * Part III. Further properties of the two scripts                     *)
(* ===================================================================== *)


(** ** The resolver, answer by answer *)

(** X1. In [city_weather_info.py], when the geocoding service answers
    with a passing status and an array whose first element is an object,
    [get_coordinates] returns the Location of that first element, whatever
    the other elements are, and does exactly three things: it prints the
    announcement, sends the request with the timeout of 10 seconds, and
    sleeps for one second. *)
Theorem info_get_coordinates_reads_the_first_element_only
    (E : env) (location : string) (status : Z)
    (first : list (string * json)) (rest : list json) :
  net E (geo_request E location)
  = Responds status (Some (JArr (JObj first :: rest))) ->
  status_passes status = true ->
  Info.get_coordinates E location
  = (Ret (location_of first),
     [info_announcement location;
      HttpGet (geo_request E location) (Some 10);
      Sleep 1]).
Proof.
  intros Hnet Hst. unfold Info.get_coordinates, info_announcement.
  destruct (parse_location location) as [city cc].
  unfold requests_get. fold (geo_request E location). rewrite Hnet.
  unfold print, sleep. cbn.
  rewrite (raise_for_status_passes {| status_code := status; payload := _ |} Hst).
  cbn. rewrite extract_info_object. reflexivity.
Qed.

Lemma info_get_coordinates_reads_the_first_element_only_witness :
  Info.get_coordinates env_two_candidates "Springfield"
  = (Ret (location_of [("name", JStr "Springfield"); ("lat", JFloat "39.7990175");
                       ("lon", JFloat "-89.6439575"); ("country", JStr "US");
                       ("state", JStr "Illinois")]),
     [info_announcement "Springfield";
      HttpGet (geo_request env_two_candidates "Springfield") (Some 10);
      Sleep 1]).
Proof.
  apply (info_get_coordinates_reads_the_first_element_only
           env_two_candidates "Springfield" 200 _ [springfield_missouri]);
    reflexivity.
Defined.

Lemma extract_info_not_a_dict v :
  not_a_dict v = true -> extract_info v = (Raise AttributeError, []).
Proof. destruct v; try discriminate; reflexivity. Qed.

Lemma extract_loop_stray good bad rest acc :
  not_a_dict bad = true ->
  for_each (map JObj good ++ bad :: rest)%list
    (fun city_data _ => extract_info city_data) acc
  = (Raise AttributeError, []).
Proof.
  intros Hbad. revert acc. induction good as [| c r IH]; intros acc; cbn [map app for_each].
  - now rewrite (extract_info_not_a_dict bad Hbad).
  - rewrite extract_info_object, bind_ret_l. apply IH.
Qed.

(** X2. In [city_weather_forecast.py], when the geocoding service
    answers with a passing status and an array, [get_coordinates] maps
    every element of the array: for an array of objects it returns the
    Location of the last one, and an element that is not an object,
    wherever it stands after objects, makes the call raise
    [AttributeError]. Either way it prints the announcement, sends the
    request without a timeout, prints the status line and sleeps. *)
Theorem forecast_get_coordinates_maps_every_element
    (E : env) (location : string) (status : Z) (candidates : list json) :
  net E (geo_request E location) = Responds status (Some (JArr candidates)) ->
  status_passes status = true ->
  let events := [forecast_announcement location;
                 HttpGet (geo_request E location) None;
                 forecast_status_line location status;
                 Sleep 1] in
  (forall others last,
      candidates = map JObj (others ++ [last]) ->
      Forecast.get_coordinates E location = (Ret (location_of last), events)) /\
  (forall good bad rest,
      candidates = (map JObj good ++ bad :: rest)%list ->
      not_a_dict bad = true ->
      Forecast.get_coordinates E location = (Raise AttributeError, events)).
Proof.
  intros Hnet Hst events. subst events.
  unfold Forecast.get_coordinates, forecast_announcement, forecast_status_line.
  destruct (parse_location location) as [city cc].
  unfold requests_get. fold (geo_request E location). rewrite Hnet.
  unfold print, sleep. cbn -[truthy].
  rewrite (raise_for_status_passes {| status_code := status; payload := _ |} Hst).
  cbn -[truthy]. unfold Forecast.extract_loop. split.
  - intros others last ->.
    assert (Ht : truthy (JArr (map JObj (others ++ [last]))) = true)
      by (destruct others; reflexivity).
    rewrite Ht. cbn. rewrite extract_loop_last. reflexivity.
  - intros good bad rest -> Hbad.
    assert (Ht : truthy (JArr (map JObj good ++ bad :: rest)) = true)
      by (destruct good; reflexivity).
    rewrite Ht. cbn. rewrite (extract_loop_stray _ _ _ _ Hbad). reflexivity.
Qed.

Lemma forecast_get_coordinates_maps_every_element_witness :
  Forecast.get_coordinates env_two_candidates "Springfield"
  = (Ret (location_of [("name", JStr "Springfield"); ("lat", JFloat "37.2081729");
                       ("lon", JFloat "-93.2922715"); ("country", JStr "US");
                       ("state", JStr "Missouri")]),
     [forecast_announcement "Springfield";
      HttpGet (geo_request env_two_candidates "Springfield") None;
      forecast_status_line "Springfield" 200;
      Sleep 1]).
Proof.
  apply (proj1 (forecast_get_coordinates_maps_every_element
                  env_two_candidates "Springfield" 200
                  [springfield_illinois; springfield_missouri] eq_refl eq_refl)
           [[("name", JStr "Springfield"); ("lat", JFloat "39.7990175");
             ("lon", JFloat "-89.6439575"); ("country", JStr "US");
             ("state", JStr "Illinois")]]).
  reflexivity.
Defined.

(** X3. In both scripts, when the geocoding service answers with a passing
    status and a body that Python takes for false (the empty array, in
    particular), [get_coordinates] returns [None] after printing that
    nothing was found for the city, and still sleeps before it returns. *)
Theorem get_coordinates_finds_nothing_in_a_false_body
    (E : env) (location : string) (status : Z) (d : json) :
  net E (geo_request E location) = Responds status (Some d) ->
  status_passes status = true ->
  truthy d = false ->
  Info.get_coordinates E location
  = (Ret JNull,
     [info_announcement location;
      HttpGet (geo_request E location) (Some 10);
      info_no_results location;
      Sleep 1]) /\
  Forecast.get_coordinates E location
  = (Ret JNull,
     [forecast_announcement location;
      HttpGet (geo_request E location) None;
      forecast_status_line location status;
      forecast_no_results location;
      Sleep 1]).
Proof.
  intros Hnet Hst Hd.
  unfold Info.get_coordinates, Forecast.get_coordinates, info_announcement,
    info_no_results, forecast_announcement, forecast_status_line, forecast_no_results.
  destruct (parse_location location) as [city cc].
  unfold requests_get. fold (geo_request E location). rewrite Hnet.
  unfold print, sleep. cbn -[truthy].
  rewrite (raise_for_status_passes {| status_code := status; payload := _ |} Hst).
  cbn -[truthy]. rewrite Hd. split; reflexivity.
Qed.

Lemma get_coordinates_finds_nothing_witness :
  result (Info.get_coordinates env_london_fails "Atlantis") = Ret JNull /\
  result (Forecast.get_coordinates env_london_fails "Atlantis") = Ret JNull.
Proof.
  destruct (get_coordinates_finds_nothing_in_a_false_body
              env_london_fails "Atlantis" 200 (JArr []) eq_refl eq_refl eq_refl)
    as [H1 H2].
  rewrite H1, H2. split; reflexivity.
Defined.

(** X4. A geocoding answer with a passing status whose body is a
    non-empty JSON object (an error object, say) is not handled: the
    snapshot script raises [KeyError] at [data[0]], the forecast script
    raises [AttributeError] when it maps the first key, and neither
    [except] clause catches it. The delay of the [finally] clause has run
    when the exception leaves [get_coordinates]. *)
Theorem get_coordinates_raises_on_an_object_body
    (E : env) (location : string) (status : Z)
    (member : string * json) (members : list (string * json)) :
  net E (geo_request E location)
  = Responds status (Some (JObj (member :: members))) ->
  status_passes status = true ->
  Info.get_coordinates E location
  = (Raise KeyError,
     [info_announcement location;
      HttpGet (geo_request E location) (Some 10);
      Sleep 1]) /\
  Forecast.get_coordinates E location
  = (Raise AttributeError,
     [forecast_announcement location;
      HttpGet (geo_request E location) None;
      forecast_status_line location status;
      Sleep 1]).
Proof.
  intros Hnet Hst.
  unfold Info.get_coordinates, Forecast.get_coordinates, info_announcement,
    forecast_announcement, forecast_status_line.
  destruct (parse_location location) as [city cc].
  unfold requests_get. fold (geo_request E location). rewrite Hnet.
  unfold print, sleep. cbn.
  rewrite (raise_for_status_passes {| status_code := status; payload := _ |} Hst).
  destruct member as [k v]. cbn. split; reflexivity.
Qed.

Lemma get_coordinates_raises_on_an_object_body_witness :
  result (Info.get_coordinates env_error_object "London") = Raise KeyError /\
  result (Forecast.get_coordinates env_error_object "London") = Raise AttributeError.
Proof.
  destruct (get_coordinates_raises_on_an_object_body
              env_error_object "London" 200 ("cod", JInt 429)
              [("message", JStr "Too many requests")] eq_refl eq_refl)
    as [H1 H2].
  rewrite H1, H2. split; reflexivity.
Defined.

(** ** The retrievers *)

Lemma location_latitude members :
  getitem (location_of members) "latitude" = (Ret (get members "lat"), []).
Proof. reflexivity. Qed.

Lemma location_longitude members :
  getitem (location_of members) "longitude" = (Ret (get members "lon"), []).
Proof. reflexivity. Qed.

Lemma location_name members :
  getitem (location_of members) "name" = (Ret (get members "name"), []).
Proof. reflexivity. Qed.

Lemma weather_request_location E u members :
  weather_request E u (location_of members)
  = {| url := u; params := weather_params E (get members "lat") (get members "lon") |}.
Proof. reflexivity. Qed.

Lemma info_get_weather_data_requests E members :
  requests_of (trace (Info.get_weather_data E (location_of members)))
  = [weather_request E Info.weather_url (location_of members)].
Proof.
  unfold Info.get_weather_data.
  rewrite location_latitude, bind_ret_l, location_longitude, bind_ret_l,
    location_name, bind_ret_l.
  unfold print at 1. rewrite trace_bind_emit, requests_of_print.
  rewrite requests_of_try_finally_quiet by (every_with ltac:(reflexivity)).
  rewrite requests_of_try_except_quiet by (no_hang_handler; every_with ltac:(reflexivity)).
  rewrite requests_of_bind_quiet by (intro; every_with ltac:(reflexivity)).
  now rewrite trace_requests_get.
Qed.

Lemma forecast_get_weather_forecast_requests E members :
  requests_of (trace (Forecast.get_weather_forecast E (location_of members)))
  = [weather_request E Forecast.forecast_url (location_of members)].
Proof.
  unfold Forecast.get_weather_forecast.
  rewrite location_latitude, bind_ret_l, location_longitude, bind_ret_l,
    location_name, bind_ret_l.
  unfold print at 1. rewrite trace_bind_emit, requests_of_print.
  rewrite requests_of_try_except_quiet by (no_hang_handler; every_with ltac:(reflexivity)).
  rewrite requests_of_bind_quiet by (intro; every_with ltac:(reflexivity)).
  now rewrite trace_requests_get.
Qed.

(** X5. Every call of the four functions that talk to the services sends
    exactly one request, whatever the service does with it (answer, error
    status, undecodable body, refused connection, no answer at all) and
    whatever the call does afterwards: nothing is retried. The resolvers
    send the geocoding request of their query, the retrievers the weather
    request of their Location. *)
Theorem every_call_sends_exactly_one_request (E : env) :
  (forall location,
      requests_of (trace (Info.get_coordinates E location))
      = [geo_request E location]) /\
  (forall location,
      requests_of (trace (Forecast.get_coordinates E location))
      = [geo_request E location]) /\
  (forall members,
      requests_of (trace (Info.get_weather_data E (location_of members)))
      = [weather_request E Info.weather_url (location_of members)]) /\
  (forall members,
      requests_of (trace (Forecast.get_weather_forecast E (location_of members)))
      = [weather_request E Forecast.forecast_url (location_of members)]).
Proof.
  split; [| split; [| split]].
  - apply info_get_coordinates_requests.
  - apply forecast_get_coordinates_requests.
  - apply info_get_weather_data_requests.
  - apply forecast_get_weather_forecast_requests.
Qed.

(** X6. When the weather service answers with a passing status and a
    body that decodes, both retrievers return the decoded body as it is,
    whatever its shape. [get_weather_data] prints its announcement, sends
    the request with the timeout and sleeps for one second;
    [get_weather_forecast] prints its announcement, sends the request
    without a timeout, prints the status line, and does not sleep. *)
Theorem retrievers_return_the_decoded_body
    (E : env) (members : list (string * json))
    (status status' : Z) (d d' : json) :
  net E (weather_request E Info.weather_url (location_of members))
  = Responds status (Some d) ->
  status_passes status = true ->
  net E (weather_request E Forecast.forecast_url (location_of members))
  = Responds status' (Some d') ->
  status_passes status' = true ->
  Info.get_weather_data E (location_of members)
  = (Ret d,
     [Print [Lit "Fetching weather data for "; Fmt (get members "name"); Lit "..."];
      HttpGet (weather_request E Info.weather_url (location_of members)) (Some 10);
      Sleep 1]) /\
  Forecast.get_weather_forecast E (location_of members)
  = (Ret d',
     [Print [Lit "Fetching weather forecast for "; Fmt (get members "name")];
      HttpGet (weather_request E Forecast.forecast_url (location_of members)) None;
      Print [Lit "City name: "; Fmt (get members "name");
             Lit (String tab "Status Code: "); Fmt (JInt status')]]).
Proof.
  rewrite !weather_request_location.
  intros Hnet Hst Hnet' Hst'.
  unfold Info.get_weather_data, Forecast.get_weather_forecast.
  rewrite !location_latitude, !bind_ret_l, !location_longitude, !bind_ret_l,
    !location_name, !bind_ret_l.
  unfold requests_get. rewrite Hnet, Hnet'.
  unfold print, sleep. cbn -[weather_params].
  rewrite (raise_for_status_passes {| status_code := status; payload := _ |} Hst).
  rewrite (raise_for_status_passes {| status_code := status'; payload := _ |} Hst').
  split; reflexivity.
Qed.

Lemma retrievers_return_the_decoded_body_witness :
  result (Info.get_weather_data env_london london_info) = Ret london_weather /\
  result (Forecast.get_weather_forecast env_london london_info) = Ret london_weather.
Proof.
  destruct (retrievers_return_the_decoded_body env_london
              [("name", JStr "London"); ("lat", JFloat "51.5073219");
               ("lon", JFloat "-0.1276474"); ("country", JStr "GB");
               ("state", JStr "England")] 200 200 london_weather london_weather
              eq_refl eq_refl eq_refl eq_refl) as [H1 H2].
  split; [exact (f_equal fst H1) | exact (f_equal fst H2)].
Defined.

(** X7. A retriever that is handed a dict without [latitude],
    [longitude] or [name] raises [KeyError] while it builds its
    parameters, outside the [try] statement: no request is sent, nothing
    is printed, and the snapshot script does not sleep. *)
Theorem retrievers_raise_on_an_incomplete_location
    (E : env) (members : list (string * json)) :
  lookup "latitude" members = None \/ lookup "longitude" members = None \/
  lookup "name" members = None ->
  Info.get_weather_data E (JObj members) = (Raise KeyError, []) /\
  Forecast.get_weather_forecast E (JObj members) = (Raise KeyError, []).
Proof.
  intros H. unfold Info.get_weather_data, Forecast.get_weather_forecast, getitem.
  destruct (lookup "latitude" members) as [lat |]; [| split; reflexivity].
  destruct (lookup "longitude" members) as [lon |]; [| split; reflexivity].
  destruct (lookup "name" members) as [name |]; [| split; reflexivity].
  destruct H as [H | [H | H]]; discriminate.
Qed.

Lemma retrievers_raise_on_an_incomplete_location_witness :
  Info.get_weather_data env_london (JObj [("name", JStr "London")])
  = (Raise KeyError, []) /\
  Forecast.get_weather_forecast env_london (JObj [("name", JStr "London")])
  = (Raise KeyError, []).
Proof.
  apply (retrievers_raise_on_an_incomplete_location env_london
           [("name", JStr "London")]).
  left. reflexivity.
Defined.

Lemma info_get_weather_data_no_hang E city_info :
  returns_or_raises (Info.get_weather_data E city_info).
Proof. unfold Info.get_weather_data. no_hang. Qed.

(** X8. Only the snapshot script limits the rate of its weather
    requests: every call of [get_weather_data] on a Location ends with the
    sleep of one second, on every path, and no call of
    [get_weather_forecast] ever sleeps. *)
Theorem only_the_snapshot_retriever_sleeps (E : env) :
  (forall members,
      exists t,
        trace (Info.get_weather_data E (location_of members))
        = (t ++ [Sleep 1])%list /\
        In (HttpGet (weather_request E Info.weather_url (location_of members))
                    (Some 10)) t) /\
  (forall city_info,
      every (fun e => is_sleep e = false) (Forecast.get_weather_forecast E city_info)).
Proof.
  split.
  - intros members.
    pose proof (info_get_weather_data_no_hang E (location_of members)) as Hret.
    unfold returns_or_raises in Hret. revert Hret.
    unfold Info.get_weather_data.
    rewrite location_latitude, bind_ret_l, location_longitude, bind_ret_l,
      location_name, bind_ret_l.
    unfold print at 1, sleep. rewrite bind_emit.
    match goal with
    | |- context [try_finally ?b _] => set (body := b)
    end.
    intros Hret. unfold result at 1 in Hret. cbn [fst] in Hret.
    assert (Hb : result body <> Hang).
    { intros Hh. apply Hret. now rewrite (try_finally_hang body _ Hh). }
    rewrite (try_finally_emit body _ Hb). unfold trace at 1. cbn [snd].
    eexists (_ :: trace body). split; [reflexivity |].
    right. unfold body. apply in_trace_try_except, in_trace_bind_l.
    rewrite trace_requests_get, weather_request_location. now left.
  - intros city_info. unfold Forecast.get_weather_forecast.
    every_with ltac:(reflexivity).
Qed.

(** ** What a batch does when something goes wrong *)

(** X9. A call of [get_coordinates] that raises is caught nowhere: the
    batch ends with that exception at the first query whose resolution
    raises. The queries after it are never requested, no weather request
    is sent, and neither file is written, so that the Locations resolved
    before it are lost. This holds for both scripts. *)
Theorem a_raising_resolution_ends_the_batch
    (E : env) (user_input : string) (before : list string) (q : string)
    (after : list string) :
  user_locations user_input = (before ++ q :: after)%list ->
  (forall e,
      Forall (fun p => returns (Info.get_coordinates E p)) before ->
      result (Info.get_coordinates E q) = Raise e ->
      result (Info.process_batch E user_input) = Raise e /\
      requests_of (trace (Info.process_batch E user_input))
      = map (geo_request E) (before ++ [q]) /\
      forall d, disk_after (trace (Info.process_batch E user_input)) d = d) /\
  (forall e,
      Forall (fun p => returns (Forecast.get_coordinates E p)) before ->
      result (Forecast.get_coordinates E q) = Raise e ->
      result (Forecast.process_batch E [] [] user_input) = Raise e /\
      requests_of (trace (Forecast.process_batch E [] [] user_input))
      = map (geo_request E) (before ++ [q]) /\
      forall d, disk_after (trace (Forecast.process_batch E [] [] user_input)) d = d).
Proof.
  intros Hinput. split; intros e Hbefore Hq.
  - now apply info_batch_ends_at_a_raise with (after := after).
  - now apply forecast_batch_ends_at_a_raise with (after := after).
Qed.

Lemma a_raising_resolution_ends_the_batch_witness :
  result (Info.process_batch env_error_object "London;Paris") = Raise KeyError /\
  result (Forecast.process_batch env_error_object [] [] "London;Paris")
  = Raise AttributeError.
Proof.
  destruct (a_raising_resolution_ends_the_batch env_error_object "London;Paris"
              [] "London" ["Paris"] eq_refl) as [Hinfo Hforecast].
  split.
  - apply (Hinfo KeyError); [constructor | reflexivity].
  - apply (Hforecast AttributeError); [constructor | reflexivity].
Defined.
(** ** Files that cannot be written *)

(** X10. [save_json] never lets a failed write reach its caller: it
    returns normally after printing the error with the file name, without
    the message of a saved file, and no other file is touched. The file
    itself keeps its content when it could not be opened; when the write
    failed after the file was opened, which empties it, the file is left
    with the initial part of the text that went out before the failure. *)
Theorem save_json_reports_a_failed_write
    (E : env) (data : json) (filename : string) (before : disk) :
  write_fails E filename = true ->
  save_json E data filename
  = (Ret tt,
     [match write_cut E filename with
      | None => WriteRefused filename
      | Some n => WriteText filename (substring 0 n (dumps data))
      end;
      write_error filename]) /\
  (forall path,
      path <> filename ->
      read_text path (disk_after (trace (save_json E data filename)) before)
      = read_text path before) /\
  read_text filename (disk_after (trace (save_json E data filename)) before)
  = match write_cut E filename with
    | None => read_text filename before
    | Some n => Some (substring 0 n (dumps data))
    end.
Proof.
  intros H. rewrite (save_json_failed E data filename H). split; [reflexivity |].
  unfold trace, read_text. cbn [snd].
  destruct (write_cut E filename) as [n |]; cbn.
  - split; [| now rewrite String.eqb_refl].
    intros path Hpath. apply String.eqb_neq in Hpath. now rewrite Hpath.
  - split; reflexivity.
Qed.

Lemma save_json_reports_a_failed_write_witness :
  (save_json (read_only env_london) (JArr [london_info]) COORDINATES_FILE
   = (Ret tt, [WriteRefused COORDINATES_FILE; write_error COORDINATES_FILE]) /\
   read_text COORDINATES_FILE
     (disk_after
        (trace (save_json (read_only env_london) (JArr [london_info]) COORDINATES_FILE))
        no_files)
   = None)
  /\
  read_text COORDINATES_FILE
    (disk_after
       (trace (save_json (with_files env_london (fun _ => true) (fun _ => Some 12%nat))
                 (JArr [london_info]) COORDINATES_FILE))
       no_files)
  = Some (substring 0 12 (dumps (JArr [london_info]))).
Proof.
  destruct (save_json_reports_a_failed_write (read_only env_london)
              (JArr [london_info]) COORDINATES_FILE no_files eq_refl)
    as (Hrefused & _ & Hkept).
  destruct (save_json_reports_a_failed_write
              (with_files env_london (fun _ => true) (fun _ => Some 12%nat))
              (JArr [london_info]) COORDINATES_FILE no_files eq_refl)
    as (_ & _ & Hcut).
  split; [split; [exact Hrefused | exact Hkept] | exact Hcut].
Defined.

(** *** Runs that differ in their files only *)

Lemma result_bind {A B} (c : M A) (k : A -> M B) :
  result (bind c k)
  = match result c with
    | Ret a => result (k a)
    | Raise e => Raise e
    | Hang => Hang
    end.
Proof. unfold result, bind. now destruct c as [[a | e | ] t]. Qed.

Lemma filter_trace_bind p {A B} (c : M A) (k : A -> M B) :
  filter p (trace (bind c k))
  = (filter p (trace c)
     ++ match result c with
        | Ret a => filter p (trace (k a))
        | _ => []
        end)%list.
Proof.
  unfold result, trace, bind. destruct c as [[a | e | ] t]; cbn [fst snd];
    [apply filter_app | |]; now rewrite List.app_nil_r.
Qed.

Lemma alike_bind p {A B} (c c' : M A) (k k' : A -> M B) :
  result c = result c' /\ filter p (trace c) = filter p (trace c') ->
  (forall a, result (k a) = result (k' a) /\
             filter p (trace (k a)) = filter p (trace (k' a))) ->
  result (bind c k) = result (bind c' k') /\
  filter p (trace (bind c k)) = filter p (trace (bind c' k')).
Proof.
  intros [Hr Ht] Hk. rewrite !result_bind, !filter_trace_bind, Hr, Ht.
  destruct (result c') as [a | e | ]; [| now split | now split].
  destruct (Hk a) as [Hr' Ht']. now rewrite Hr', Ht'.
Qed.

Lemma save_json_alike E E' data path :
  result (save_json E' data path) = result (save_json E data path) /\
  filter is_request_or_drawing (trace (save_json E' data path))
  = filter is_request_or_drawing (trace (save_json E data path)).
Proof.
  assert (H : forall F, filter is_request_or_drawing (trace (save_json F data path)) = []).
  { intros F. apply filter_none. change (every (fun e => is_request_or_drawing e = false)
                                            (save_json F data path)).
    unfold save_json. every_with ltac:(reflexivity). }
  now rewrite !save_json_returns, !H.
Qed.

(** X11. A failed write does not stop a batch and changes nothing else.
    Whichever writes fail and whatever they leave behind, each script
    ends the batch the same way and makes the same requests and the same
    drawing calls, in the same order, as when every write succeeds or
    fails otherwise. *)
Theorem failed_writes_do_not_stop_the_batch
    (E : env) (fails : string -> bool) (cut : string -> option nat)
    (user_input : string) :
  (result (Info.process_batch (with_files E fails cut) user_input)
   = result (Info.process_batch E user_input) /\
   filter is_request_or_drawing
     (trace (Info.process_batch (with_files E fails cut) user_input))
   = filter is_request_or_drawing (trace (Info.process_batch E user_input)))
  /\
  (result (Forecast.process_batch (with_files E fails cut) [] [] user_input)
   = result (Forecast.process_batch E [] [] user_input) /\
   filter is_request_or_drawing
     (trace (Forecast.process_batch (with_files E fails cut) [] [] user_input))
   = filter is_request_or_drawing (trace (Forecast.process_batch E [] [] user_input))).
Proof.
  split.
  - unfold Info.process_batch.
    apply alike_bind; [split; reflexivity | intros extracted_data].
    apply alike_bind; [apply save_json_alike | intros _].
    apply alike_bind; [split; reflexivity | intros city_weather_data].
    apply alike_bind; [apply save_json_alike | intros _].
    split; reflexivity.
  - unfold Forecast.process_batch.
    apply alike_bind; [split; reflexivity | intros extracted_data].
    apply alike_bind; [apply save_json_alike | intros _].
    apply alike_bind; [split; reflexivity | intros _].
    apply alike_bind; [split; reflexivity | intros city_forecasts].
    do 6 (apply alike_bind; [split; reflexivity | intros _]).
    apply save_json_alike.
Qed.

(** With every write refused, the batch of one city still requests and
    draws what it requests and draws when the files can be written. *)
Example a_batch_without_files :
  result (Forecast.process_batch (read_only env_london) [] [] "London") = Ret tt /\
  filter is_request_or_drawing
    (trace (Forecast.process_batch (read_only env_london) [] [] "London"))
  = filter is_request_or_drawing (trace (Forecast.process_batch env_london [] [] "London")) /\
  disk_after (trace (Forecast.process_batch (read_only env_london) [] [] "London")) no_files
    COORDINATES_FILE
  = None.
Proof. repeat split; vm_compute; reflexivity. Qed.

(** ** The session *)

Lemma info_main_cons E line rest :
  Info.main E (line :: rest)
  = (emit (Input Info.PROMPT) ;;
     if (line =? "quit")%string then print [Lit "Exiting the session..."]
     else if (line =? EmptyString)%string
          then print [Lit "Enter a valid city and/or country"] ;; Info.main E rest
          else Info.process_batch E line ;; Info.main E rest).
Proof. reflexivity. Qed.

Lemma forecast_main_loop_cons E extracted_data city_forecasts line rest :
  Forecast.main_loop E extracted_data city_forecasts (line :: rest)
  = (emit (Input Forecast.PROMPT) ;;
     if (line =? "quit")%string then print [Lit "Exiting session..."]
     else if (line =? EmptyString)%string
          then print [Lit "Please enter a valid city and/or country code."] ;;
               Forecast.main_loop E extracted_data city_forecasts rest
          else Forecast.process_batch E extracted_data city_forecasts line).
Proof. reflexivity. Qed.

Lemma pair_result_trace {A} (c : M A) : c = (result c, trace c).
Proof. now destruct c. Qed.

Lemma info_main_blank_lines E n stdin :
  Info.main E (blank_lines n ++ stdin)
  = (result (Info.main E stdin),
     (turns info_blank_turn n ++ trace (Info.main E stdin))%list).
Proof.
  induction n as [| n IH].
  - apply pair_result_trace.
  - change (blank_lines (S n) ++ stdin)%list
      with (EmptyString :: (blank_lines n ++ stdin))%list.
    rewrite info_main_cons. cbn [String.eqb]. unfold print.
    rewrite !bind_emit, IH. reflexivity.
Qed.

Lemma forecast_main_blank_lines E n stdin :
  Forecast.main E (blank_lines n ++ stdin)
  = (result (Forecast.main E stdin),
     (turns forecast_blank_turn n ++ trace (Forecast.main E stdin))%list).
Proof.
  unfold Forecast.main. induction n as [| n IH].
  - apply pair_result_trace.
  - change (blank_lines (S n) ++ stdin)%list
      with (EmptyString :: (blank_lines n ++ stdin))%list.
    rewrite forecast_main_loop_cons. cbn [String.eqb]. unfold print.
    rewrite !bind_emit, IH. reflexivity.
Qed.

(** X12. An empty line starts no batch: each of the two scripts prints
    its request for a valid city and prompts again, as many times as empty
    lines are typed, without a request, a file or a chart, and then goes on
    with the lines that follow as if the empty ones had not been typed. *)
Theorem empty_lines_are_asked_again (E : env) (n : nat) (stdin : list string) :
  Info.main E (blank_lines n ++ stdin)
  = (result (Info.main E stdin),
     (turns info_blank_turn n ++ trace (Info.main E stdin))%list) /\
  Forecast.main E (blank_lines n ++ stdin)
  = (result (Forecast.main E stdin),
     (turns forecast_blank_turn n ++ trace (Forecast.main E stdin))%list).
Proof.
  split; [apply info_main_blank_lines | apply forecast_main_blank_lines].
Qed.

Lemma starts_batch_inv line :
  starts_batch line = true ->
  (line =? "quit")%string = false /\ (line =? EmptyString)%string = false.
Proof.
  unfold starts_batch. intros H. apply andb_prop in H as [H1 H2].
  split; now apply negb_true_iff.
Qed.

Lemma info_main_batch E line rest :
  starts_batch line = true ->
  Info.main E (line :: rest)
  = (emit (Input Info.PROMPT) ;; Info.process_batch E line ;; Info.main E rest).
Proof.
  intros H. destruct (starts_batch_inv line H) as [H1 H2].
  now rewrite info_main_cons, H1, H2.
Qed.

(** X13. The forecast script handles one batch per run and the snapshot
    script any number: after a line that starts a batch, [main] of the
    forecast script ends as the batch ends and never reads the lines that
    follow, where [main] of the snapshot script, when the batch returns,
    prompts again and goes on with them. *)
Theorem the_forecast_session_is_one_batch
    (E : env) (n : nat) (line : string) (rest : list string) :
  starts_batch line = true ->
  Forecast.main E (blank_lines n ++ line :: rest)
  = (result (Forecast.process_batch E [] [] line),
     (turns forecast_blank_turn n
      ++ Input Forecast.PROMPT :: trace (Forecast.process_batch E [] [] line))%list) /\
  (result (Info.process_batch E line) = Ret tt ->
   Info.main E (blank_lines n ++ line :: rest)
   = (result (Info.main E rest),
      (turns info_blank_turn n
       ++ Input Info.PROMPT :: trace (Info.process_batch E line)
       ++ trace (Info.main E rest))%list)).
Proof.
  intros H. destruct (starts_batch_inv line H) as [H1 H2]. split.
  - rewrite forecast_main_blank_lines. unfold Forecast.main.
    rewrite forecast_main_loop_cons, H1, H2, bind_emit. reflexivity.
  - intros Hbatch. rewrite info_main_blank_lines, (info_main_batch E line rest H).
    rewrite bind_emit.
    rewrite (result_bind_ret _ _ tt Hbatch), (trace_bind_ret _ _ tt Hbatch).
    reflexivity.
Qed.

Lemma the_forecast_session_is_one_batch_witness :
  Forecast.main env_london ["London"; "Paris"; "quit"]
  = (result (Forecast.process_batch env_london [] [] "London"),
     Input Forecast.PROMPT :: trace (Forecast.process_batch env_london [] [] "London")).
Proof.
  apply (proj1 (the_forecast_session_is_one_batch env_london 0 "London"
                  ["Paris"; "quit"] eq_refl)).
Defined.

Lemma info_main_returns_after_quit E stdin :
  result (Info.main E stdin) = Ret tt -> In "quit" stdin.
Proof.
  induction stdin as [| line rest IH].
  - discriminate.
  - rewrite info_main_cons, result_bind_emit.
    destruct (line =? "quit")%string eqn:Hq.
    + intros _. left. now apply String.eqb_eq.
    + destruct (line =? EmptyString)%string.
      * unfold print. rewrite result_bind_emit. intros H. right. now apply IH.
      * intros H. right. apply IH.
        destruct (Info.process_batch E line) as [[[] | e | ] t];
          unfold result, bind in *; cbn [fst snd] in *; try discriminate; exact H.
Qed.

Lemma info_main_stops_at_quit E before after :
  Info.main E (before ++ "quit" :: after) = Info.main E (before ++ ["quit"]).
Proof.
  induction before as [| line rest IH]; [reflexivity |].
  change ((line :: rest) ++ "quit" :: after)%list
    with (line :: (rest ++ "quit" :: after))%list.
  change ((line :: rest) ++ ["quit"])%list with (line :: (rest ++ ["quit"]))%list.
  now rewrite !info_main_cons, IH.
Qed.

(** X14. A session of the snapshot script ends normally at [quit] only:
    when [main] returns, one of the lines typed was [quit]; otherwise the
    session ends with an exception (the end of the input, or an exception
    of a batch) or does not end. And the session ends at the first
    [quit]: what is typed after it is never read. *)
Theorem the_snapshot_session_ends_at_quit (E : env) (stdin : list string) :
  (result (Info.main E stdin) = Ret tt -> In "quit" stdin) /\
  (forall before after,
      stdin = (before ++ "quit" :: after)%list ->
      Info.main E stdin = Info.main E (before ++ ["quit"])).
Proof.
  split; [apply info_main_returns_after_quit |].
  intros before after ->. apply info_main_stops_at_quit.
Qed.

Lemma the_snapshot_session_ends_at_quit_witness :
  In "quit" ["London"; "quit"; "Paris"] /\
  Info.main env_london ["London"; "quit"; "Paris"]
  = Info.main env_london ["London"; "quit"].
Proof.
  destruct (the_snapshot_session_ends_at_quit env_london ["London"; "quit"; "Paris"])
    as [Hquit Hrest].
  split.
  - apply Hquit. vm_compute. reflexivity.
  - apply (Hrest ["London"] ["Paris"]). reflexivity.
Defined.

Lemma trace_bind_tail (P : event -> Prop) {A B} (c : M A) (k : A -> M B) :
  (forall a, Forall P (trace (k a))) ->
  exists t, trace (bind c k) = (trace c ++ t)%list /\ Forall P t.
Proof.
  intros Hk. unfold trace, bind. destruct c as [[a | e | ] t]; cbn [fst snd].
  - exists (snd (k a)). split; [reflexivity | apply Hk].
  - exists []. split; [now rewrite List.app_nil_r | constructor].
  - exists []. split; [now rewrite List.app_nil_r | constructor].
Qed.





(** ** The charts *)

Lemma comprehension_rows {A B R} (f : A -> M B) (g : R -> B) (P : A -> R -> Prop)
    xs rows :
  (forall x r, P x r -> f x = (Ret (g r), [])) ->
  Forall2 P xs rows ->
  comprehension f xs = (Ret (map g rows), []).
Proof.
  intros Hf H. induction H as [| x r xs rows Hx _ IH]; cbn [comprehension map].
  - reflexivity.
  - now rewrite (Hf x r Hx), bind_ret_l, IH, bind_ret_l.
Qed.

Lemma comprehension_length {A B} (f : A -> M B) xs ys t :
  comprehension f xs = (Ret ys, t) -> List.length ys = List.length xs.
Proof.
  revert ys t. induction xs as [| x r IH]; intros ys t; cbn [comprehension].
  - intros H. injection H as <- _. reflexivity.
  - destruct (f x) as [[y | e | ] t1]; unfold bind at 1; cbn [fst snd];
      try discriminate.
    destruct (comprehension f r) as [[zs | e | ] t2]; unfold bind; cbn [fst snd];
      try discriminate.
    intros H. injection H as <- _. cbn [List.length]. f_equal. now apply (IH zs t2).
Qed.

Lemma main_temp_some field members main x :
  lookup "main" members = Some (JObj main) -> lookup field main = Some x ->
  Info.main_temp field (JObj members) = (Ret x, []).
Proof.
  intros Hm Hx. unfold Info.main_temp.
  now rewrite (getitem_some _ _ _ Hm), bind_ret_l, (getitem_some _ _ _ Hx).
Qed.

Lemma bind_ret_r {A} (c : M A) : bind c (fun a => ret a) = c.
Proof.
  destruct c as [[a | e | ] t]; unfold bind; cbn [fst snd ret]; try reflexivity.
  now rewrite List.app_nil_r.
Qed.

Lemma draws_for_each E calls :
  draws E (for_each calls (fun call _ => plt E call) tt) calls.
Proof.
  induction calls as [| call rest IH]; cbn [for_each].
  - left. split; [constructor | reflexivity].
  - unfold plt at 1. destruct (plt_raises E call) as [e |] eqn:Hcall.
    + right. exists [], call, rest, e. repeat split; [constructor | exact Hcall].
    + rewrite bind_emit.
      destruct IH as [[Hnone ->] | (done & call' & rest' & e & -> & Hdone & Hcall' & ->)].
      * left. split; [now constructor | reflexivity].
      * right. exists (call :: done), call', rest', e.
        repeat split; [now constructor | exact Hcall'].
Qed.

Lemma bar_chart_draws E names temps min_temps max_temps :
  draws E
    (plt E (StyleUse "dark_background") ;;
     plt E (Bar 0 temps "violet" "Current Temperature") ;;
     plt E (Bar 1 min_temps "red" "Minimum Temperature") ;;
     plt E (Bar 2 max_temps "blue" "Maximum Temperature") ;;
     plt E (PltTitle Info.TITLE) ;;
     plt E (PltXLabel Info.X_LABEL) ;;
     plt E (PltYLabel Info.Y_LABEL) ;;
     plt E (XTicks names 45 "right") ;;
     plt E PltLegend ;;
     plt E TightLayout ;;
     plt E Show)
    (bar_chart names temps min_temps max_temps).
Proof.
  pose proof (draws_for_each E (bar_chart names temps min_temps max_temps)) as H.
  cbn [bar_chart for_each] in H. rewrite bind_ret_r in H. exact H.
Qed.

(** X16. Handed a non-empty list of snapshots that each have a [name]
    and, under [main], [temp], [temp_min] and [temp_max],
    [plot_temperatures] makes the drawing calls of one chart, in this
    order: the style, the three bar series, which hold the current,
    minimum and maximum temperatures of the snapshots in the order of the
    list, the title and the labels, the ticks, labelled with the names in
    the same order, the legend, the layout, and the chart is shown last.
    It returns when no call raises; a call that raises (a bar series
    handed a temperature that is not a number, say) ends it with that
    exception, after the calls before it. *)
Theorem plot_temperatures_draws_the_snapshots_in_order
    (E : env) (city_weather_data : list json) (rows : list snapshot_row) :
  city_weather_data <> [] ->
  Forall2 snapshot_has city_weather_data rows ->
  draws E (Info.plot_temperatures E city_weather_data)
    (bar_chart (map row_name rows) (map row_temp rows)
               (map row_temp_min rows) (map row_temp_max rows)).
Proof.
  intros Hne Hrows. destruct city_weather_data as [| c r]; [now contradiction Hne |].
  unfold Info.plot_temperatures.
  rewrite (comprehension_rows _ row_name snapshot_has (c :: r) rows)
    by (try assumption;
        intros x row (members & main & -> & Hname & _); now apply getitem_some).
  rewrite bind_ret_l.
  rewrite (comprehension_rows _ row_temp snapshot_has (c :: r) rows)
    by (try assumption;
        intros x row (members & main & -> & _ & Hmain & Ht & _);
        now apply main_temp_some with (main := main)).
  rewrite bind_ret_l.
  rewrite (comprehension_rows _ row_temp_min snapshot_has (c :: r) rows)
    by (try assumption;
        intros x row (members & main & -> & _ & Hmain & _ & Ht & _);
        now apply main_temp_some with (main := main)).
  rewrite bind_ret_l.
  rewrite (comprehension_rows _ row_temp_max snapshot_has (c :: r) rows)
    by (try assumption;
        intros x row (members & main & -> & _ & Hmain & _ & _ & Ht);
        now apply main_temp_some with (main := main)).
  rewrite bind_ret_l. apply bar_chart_draws.
Qed.

Lemma london_weather_row :
  snapshot_has london_weather
    {| row_name := JStr "London"; row_temp := JFloat "11.3";
       row_temp_min := JFloat "9.8"; row_temp_max := JFloat "12.4" |}.
Proof.
  exists [("name", JStr "London");
          ("main", JObj [("temp", JFloat "11.3"); ("temp_min", JFloat "9.8");
                         ("temp_max", JFloat "12.4")]);
          ("list", JArr [JObj [("dt_txt", JStr "2024-05-01 12:00:00");
                               ("main", JObj [("temp", JFloat "11.3")])]])],
    [("temp", JFloat "11.3"); ("temp_min", JFloat "9.8"); ("temp_max", JFloat "12.4")].
  repeat split.
Defined.

Lemma paris_weather_row :
  snapshot_has paris_weather
    {| row_name := JStr "Paris"; row_temp := JFloat "14.1";
       row_temp_min := JFloat "12.9"; row_temp_max := JFloat "15.0" |}.
Proof.
  exists [("name", JStr "Paris");
          ("main", JObj [("temp", JFloat "14.1"); ("temp_min", JFloat "12.9");
                         ("temp_max", JFloat "15.0")]);
          ("list", JArr [JObj [("dt_txt", JStr "2024-05-01 12:00:00");
                               ("main", JObj [("temp", JFloat "14.1")])]])],
    [("temp", JFloat "14.1"); ("temp_min", JFloat "12.9"); ("temp_max", JFloat "15.0")].
  repeat split.
Defined.

Lemma plot_temperatures_draws_the_snapshots_in_order_witness :
  draws env_london (Info.plot_temperatures env_london [london_weather; paris_weather])
    (bar_chart [JStr "London"; JStr "Paris"] [JFloat "11.3"; JFloat "14.1"]
               [JFloat "9.8"; JFloat "12.9"] [JFloat "12.4"; JFloat "15.0"]).
Proof.
  apply (plot_temperatures_draws_the_snapshots_in_order env_london
           [london_weather; paris_weather]
           [{| row_name := JStr "London"; row_temp := JFloat "11.3";
               row_temp_min := JFloat "9.8"; row_temp_max := JFloat "12.4" |};
            {| row_name := JStr "Paris"; row_temp := JFloat "14.1";
               row_temp_min := JFloat "12.9"; row_temp_max := JFloat "15.0" |}]).
  - discriminate.
  - constructor; [exact london_weather_row |].
    constructor; [exact paris_weather_row | constructor].
Defined.

(** A snapshot whose temperature is [null], in surroundings where a bar
    series with such a height raises [TypeError]: the lists are built,
    the style is set, and the first bar series ends the call. *)
Example a_bar_series_that_raises :
  Info.plot_temperatures env_strict_chart
    [JObj [("name", JStr "London");
           ("main", JObj [("temp", JNull); ("temp_min", JFloat "9.8");
                          ("temp_max", JFloat "12.4")])]]
  = (Raise TypeError,
     [Plt (StyleUse "dark_background");
      Plt (Bar 0 [JNull] "violet" "Current Temperature")]).
Proof. reflexivity. Qed.

(** *** Computations that do nothing but look values up *)

Section Computes.
Variable allowed : exn -> bool.
Hypothesis allowed_lookup : forall e, lookup_error e = true -> allowed e = true.

Lemma computes_ret {A} (a : A) : computes allowed (ret a).
Proof. left. now exists a. Qed.

Lemma computes_raise {A} e : allowed e = true -> computes allowed (@raise A e).
Proof. intros H. right. now exists e. Qed.

Lemma computes_bind {A B} (c : M A) (k : A -> M B) :
  computes allowed c -> (forall a, computes allowed (k a)) ->
  computes allowed (bind c k).
Proof.
  intros [[a ->] | [e [-> He]]] Hk.
  - rewrite bind_ret_l. apply Hk.
  - right. now exists e.
Qed.

Lemma computes_getitem v key : computes allowed (getitem v key).
Proof.
  unfold getitem. destruct v; try (apply computes_raise; now apply allowed_lookup).
  destruct (lookup key members);
    [apply computes_ret | apply computes_raise; now apply allowed_lookup].
Qed.

Lemma computes_iterate v : computes allowed (iterate v).
Proof.
  destruct v; first [apply computes_ret | apply computes_raise; now apply allowed_lookup].
Qed.

Lemma computes_contains_key key v : computes allowed (contains_key key v).
Proof.
  destruct v; first [apply computes_ret | apply computes_raise; now apply allowed_lookup].
Qed.

Lemma computes_comprehension {A B} (f : A -> M B) xs :
  (forall x, computes allowed (f x)) -> computes allowed (comprehension f xs).
Proof.
  intros Hf. induction xs as [| x r IH]; cbn [comprehension].
  - apply computes_ret.
  - apply computes_bind; [apply Hf | intros y].
    apply computes_bind; [exact IH | intros ys]. apply computes_ret.
Qed.

End Computes.

Lemma computes_main_temp field city :
  computes lookup_error (Info.main_temp field city).
Proof.
  unfold Info.main_temp.
  apply computes_bind; [| intros m]; apply computes_getitem; auto.
Qed.

(** X17. [plot_temperatures] reads every value before its first
    drawing call. Whatever list it is handed, it either prints that there
    is nothing to plot (the empty list), or raises [KeyError] or
    [TypeError] for a record of another shape before anything is drawn,
    or has built its four lists, one entry per record each, and makes the
    drawing calls of the chart with them, in order, until one raises or
    the chart is shown. *)
Theorem plot_temperatures_looks_up_before_it_draws
    (E : env) (city_weather_data : list json) :
  (city_weather_data = [] /\
   Info.plot_temperatures E city_weather_data
   = (Ret tt, [Print [Lit "No weather data to plot."]])) \/
  (exists names temps min_temps max_temps,
      draws E (Info.plot_temperatures E city_weather_data)
        (bar_chart names temps min_temps max_temps) /\
      List.length names = List.length city_weather_data /\
      List.length temps = List.length city_weather_data /\
      List.length min_temps = List.length city_weather_data /\
      List.length max_temps = List.length city_weather_data) \/
  fails_at_once lookup_error (Info.plot_temperatures E city_weather_data).
Proof.
  destruct city_weather_data as [| c r]; [left; split; reflexivity | right].
  unfold Info.plot_temperatures. set (records := c :: r).
  destruct (computes_comprehension lookup_error
              (fun city => getitem city "name") records)
    as [[names Hn] | [e [He Hallowed]]];
    [intros; apply computes_getitem; auto | | right; exists e; now rewrite He].
  rewrite Hn, bind_ret_l.
  destruct (computes_comprehension lookup_error
              (Info.main_temp "temp") records (computes_main_temp "temp"))
    as [[temps Ht] | [e [He Hallowed]]];
    [| right; exists e; now rewrite He].
  rewrite Ht, bind_ret_l.
  destruct (computes_comprehension lookup_error
              (Info.main_temp "temp_min") records (computes_main_temp "temp_min"))
    as [[min_temps Hmin] | [e [He Hallowed]]];
    [| right; exists e; now rewrite He].
  rewrite Hmin, bind_ret_l.
  destruct (computes_comprehension lookup_error
              (Info.main_temp "temp_max") records (computes_main_temp "temp_max"))
    as [[max_temps Hmax] | [e [He Hallowed]]];
    [| right; exists e; now rewrite He].
  rewrite Hmax, bind_ret_l.
  left. exists names, temps, min_temps, max_temps.
  split; [apply bar_chart_draws |].
  rewrite (comprehension_length _ _ _ _ Hn), (comprehension_length _ _ _ _ Ht),
    (comprehension_length _ _ _ _ Hmin), (comprehension_length _ _ _ _ Hmax).
  repeat split.
Qed.

Lemma forecast_error_lookup e : lookup_error e = true -> forecast_error e = true.
Proof. destruct e; try discriminate; reflexivity. Qed.

Lemma computes_strptime E d : computes forecast_error (strptime E d).
Proof.
  unfold strptime. destruct d; try (now apply computes_raise).
  destruct (strptime_ok E s); [apply computes_ret | now apply computes_raise].
Qed.

Lemma has_forecast_list_cases forecast_data :
  Forecast.has_forecast_list forecast_data = (Ret false, []) \/
  (exists l,
      Forecast.has_forecast_list forecast_data = (Ret true, []) /\
      getitem forecast_data "list" = (Ret l, []) /\ truthy l = true) \/
  fails_at_once forecast_error (Forecast.has_forecast_list forecast_data).
Proof.
  unfold Forecast.has_forecast_list.
  destruct (truthy forecast_data); [| now left].
  destruct forecast_data as [ | b | z | f | s | xs | kvs]; cbn [contains_key];
    unfold ret; try (right; right; exists TypeError; split; reflexivity).
  - rewrite bind_ret_l. destruct (is_substring "list" s); [| now left].
    right. right. exists TypeError. split; reflexivity.
  - rewrite bind_ret_l. destruct (existsb _ xs); [| now left].
    right. right. exists TypeError. split; reflexivity.
  - rewrite bind_ret_l. unfold getitem.
    destruct (lookup "list" kvs) as [l |]; [| now left].
    unfold ret. rewrite bind_ret_l. destruct (truthy l) eqn:Ht; [| now left].
    right. left. now exists l.
Qed.

Lemma iterate_truthy l items :
  truthy l = true -> iterate l = (Ret items, []) -> items <> [].
Proof.
  destruct l as [ | b | z | f | s | xs | kvs]; cbn [iterate]; try discriminate.
  - destruct s; [discriminate |]. intros _ H. injection H as <-. discriminate.
  - destruct xs; [discriminate |]. intros _ H. injection H as <-. discriminate.
  - destruct kvs; [discriminate |]. intros _ H. injection H as <-. discriminate.
Qed.

Lemma strptime_rows E items rows :
  Forall2 (entry_has E) items rows ->
  comprehension (strptime E) (map (fun row => JStr (fst row)) rows)
  = (Ret (map fst rows), []).
Proof.
  induction 1 as [| item row items rows (members & main & _ & _ & Hok & _) _ IH];
    cbn [comprehension map].
  - reflexivity.
  - unfold strptime at 1. now rewrite Hok, bind_ret, IH, bind_ret_l.
Qed.

Lemma print_then_plot E message call :
  (print message ;; plt E call) = (drawn E call, [Print message; Plt call]).
Proof. unfold print. now rewrite bind_emit, result_plt, trace_plt. Qed.

(** X18. Handed a forecast whose [list] is a non-empty array of entries
    that each have a timestamp [dt_txt] in the expected format and a
    temperature under [main], [plot_forecast] prints that it plots the
    city and then calls [ax.plot] once, for one series labelled with the
    city: the timestamps and the temperatures of the entries, in the
    order of the [list]. It ends as that call ends: it returns, or raises
    what the call raises (for a temperature that is not a number, say). *)
Theorem plot_forecast_draws_the_entries_in_order
    (E : env) (members : list (string * json)) (items : list json)
    (rows : list (string * json)) (city_name : json) :
  lookup "list" members = Some (JArr items) ->
  items <> [] ->
  Forall2 (entry_has E) items rows ->
  Forecast.plot_forecast E (JObj members) city_name
  = (drawn E (AxPlot (map fst rows) (map snd rows) city_name),
     [plotting_line city_name;
      Plt (AxPlot (map fst rows) (map snd rows) city_name)]).
Proof.
  intros Hlist Hne Hrows.
  assert (Ht : truthy (JObj members) = true)
    by (destruct members; [discriminate | reflexivity]).
  assert (Ht' : truthy (JArr items) = true)
    by (destruct items; [now contradiction Hne | reflexivity]).
  unfold Forecast.plot_forecast, Forecast.has_forecast_list, contains_key.
  rewrite Ht, Hlist, !(getitem_some _ _ _ Hlist).
  repeat (rewrite bind_ret || rewrite bind_ret_l).
  rewrite Ht'. cbn [iterate].
  repeat (rewrite bind_ret || rewrite bind_ret_l).
  rewrite (comprehension_rows (fun item => getitem item "dt_txt")
             (fun row => JStr (fst row)) (entry_has E) items rows)
    by (try assumption;
        intros x row (m & main & -> & Hdt & _); now apply getitem_some).
  rewrite bind_ret_l, (strptime_rows E items rows Hrows).
  repeat (rewrite bind_ret || rewrite bind_ret_l). cbn [iterate]. rewrite bind_ret.
  rewrite (comprehension_rows
             (fun item => m <- getitem item "main" ;; getitem m "temp")
             snd (entry_has E) items rows)
    by (try assumption;
        intros x row (m & main & -> & _ & _ & Hmain & Htemp);
        now rewrite (getitem_some _ _ _ Hmain), bind_ret_l, (getitem_some _ _ _ Htemp)).
  rewrite bind_ret_l. apply print_then_plot.
Qed.

Lemma plot_forecast_draws_the_entries_in_order_witness :
  Forecast.plot_forecast env_london london_weather (JStr "London")
  = (Ret tt,
     [plotting_line (JStr "London");
      Plt (AxPlot ["2024-05-01 12:00:00"] [JFloat "11.3"] (JStr "London"))]).
Proof.
  apply (plot_forecast_draws_the_entries_in_order env_london
           [("name", JStr "London");
            ("main", JObj [("temp", JFloat "11.3"); ("temp_min", JFloat "9.8");
                           ("temp_max", JFloat "12.4")]);
            ("list", JArr [JObj [("dt_txt", JStr "2024-05-01 12:00:00");
                                 ("main", JObj [("temp", JFloat "11.3")])]])]
           [JObj [("dt_txt", JStr "2024-05-01 12:00:00");
                  ("main", JObj [("temp", JFloat "11.3")])]]
           [("2024-05-01 12:00:00", JFloat "11.3")] (JStr "London")).
  - reflexivity.
  - discriminate.
  - constructor; [| constructor].
    exists [("dt_txt", JStr "2024-05-01 12:00:00");
            ("main", JObj [("temp", JFloat "11.3")])],
      [("temp", JFloat "11.3")].
    repeat split.
Defined.

(** An entry whose temperature is an object, in surroundings where a
    series with such a value raises [TypeError]: the line is printed, the
    call is made and raises. *)
Example a_series_that_raises :
  Forecast.plot_forecast env_strict_chart
    (JObj [("list", JArr [JObj [("dt_txt", JStr "2024-05-01 12:00:00");
                                ("main", JObj [("temp", JObj [("value", JInt 11)])])]])])
    (JStr "London")
  = (Raise TypeError,
     [plotting_line (JStr "London");
      Plt (AxPlot ["2024-05-01 12:00:00"] [JObj [("value", JInt 11)]] (JStr "London"))]).
Proof. reflexivity. Qed.

(** X19. [plot_forecast] reads every value before it prints or draws.
    Whatever it is handed, it either prints that no forecast is available
    and draws nothing, or raises [KeyError], [TypeError] or [ValueError]
    (an entry without [dt_txt] or [main.temp], a timestamp in another
    format) before it has printed or drawn anything, or prints that it
    plots the city and calls [ax.plot] once, for a series that is never
    empty and has as many timestamps as temperatures, and ends as that
    call ends. *)
Theorem plot_forecast_looks_up_before_it_draws
    (E : env) (forecast_data city_name : json) :
  Forecast.plot_forecast E forecast_data city_name
  = (Ret tt, [no_forecast_line city_name]) \/
  (exists dates temps,
      Forecast.plot_forecast E forecast_data city_name
      = (drawn E (AxPlot dates temps city_name),
         [plotting_line city_name; Plt (AxPlot dates temps city_name)]) /\
      dates <> [] /\ List.length dates = List.length temps) \/
  fails_at_once forecast_error (Forecast.plot_forecast E forecast_data city_name).
Proof.
  unfold Forecast.plot_forecast.
  destruct (has_forecast_list_cases forecast_data)
    as [H | [(l & H & Hl & Ht) | (e & H & He)]]; rewrite H.
  - left. reflexivity.
  - right. rewrite bind_ret_l, !Hl, !bind_ret_l.
    destruct (computes_iterate forecast_error forecast_error_lookup l)
      as [[items Hi] | (e & He & Ha)];
      [| right; exists e; now rewrite He].
    rewrite !Hi, !bind_ret_l.
    pose proof (iterate_truthy l items Ht Hi) as Hne.
    destruct (computes_comprehension forecast_error
                (fun item => getitem item "dt_txt") items)
      as [[dates_strings Hds] | (e & He & Ha)];
      [intros; apply computes_getitem, forecast_error_lookup
      | | right; exists e; now rewrite He].
    rewrite Hds, bind_ret_l.
    destruct (computes_comprehension forecast_error (strptime E) dates_strings
                (computes_strptime E))
      as [[dates Hd] | (e & He & Ha)];
      [| right; exists e; now rewrite He].
    rewrite Hd, bind_ret_l, bind_ret_l, Hi, bind_ret_l.
    destruct (computes_comprehension forecast_error
                (fun item => m <- getitem item "main" ;; getitem m "temp") items)
      as [[temps Htemps] | (e & He & Ha)];
      [intros; apply computes_bind; [| intros m];
         apply computes_getitem, forecast_error_lookup
      | | right; exists e; now rewrite He].
    rewrite Htemps, bind_ret_l.
    left. exists dates, temps. split; [apply print_then_plot |].
    pose proof (comprehension_length _ _ _ _ Hds) as L1.
    pose proof (comprehension_length _ _ _ _ Hd) as L2.
    pose proof (comprehension_length _ _ _ _ Htemps) as L3.
    split.
    + intros ->. destruct items; [now apply Hne |].
      cbn [List.length] in *. congruence.
    + congruence.
  - right. right. exists e. split; [reflexivity | exact He].
Qed.

(** ** The text of a query *)

Lemma is_space_to_upper c : is_space (to_upper c) = is_space c.
Proof. destruct c as [[] [] [] [] [] [] [] []]; reflexivity. Qed.

Lemma is_cased_to_upper c : is_cased (to_upper c) = is_cased c.
Proof. destruct c as [[] [] [] [] [] [] [] []]; reflexivity. Qed.

Lemma to_lower_to_upper c : to_lower (to_upper c) = to_lower c.
Proof. destruct c as [[] [] [] [] [] [] [] []]; reflexivity. Qed.

Lemma comma_to_upper c : Ascii.eqb (to_upper c) "," = Ascii.eqb c ",".
Proof. destruct c as [[] [] [] [] [] [] [] []]; reflexivity. Qed.

Lemma upper_idempotent s : upper (upper s) = upper s.
Proof. induction s as [| c r IH]; simpl; [reflexivity |]. now rewrite to_upper_idempotent, IH. Qed.

Lemma lstrip_upper s : lstrip (upper s) = upper (lstrip s).
Proof.
  induction s as [| c r IH]; simpl; [reflexivity |].
  rewrite is_space_to_upper. destruct (is_space c); [exact IH | reflexivity].
Qed.

Lemma rstrip_upper s : rstrip (upper s) = upper (rstrip s).
Proof.
  induction s as [| c r IH]; simpl; [reflexivity |].
  rewrite IH, is_space_to_upper.
  destruct (rstrip r); simpl; [destruct (is_space c) |]; reflexivity.
Qed.

Lemma strip_upper s : strip (upper s) = upper (strip s).
Proof. unfold strip. now rewrite lstrip_upper, rstrip_upper. Qed.

Lemma to_upper_not_cased c : is_cased c = false -> to_upper c = c.
Proof.
  intros H. destruct c as [[] [] [] [] [] [] [] []];
    first [reflexivity | vm_compute in H; discriminate H].
Qed.

Lemma title_from_upper previous s :
  title_from previous (upper s) = title_from previous s.
Proof.
  revert previous. induction s as [| c r IH]; intros previous; simpl; [reflexivity |].
  rewrite is_cased_to_upper, to_lower_to_upper, to_upper_idempotent, !IH.
  destruct (is_cased c) eqn:Hc; [reflexivity |].
  now rewrite (to_upper_not_cased c Hc).
Qed.

Lemma split_upper s : split "," (upper s) = map upper (split "," s).
Proof.
  induction s as [| c r IH]; simpl; [reflexivity |].
  rewrite comma_to_upper, IH.
  destruct (Ascii.eqb c ","); [reflexivity |].
  destruct (split "," r); reflexivity.
Qed.

Lemma location_parts_upper location :
  location_parts (upper location) = location_parts location.
Proof.
  unfold location_parts. rewrite split_upper, map_map.
  apply map_ext. intros part. unfold title. now rewrite strip_upper, title_from_upper.
Qed.

Lemma parse_location_upper location :
  parse_location (upper location) = parse_location location.
Proof. unfold parse_location. now rewrite location_parts_upper. Qed.

Lemma get_coordinates_same_query E a b :
  parse_location a = parse_location b ->
  Info.get_coordinates E a = Info.get_coordinates E b /\
  Forecast.get_coordinates E a = Forecast.get_coordinates E b.
Proof.
  intros H. unfold Info.get_coordinates, Forecast.get_coordinates, geo_params.
  now rewrite H.
Qed.

(** X20. The letter case of what the user types does not matter: two
    locations that differ in the case of their ASCII letters only are the
    same city and country code for [get_coordinates], which sends the same
    request and does the same in both scripts. *)
Theorem resolution_ignores_letter_case (E : env) (a b : string) :
  upper a = upper b ->
  parse_location a = parse_location b /\
  geo_request E a = geo_request E b /\
  Info.get_coordinates E a = Info.get_coordinates E b /\
  Forecast.get_coordinates E a = Forecast.get_coordinates E b.
Proof.
  intros H.
  assert (Hp : parse_location a = parse_location b)
    by (now rewrite <- (parse_location_upper a), H, parse_location_upper).
  split; [exact Hp | split].
  - unfold geo_request, geo_params. now rewrite Hp.
  - now apply get_coordinates_same_query.
Qed.

Lemma resolution_ignores_letter_case_witness :
  parse_location "new york,us" = parse_location "NEW YORK,Us" /\
  geo_request env_london "new york,us" = geo_request env_london "NEW YORK,Us" /\
  Info.get_coordinates env_london "new york,us"
  = Info.get_coordinates env_london "NEW YORK,Us" /\
  Forecast.get_coordinates env_london "new york,us"
  = Forecast.get_coordinates env_london "NEW YORK,Us".
Proof.
  apply (resolution_ignores_letter_case env_london "new york,us" "NEW YORK,Us").
  reflexivity.
Defined.

Lemma lstrip_head s :
  lstrip s = EmptyString \/ exists c r, lstrip s = String c r /\ is_space c = false.
Proof.
  induction s as [| c r IH]; simpl; [now left |].
  destruct (is_space c) eqn:Hc; [exact IH | right; now exists c, r].
Qed.

Lemma rstrip_head c r :
  is_space c = false -> exists r', rstrip (String c r) = String c r'.
Proof.
  intros Hc. simpl. rewrite Hc. destruct (rstrip r); eexists; reflexivity.
Qed.

Lemma rstrip_idempotent s : rstrip (rstrip s) = rstrip s.
Proof.
  induction s as [| c r IH]; simpl; [reflexivity |].
  destruct (rstrip r) as [| d r'] eqn:Hr.
  - destruct (is_space c) eqn:Hc; simpl; [reflexivity | now rewrite Hc].
  - change (rstrip (String c (String d r')))
      with (match rstrip (String d r') with
            | EmptyString => if is_space c then EmptyString else String c EmptyString
            | String x y => String c (String x y)
            end).
    now rewrite IH.
Qed.

Lemma strip_idempotent s : strip (strip s) = strip s.
Proof.
  unfold strip. destruct (lstrip_head s) as [-> | (c & r & -> & Hc)]; [reflexivity |].
  destruct (rstrip_head c r Hc) as [r' Hr]. rewrite Hr.
  cbn [lstrip]. rewrite Hc, <- Hr. apply rstrip_idempotent.
Qed.

Lemma contains_lstrip sep s : contains sep s = false -> contains sep (lstrip s) = false.
Proof.
  induction s as [| c r IH]; simpl; [reflexivity |].
  intros H. destruct (is_space c); [| exact H].
  apply orb_false_iff in H as [_ H]. now apply IH.
Qed.

Lemma contains_rstrip sep s : contains sep s = false -> contains sep (rstrip s) = false.
Proof.
  induction s as [| c r IH]; simpl; [reflexivity |].
  intros H. apply orb_false_iff in H as [Hc Hr]. specialize (IH Hr).
  destruct (rstrip r); simpl in *.
  - destruct (is_space c); simpl; [reflexivity | now rewrite Hc].
  - now rewrite Hc, IH.
Qed.

Lemma contains_strip sep s : contains sep s = false -> contains sep (strip s) = false.
Proof. intros H. unfold strip. now apply contains_rstrip, contains_lstrip. Qed.

(** X21. Blanks around the city or around the country code do not
    matter: a location made of parts separated by commas and the same
    location with every part trimmed are the same city and country code
    for [get_coordinates], which sends the same request and does the same
    in both scripts. *)
Theorem resolution_ignores_blanks_around_the_parts (E : env) (parts : list string) :
  parts <> [] ->
  Forall (fun p => contains "," p = false) parts ->
  parse_location (join "," parts) = parse_location (join "," (map strip parts)) /\
  geo_request E (join "," parts) = geo_request E (join "," (map strip parts)) /\
  Info.get_coordinates E (join "," parts)
  = Info.get_coordinates E (join "," (map strip parts)) /\
  Forecast.get_coordinates E (join "," parts)
  = Forecast.get_coordinates E (join "," (map strip parts)).
Proof.
  intros Hne Hparts.
  assert (Hp : parse_location (join "," parts)
               = parse_location (join "," (map strip parts))).
  { rewrite (parse_location_join parts Hne Hparts).
    rewrite (parse_location_join (map strip parts)).
    - unfold query_of_parts. destruct parts as [| c [| p r]]; [congruence | |];
        cbn [map hd]; now rewrite !strip_idempotent.
    - destruct parts; [congruence | discriminate].
    - apply Forall_map. eapply Forall_impl; [| exact Hparts].
      intros p Hpart. now apply contains_strip. }
  split; [exact Hp | split].
  - unfold geo_request, geo_params. now rewrite Hp.
  - now apply get_coordinates_same_query.
Qed.

Lemma resolution_ignores_blanks_witness :
  parse_location " new york , us " = parse_location "new york,us".
Proof.
  apply (resolution_ignores_blanks_around_the_parts env_london [" new york "; " us "]).
  - discriminate.
  - repeat constructor.
Defined.

Lemma length_split sep s :
  List.length (split sep s) = S (count_char sep s).
Proof.
  unfold count_char. induction s as [| c r IH]; simpl; [reflexivity |].
  rewrite (Ascii.eqb_sym sep c). destruct (Ascii.eqb c sep); simpl.
  - now rewrite IH.
  - rewrite <- IH. destruct (split sep r); [discriminate | reflexivity].
Qed.

Lemma info_main_starts_with_the_resolutions E line rest :
  starts_batch line = true ->
  Forall (fun location => returns (Info.get_coordinates E location))
         (user_locations line) ->
  exists t,
    trace (Info.main E (line :: rest))
    = (Input Info.PROMPT
       :: flat_map (fun location => trace (Info.get_coordinates E location))
            (user_locations line)
       ++ t)%list.
Proof.
  intros Hline Hret.
  rewrite (info_main_batch E line rest Hline), trace_bind_emit.
  destruct (trace_bind_prefix (Info.process_batch E line) (fun _ => Info.main E rest))
    as [t1 ->].
  unfold Info.process_batch at 1.
  match goal with
  | |- context [trace (bind ?c ?k)] =>
      destruct (trace_bind_prefix c k) as [t2 ->]
  end.
  change (for_each (user_locations line) (Info.resolve_step E) [])
    with (for_each (user_locations line)
            (fun x s => v <- Info.get_coordinates E x ;;
                        ret (if truthy v then (s ++ [v])%list else s)) []).
  rewrite (for_each_returning (Info.get_coordinates E) _ [] Hret).
  unfold trace at 1. cbn [snd].
  exists (t2 ++ t1)%list. now rewrite <- List.app_assoc.
Qed.

Lemma forecast_main_starts_with_the_resolutions E line rest :
  starts_batch line = true ->
  Forall (fun location => returns (Forecast.get_coordinates E location))
         (user_locations line) ->
  exists t,
    trace (Forecast.main E (line :: rest))
    = (Input Forecast.PROMPT
       :: flat_map (fun location => trace (Forecast.get_coordinates E location))
            (user_locations line)
       ++ t)%list.
Proof.
  intros Hline Hret. destruct (starts_batch_inv line Hline) as [H1 H2].
  unfold Forecast.main. rewrite forecast_main_loop_cons, H1, H2, trace_bind_emit.
  unfold Forecast.process_batch.
  match goal with
  | |- context [trace (bind ?c ?k)] =>
      destruct (trace_bind_prefix c k) as [t2 ->]
  end.
  change (for_each (user_locations line) (Forecast.resolve_step E) [])
    with (for_each (user_locations line)
            (fun x s => v <- Forecast.get_coordinates E x ;;
                        ret (if truthy v then (s ++ [v])%list else s)) []).
  rewrite (for_each_returning (Forecast.get_coordinates E) _ [] Hret).
  unfold trace at 1. cbn [snd]. now exists t2.
Qed.

(** X22. Every input line that starts a batch yields at least one query:
    the line has one more location than it has semicolons, each of them
    trimmed and without a semicolon, and [main] resolves them in the
    order of the line. When every resolution returns, the session goes
    on, right after the prompt, with one call of [get_coordinates] per
    location, and these calls send one geocoding request per location. *)
Theorem every_line_yields_its_segments
    (E : env) (line : string) (rest : list string) :
  starts_batch line = true ->
  List.length (user_locations line) = S (count_char ";" line) /\
  Forall (fun location => strip location = location /\
                          contains ";" location = false)
         (user_locations line) /\
  (Forall (fun location => returns (Info.get_coordinates E location))
          (user_locations line) ->
   exists t,
     trace (Info.main E (line :: rest))
     = (Input Info.PROMPT
        :: flat_map (fun location => trace (Info.get_coordinates E location))
             (user_locations line)
        ++ t)%list) /\
  (Forall (fun location => returns (Forecast.get_coordinates E location))
          (user_locations line) ->
   exists t,
     trace (Forecast.main E (line :: rest))
     = (Input Forecast.PROMPT
        :: flat_map (fun location => trace (Forecast.get_coordinates E location))
             (user_locations line)
        ++ t)%list) /\
  requests_of (flat_map (fun location => trace (Info.get_coordinates E location))
                 (user_locations line))
  = map (geo_request E) (user_locations line) /\
  requests_of (flat_map (fun location => trace (Forecast.get_coordinates E location))
                 (user_locations line))
  = map (geo_request E) (user_locations line).
Proof.
  intros Hline. unfold user_locations at 1 2. split; [| split; [| split; [| split; [| split]]]].
  - now rewrite length_map, length_split.
  - apply Forall_map. eapply Forall_impl; [| exact (proj2 (join_split ";" line))].
    intros p Hp. split; [apply strip_idempotent | now apply contains_strip].
  - now apply info_main_starts_with_the_resolutions.
  - now apply forecast_main_starts_with_the_resolutions.
  - apply requests_of_calls. intros location _. apply info_get_coordinates_sends.
  - apply requests_of_calls. intros location _. apply forecast_get_coordinates_sends.
Qed.

Lemma every_line_yields_its_segments_witness :
  List.length (user_locations "London;Paris,FR") = 2%nat /\
  (exists t,
      trace (Info.main env_two_cities ["London;Paris,FR"; "quit"])
      = (Input Info.PROMPT
         :: flat_map (fun location => trace (Info.get_coordinates env_two_cities location))
              (user_locations "London;Paris,FR")
         ++ t)%list) /\
  (exists t,
      trace (Forecast.main env_two_cities ["London;Paris,FR"; "quit"])
      = (Input Forecast.PROMPT
         :: flat_map (fun location => trace (Forecast.get_coordinates env_two_cities location))
              (user_locations "London;Paris,FR")
         ++ t)%list).
Proof.
  destruct (every_line_yields_its_segments env_two_cities "London;Paris,FR" ["quit"]
              eq_refl) as (Hlength & _ & Hinfo & Hforecast & _).
  split; [exact Hlength | split].
  - apply Hinfo. repeat constructor; eexists; reflexivity.
  - apply Hforecast. repeat constructor; eexists; reflexivity.
Defined.

(** ** What a session never does *)

Lemma geo_params_appid E location :
  lookup "appid" (geo_params E location) = Some (JStr (API_KEY E)).
Proof. unfold geo_params. now destruct (parse_location location). Qed.

Lemma info_get_coordinates_events E location :
  every (info_event E) (Info.get_coordinates E location).
Proof.
  pose proof (geo_params_appid E location) as Hkey.
  unfold Info.get_coordinates. destruct (parse_location location) as [city cc].
  every_with ltac:(first [exact I | reflexivity
                         | split; [reflexivity | split; [now left | exact Hkey]]]).
Qed.

Lemma info_get_weather_data_events E city_info :
  every (info_event E) (Info.get_weather_data E city_info).
Proof.
  unfold Info.get_weather_data.
  every_with ltac:(first [exact I | reflexivity
                         | split; [reflexivity | split; [now right | reflexivity]]]).
Qed.

Lemma info_save_json_events E data path :
  path = COORDINATES_FILE \/ path = Info.WEATHER_DATA_FILE ->
  every (info_event E) (save_json E data path).
Proof.
  intros H. unfold save_json. every_with ltac:(first [exact I | exact H]).
Qed.

Lemma info_plot_temperatures_no_effect E records :
  every (info_event E) (Info.plot_temperatures E records).
Proof.
  unfold Info.plot_temperatures, Info.main_temp. destruct records as [| r rs];
    every_with ltac:(exact I).
Qed.

Lemma info_process_batch_events E user_input :
  every (info_event E) (Info.process_batch E user_input).
Proof.
  unfold Info.process_batch.
  apply every_bind; [apply every_for_each; intros q s; unfold Info.resolve_step;
                     apply every_bind; [apply info_get_coordinates_events
                                       | intros; apply every_ret] | intros locations].
  apply every_bind; [apply info_save_json_events; now left | intros _].
  apply every_bind; [apply every_for_each; intros c s; unfold Info.retrieve_step;
                     apply every_bind; [apply info_get_weather_data_events
                                       | intros; apply every_ret] | intros records].
  apply every_bind; [apply info_save_json_events; now right | intros _].
  apply info_plot_temperatures_no_effect.
Qed.

Lemma info_main_events E stdin : every (info_event E) (Info.main E stdin).
Proof.
  induction stdin as [| line rest IH].
  - cbn [Info.main]. apply every_bind; [now apply every_emit | intros; apply every_raise].
  - rewrite info_main_cons. apply every_bind; [now apply every_emit | intros _].
    destruct (line =? "quit")%string; [now apply every_emit |].
    destruct (line =? EmptyString)%string;
      (apply every_bind; [| intros _; exact IH]).
    + now apply every_emit.
    + apply info_process_batch_events.
Qed.

Lemma forecast_get_coordinates_events E location :
  every (forecast_event E) (Forecast.get_coordinates E location).
Proof.
  pose proof (geo_params_appid E location) as Hkey.
  pose proof (every_extract_loop (forecast_event E)).
  unfold Forecast.get_coordinates. destruct (parse_location location) as [city cc].
  every_with ltac:(first [exact I | reflexivity
                         | split; [reflexivity | split; [now left | exact Hkey]]]).
Qed.

Lemma forecast_get_weather_forecast_events E city_info :
  every (forecast_event E) (Forecast.get_weather_forecast E city_info).
Proof.
  unfold Forecast.get_weather_forecast.
  every_with ltac:(first [exact I | reflexivity
                         | split; [reflexivity | split; [now right | reflexivity]]]).
Qed.

Lemma forecast_save_json_events E data path :
  path = COORDINATES_FILE \/ path = Forecast.FORECAST_FILE ->
  every (forecast_event E) (save_json E data path).
Proof.
  intros H. unfold save_json. every_with ltac:(first [exact I | exact H]).
Qed.

Lemma forecast_plot_forecast_no_effect E forecast_data city_name :
  every (forecast_event E) (Forecast.plot_forecast E forecast_data city_name).
Proof.
  unfold Forecast.plot_forecast, Forecast.has_forecast_list.
  every_with ltac:(exact I).
Qed.

Lemma forecast_process_batch_events E extracted_data city_forecasts user_input :
  every (forecast_event E)
        (Forecast.process_batch E extracted_data city_forecasts user_input).
Proof.
  unfold Forecast.process_batch.
  apply every_bind; [apply every_for_each; intros q s; unfold Forecast.resolve_step;
                     apply every_bind; [apply forecast_get_coordinates_events
                                       | intros; apply every_ret] | intros locations].
  apply every_bind; [apply forecast_save_json_events; now left | intros _].
  apply every_bind; [now apply every_plt | intros _].
  apply every_bind.
  { apply every_for_each. intros c s. unfold Forecast.retrieve_step.
    apply every_bind; [apply forecast_get_weather_forecast_events | intros v].
    destruct (truthy v); [| apply every_ret].
    apply every_bind; [apply every_getitem | intros name].
    apply every_bind; [apply forecast_plot_forecast_no_effect | intros; apply every_ret]. }
  intros records.
  repeat (apply every_bind; [now apply every_plt | intros _]).
  apply forecast_save_json_events. now right.
Qed.

Lemma forecast_main_events E stdin : every (forecast_event E) (Forecast.main E stdin).
Proof.
  unfold Forecast.main. induction stdin as [| line rest IH].
  - cbn [Forecast.main_loop].
    apply every_bind; [now apply every_emit | intros; apply every_raise].
  - rewrite forecast_main_loop_cons. apply every_bind; [now apply every_emit | intros _].
    destruct (line =? "quit")%string; [now apply every_emit |].
    destruct (line =? EmptyString)%string.
    + apply every_bind; [now apply every_emit | intros _; exact IH].
    + apply forecast_process_batch_events.
Qed.

(** X23. Whatever is typed and whatever the services answer, a session
    stays within its endpoints and its files. Every request of the
    snapshot script goes to the geocoding or the weather endpoint, with
    the key and the timeout of 10 seconds; every request of the forecast
    script goes to the geocoding or the forecast endpoint, with the key and
    without a timeout. Neither script writes, or tries to write, a file
    other than its two artifacts, and every sleep lasts one second. *)
Theorem sessions_stay_within_their_endpoints_and_files
    (E : env) (stdin : list string) :
  every (info_event E) (Info.main E stdin) /\
  every (forecast_event E) (Forecast.main E stdin).
Proof. split; [apply info_main_events | apply forecast_main_events]. Qed.

(** *** The rate limit *)

Lemma paced_app pending t1 t2 :
  paced pending (t1 ++ t2)
  = match paced pending t1 with
    | Some pending' => paced pending' t2
    | None => None
    end.
Proof.
  revert pending. induction t1 as [| e t IH]; intros pending; [reflexivity |].
  destruct e; cbn [paced app]; try apply IH.
  destruct pending; [reflexivity | apply IH].
Qed.

Lemma paced_no_request pending t :
  Forall (fun e => is_http e = false) t ->
  paced pending (t ++ [Sleep 1]) = Some false.
Proof.
  intros H. revert pending.
  induction H as [| e t He _ IH]; intros pending; [reflexivity |].
  destruct e; try discriminate; cbn [paced app]; apply IH.
Qed.

Lemma settled_ret {A} (a : A) : settled (ret a).
Proof. reflexivity. Qed.

Lemma settled_raise {A} e : settled (@raise A e).
Proof. reflexivity. Qed.

Lemma settled_emit e : is_http e = false -> settled (emit e).
Proof. destruct e; try discriminate; reflexivity. Qed.

Lemma settled_bind {A B} (c : M A) (k : A -> M B) :
  settled c -> (forall a, settled (k a)) -> settled (bind c k).
Proof.
  unfold settled, trace, bind. destruct c as [[a | e | ] t]; cbn [fst snd]; auto.
  intros Hc Hk. now rewrite paced_app, Hc.
Qed.

Lemma settled_for_each {A S} (xs : list A) (body : A -> S -> M S) s :
  (forall x s', settled (body x s')) -> settled (for_each xs body s).
Proof.
  intros Hb. revert s. induction xs as [| x r IH]; intros s; cbn [for_each].
  - apply settled_ret.
  - apply settled_bind; auto.
Qed.

Lemma settled_quiet {A} (c : M A) :
  every (fun e => is_http e = false) c -> settled c.
Proof.
  unfold every, settled. generalize (trace c). intros t H.
  induction H as [| e t He _ IH]; [reflexivity |].
  destruct e; try discriminate; cbn [paced]; exact IH.
Qed.

Lemma trace_try_except_tail (P : event -> Prop) {A} (body : M A) handler :
  (forall e h, handler e = Some h -> Forall P (trace h)) ->
  exists t, trace (try_except body handler) = (trace body ++ t)%list /\ Forall P t.
Proof.
  intros Hh. unfold trace, try_except. destruct body as [[a | e | ] t]; cbn [fst snd].
  - exists []. split; [now rewrite List.app_nil_r | constructor].
  - destruct (handler e) as [h |] eqn:He; cbn [fst snd].
    + exists (snd h). split; [reflexivity | exact (Hh e h He)].
    + exists []. split; [now rewrite List.app_nil_r | constructor].
  - exists []. split; [now rewrite List.app_nil_r | constructor].
Qed.

(** A request with a timeout, guarded by [except] clauses that send
    nothing, and followed by the sleep of the [finally] clause. *)
Lemma settled_guarded_request {A} E u ps timeout (k : response -> M A) handler :
  (forall r, every (fun e => is_http e = false) (k r)) ->
  (forall e h, handler e = Some h -> every (fun e => is_http e = false) h) ->
  returns_or_raises (try_except (bind (requests_get E u ps (Some timeout)) k) handler) ->
  settled (try_finally (try_except (bind (requests_get E u ps (Some timeout)) k) handler)
             (sleep 1)).
Proof.
  intros Hk Hh Hret. unfold sleep. rewrite (try_finally_emit _ _ Hret).
  destruct (trace_try_except_tail (fun e => is_http e = false)
              (bind (requests_get E u ps (Some timeout)) k) handler Hh) as [t2 [-> H2]].
  destruct (trace_bind_tail (fun e => is_http e = false)
              (requests_get E u ps (Some timeout)) k Hk) as [t1 [-> H1]].
  rewrite trace_requests_get. unfold settled, trace. cbn [snd app paced].
  apply paced_no_request. now apply Forall_app.
Qed.

Lemma settled_info_get_coordinates E location :
  settled (Info.get_coordinates E location).
Proof.
  unfold Info.get_coordinates. destruct (parse_location location) as [city cc].
  apply settled_bind; [now apply settled_emit | intros _].
  apply settled_guarded_request.
  - intros r. every_with ltac:(reflexivity).
  - no_hang_handler; every_with ltac:(reflexivity).
  - pose proof no_hang_extract_info. no_hang.
Qed.

Lemma settled_getitem v key : settled (getitem v key).
Proof. apply settled_quiet, every_getitem. Qed.

Lemma settled_info_get_weather_data E city_info :
  settled (Info.get_weather_data E city_info).
Proof.
  unfold Info.get_weather_data.
  apply settled_bind; [apply settled_getitem | intros lat].
  apply settled_bind; [apply settled_getitem | intros lon].
  apply settled_bind; [apply settled_getitem | intros name].
  apply settled_bind; [now apply settled_emit | intros _].
  apply settled_guarded_request.
  - intros r. every_with ltac:(reflexivity).
  - no_hang_handler; every_with ltac:(reflexivity).
  - no_hang.
Qed.

Lemma settled_save_json E data path : settled (save_json E data path).
Proof.
  apply settled_quiet. unfold save_json. every_with ltac:(reflexivity).
Qed.

Lemma settled_plot_temperatures E records : settled (Info.plot_temperatures E records).
Proof.
  apply settled_quiet.
  exact (forall_and_l _ _ _ (info_plot_temperatures_events E records)).
Qed.

Lemma settled_info_process_batch E user_input :
  settled (Info.process_batch E user_input).
Proof.
  unfold Info.process_batch.
  apply settled_bind; [apply settled_for_each; intros q s; unfold Info.resolve_step;
                       apply settled_bind; [apply settled_info_get_coordinates
                                           | intros; apply settled_ret] | intros locations].
  apply settled_bind; [apply settled_save_json | intros _].
  apply settled_bind; [apply settled_for_each; intros c s; unfold Info.retrieve_step;
                       apply settled_bind; [apply settled_info_get_weather_data
                                           | intros; apply settled_ret] | intros records].
  apply settled_bind; [apply settled_save_json | intros _].
  apply settled_plot_temperatures.
Qed.

Lemma settled_info_main E stdin : settled (Info.main E stdin).
Proof.
  induction stdin as [| line rest IH].
  - reflexivity.
  - rewrite info_main_cons. apply settled_bind; [now apply settled_emit | intros _].
    destruct (line =? "quit")%string; [now apply settled_emit |].
    destruct (line =? EmptyString)%string;
      (apply settled_bind; [| intros _; exact IH]).
    + now apply settled_emit.
    + apply settled_info_process_batch.
Qed.

(** X24. The snapshot script keeps its rate limit throughout a session:
    whatever is typed and whatever the services answer, it never sends a
    request before it has slept after the previous one, and it has slept
    after its last request when the session ends. The forecast script
    does not: with London and Paris resolved, the two forecast requests
    follow one another without a sleep. *)
Theorem the_snapshot_session_keeps_the_rate_limit (E : env) (stdin : list string) :
  paced false (trace (Info.main E stdin)) = Some false /\
  paced false (trace (Forecast.main env_london_fails ["London;Paris,FR"])) = None.
Proof. split; [apply settled_info_main | reflexivity]. Qed.

(** ** The text of the files *)

Lemma all_chars_app p a b :
  all_chars p (a ++ b) = all_chars p a && all_chars p b.
Proof.
  induction a as [| c r IH]; simpl; [reflexivity |].
  now rewrite IH, andb_assoc.
Qed.

Lemma plain_escape_char c : all_chars is_plain (escape_char c) = true.
Proof. destruct c as [[] [] [] [] [] [] [] []]; reflexivity. Qed.

Lemma plain_escape s : all_chars is_plain (escape s) = true.
Proof.
  induction s as [| c r IH]; simpl; [reflexivity |].
  now rewrite all_chars_app, plain_escape_char, IH.
Qed.

Lemma plain_basestring s : all_chars is_plain (encode_basestring_ascii s) = true.
Proof.
  unfold encode_basestring_ascii. cbn [all_chars].
  now rewrite all_chars_app, plain_escape.
Qed.

Lemma plain_uint d : all_chars is_plain (DecimalString.NilEmpty.string_of_uint d) = true.
Proof. induction d; simpl; auto. Qed.

Lemma plain_int_repr z : all_chars is_plain (int_repr z) = true.
Proof.
  unfold int_repr, DecimalString.NilZero.string_of_int,
    DecimalString.NilZero.string_of_uint.
  destruct (Z.to_int z) as [d | d]; destruct d; try reflexivity;
    cbn [all_chars]; try apply (plain_uint (_ d));
    change (is_plain "-") with true; cbn [andb]; apply (plain_uint (_ d)).
Qed.

Lemma plain_spaces n : all_chars is_plain (spaces n) = true.
Proof. induction n as [| n IH]; simpl; auto. Qed.

Lemma plain_newline_indent level : all_chars is_plain (newline_indent level) = true.
Proof. unfold newline_indent. cbn [all_chars]. apply plain_spaces. Qed.

Lemma plain_items_tail level xs :
  Forall (fun x => forall level, plain_floats x = true ->
                                 all_chars is_plain (encode level x) = true) xs ->
  forallb plain_floats xs = true ->
  all_chars is_plain (items_tail level xs) = true.
Proof.
  induction 1 as [| y r Hy _ IH]; intros Hp; cbn [items_tail].
  - rewrite all_chars_app, plain_newline_indent. reflexivity.
  - cbn [forallb] in Hp. apply andb_prop in Hp as [Hpy Hpr].
    cbn [append all_chars].
    rewrite !all_chars_app, plain_newline_indent, (Hy (S level) Hpy), (IH Hpr).
    reflexivity.
Qed.

Lemma plain_members_tail level kvs :
  Forall (fun kv => forall level, plain_floats (snd kv) = true ->
                                  all_chars is_plain (encode level (snd kv)) = true) kvs ->
  forallb (fun kv => plain_floats (snd kv)) kvs = true ->
  all_chars is_plain (members_tail level kvs) = true.
Proof.
  induction 1 as [| [k y] r Hy _ IH]; intros Hp; cbn [members_tail].
  - rewrite all_chars_app, plain_newline_indent. reflexivity.
  - cbn [forallb snd] in Hp, Hy. apply andb_prop in Hp as [Hpy Hpr].
    cbn [append all_chars].
    rewrite !all_chars_app, plain_newline_indent, plain_basestring.
    cbn [all_chars]. rewrite all_chars_app, (Hy (S level) Hpy), (IH Hpr).
    reflexivity.
Qed.

Lemma plain_encode v :
  forall level, plain_floats v = true -> all_chars is_plain (encode level v) = true.
Proof.
  induction v as [ | b | z | l | s | xs IH | kvs IH] using json_nested_ind;
    intros level Hp.
  - reflexivity.
  - destruct b; reflexivity.
  - apply plain_int_repr.
  - exact Hp.
  - apply plain_basestring.
  - destruct xs as [| x xs]; [reflexivity |].
    apply Forall_cons_iff in IH as [Hx Hxs].
    cbn [plain_floats forallb] in Hp. apply andb_prop in Hp as [Hpx Hpxs].
    rewrite encode_list. cbn [all_chars].
    rewrite !all_chars_app, plain_newline_indent, (Hx (S level) Hpx),
      (plain_items_tail level xs Hxs Hpxs).
    reflexivity.
  - destruct kvs as [| [k x] kvs]; [reflexivity |].
    apply Forall_cons_iff in IH as [Hx Hkvs]. cbn [snd] in Hx.
    cbn [plain_floats forallb snd] in Hp. apply andb_prop in Hp as [Hpx Hpkvs].
    rewrite encode_dict. cbn [all_chars].
    rewrite !all_chars_app, plain_newline_indent, plain_basestring,
      (Hx (S level) Hpx), (plain_members_tail level kvs Hkvs Hpkvs).
    reflexivity.
Qed.

(** X25. The files are plain ASCII. Whatever characters the strings of
    the data contain, the text that [save_json] leaves in a writable file
    is [json.dumps(data, indent=4)] and consists of printable ASCII
    characters and of new lines only. Stated for data whose floats are
    written with such characters, as the [repr] of a float is. *)
Theorem save_json_writes_plain_ascii
    (E : env) (data : json) (filename : string) (before : disk) :
  write_fails E filename = false ->
  plain_floats data = true ->
  exists text,
    read_text filename (disk_after (trace (save_json E data filename)) before)
    = Some text /\
    text = dumps data /\
    all_chars is_plain text = true.
Proof.
  intros Hw Hp. exists (dumps data).
  rewrite (save_json_written E data filename Hw). unfold read_text.
  cbn [disk_after fold_left apply_event]. rewrite String.eqb_refl.
  split; [reflexivity | split; [reflexivity |]].
  apply plain_encode, Hp.
Qed.

Lemma save_json_writes_plain_ascii_witness :
  exists text,
    read_text COORDINATES_FILE
      (disk_after (trace (save_json env_london (JArr [london_info]) COORDINATES_FILE))
         no_files)
    = Some text /\
    text = dumps (JArr [london_info]) /\
    all_chars is_plain text = true.
Proof.
  apply (save_json_writes_plain_ascii env_london (JArr [london_info])
           COORDINATES_FILE no_files); reflexivity.
Defined.
